(** * The emoji repository of GoToSocial (internal/db/bundb/emoji.go)

    A shallow embedding of the cache-aside access layer for emoji and emoji
    categories: the single-entity reads ([getEmoji], [getEmojiCategory]), the
    filtered and paged listing ([GetEmojis]), the batch hydration
    ([emojisFromIDs], [emojiCategoriesFromIDs]), the column update
    ([UpdateEmoji]) and the cascading delete ([DeleteEmojiByID]).

    The Go methods act on a database connection, two caches, the clock and the
    logger.  They are embedded as computations over an explicit [World] that
    holds the tables, the caches, the clock and a chronological list of the
    observable events (statements sent to storage, cache writes, log lines).
    Storage failures are injected through a schedule of outcomes, one entry
    per statement. *)

From Stdlib Require Import ZArith String Ascii List.
From stdpp Require Import base tactics option list sorting strings gmap.
Import ListNotations.

Local Open Scope Z_scope.

(** ** Strings

    Strings are sequences of bytes.  Comparison ([String.ltb], [String.leb])
    is bytewise lexicographic, which is the BINARY collation of the storage
    engine.  [lower] maps the ASCII letters A-Z to a-z and leaves every
    other byte alone: it is SQL's LOWER as the storage engine computes it.
    Go's [strings.ToLower] is another function (it lowercases every Unicode
    letter); the two agree on text that is ASCII only. *)

Definition lower_ascii (c : ascii) : ascii :=
  let n := N_of_ascii c in
  if ((65 <=? n) && (n <=? 90))%N then ascii_of_N (n + 32) else c.

Fixpoint lower (s : string) : string :=
  match s with
  | EmptyString => EmptyString
  | String c s' => String (lower_ascii c) (lower s')
  end.

(** Text made of ASCII bytes only. *)
Definition is_ascii (s : string) : bool :=
  forallb (fun c => (N_of_ascii c <? 128)%N) (list_ascii_of_string s).

(** SQL's [LOWER(...)]. *)
Definition LOWER (s : string) : string := lower s.

(** SQL's [COALESCE(x, d)] on a nullable text column. *)
Definition COALESCE (x : option string) (d : string) : string :=
  match x with Some v => v | None => d end.

(** ** Data model (gtsmodel)

    Modelled from the spec: the struct declarations of package gtsmodel are
    not part of the source file; the fields are those of the spec's data
    model (section 3).  [Domain] is optional: [None] is the SQL NULL of a
    locally hosted emoji. *)

Module EmojiCategory.
Record t : Type := mk {
  ID : string;
  Name : string
}.
Definition empty : t := mk "" "".

#[global] Instance eq_dec : EqDecision t.
Proof. solve_decision. Defined.
End EmojiCategory.

Module Emoji.
Record t : Type := mk {
  ID : string;
  CreatedAt : Z;
  UpdatedAt : Z;
  Shortcode : string;
  Domain : option string;
  ImageStaticURL : string;
  URI : string;
  Disabled : bool;
  VisibleInPicker : bool;
  CategoryID : string;
  Category : option EmojiCategory.t
}.

(** [&gtsmodel.Emoji{}] *)
Definition empty : t := mk "" 0 0 "" None "" "" false false "" None.

#[global] Instance eq_dec : EqDecision t.
Proof. solve_decision. Defined.

Definition set_UpdatedAt (v : Z) (e : t) : t :=
  mk (ID e) (CreatedAt e) v (Shortcode e) (Domain e) (ImageStaticURL e)
     (URI e) (Disabled e) (VisibleInPicker e) (CategoryID e) (Category e).

Definition set_Category (v : option EmojiCategory.t) (e : t) : t :=
  mk (ID e) (CreatedAt e) (UpdatedAt e) (Shortcode e) (Domain e)
     (ImageStaticURL e) (URI e) (Disabled e) (VisibleInPicker e)
     (CategoryID e) v.
End Emoji.

(** ** Errors

    Go's [error] values.  The first two constructors are the raw errors of the
    storage collaborator; the others are the normalized errors of package db.

    Modelled from the spec: the error values of package db and the
    translation [ProcessError] are not part of the source file; the
    constructors follow the taxonomy of the spec (section 7): not-found for a
    single-entity query that matched no row, no-entries for a batch started
    from an empty ID list, backend error for every other storage failure. *)

Inductive error : Type :=
| sql_ErrNoRows
| backend_failure (msg : string)
| db_ErrNotFound
| db_ErrNoEntries
| db_ErrBackend (msg : string).

#[global] Instance error_eq_dec : EqDecision error.
Proof. solve_decision. Defined.

(** [conn.ProcessError]. *)
Definition ProcessError (err : error) : error :=
  match err with
  | sql_ErrNoRows => db_ErrNotFound
  | backend_failure msg => db_ErrBackend msg
  | e => e
  end.

(** ** The world the repository runs in *)

Inductive Dialect : Type := SQLite | PG | OtherDialect.

Inductive Table : Type :=
| emojis_table | emoji_categories_table
| status_to_emojis_table | account_to_emojis_table.

#[global] Instance Table_eq_dec : EqDecision Table.
Proof. solve_decision. Defined.

(** A junction row links an owner (a status or an account) to an emoji. *)
Record Junction : Type := mkJunction {
  owner_id : string;
  emoji_id : string
}.

#[global] Instance Junction_eq_dec : EqDecision Junction.
Proof. solve_decision. Defined.

Record Tables : Type := mkTables {
  emojis : list Emoji.t;
  emoji_categories : list EmojiCategory.t;
  status_to_emojis : list Junction;
  account_to_emojis : list Junction
}.

(** What an observer of the collaborators sees, in the order it happens. *)
Inductive Event : Type :=
| EvBegin
| EvCommit
| EvRollback
| EvSelect (t : Table)
| EvUpdate (t : Table) (id : string) (columns : list string)
| EvDelete (t : Table) (id : string)
| EvEmojiCachePut (id : string)
| EvEmojiCacheInvalidate (id : string)
| EvCategoryCachePut (id : string)
| EvLogError (func : string) (id : string) (err : error).

#[global] Instance Event_eq_dec : EqDecision Event.
Proof. solve_decision. Defined.

Record World : Type := mkWorld {
  dialect : Dialect;
  tables : Tables;
  (** outcome of the next statements: [Some err] makes the statement fail
      with [err]; [None], or an exhausted schedule, lets it run *)
  faults : list (option error);
  emojiCache : gmap string Emoji.t;
  categoryCache : gmap string EmojiCategory.t;
  clock : Z;
  events : list Event
}.

Definition set_tables (t : Tables) (w : World) : World :=
  mkWorld (dialect w) t (faults w) (emojiCache w) (categoryCache w)
          (clock w) (events w).
Definition set_faults (f : list (option error)) (w : World) : World :=
  mkWorld (dialect w) (tables w) f (emojiCache w) (categoryCache w)
          (clock w) (events w).
Definition set_emojiCache (c : gmap string Emoji.t) (w : World) : World :=
  mkWorld (dialect w) (tables w) (faults w) c (categoryCache w)
          (clock w) (events w).
Definition set_categoryCache (c : gmap string EmojiCategory.t) (w : World)
  : World :=
  mkWorld (dialect w) (tables w) (faults w) (emojiCache w) c
          (clock w) (events w).
Definition set_events (l : list Event) (w : World) : World :=
  mkWorld (dialect w) (tables w) (faults w) (emojiCache w) (categoryCache w)
          (clock w) l.

(** ** The monad: state passing over [World], with Go's panic *)

Inductive Outcome (A : Type) : Type :=
| Panic (msg : string)
| Done (a : A) (w : World).
Arguments Panic {A} msg.
Arguments Done {A} a w.

Definition M (A : Type) : Type := World -> Outcome A.

#[global] Instance M_ret : MRet M := fun A a w => Done a w.
#[global] Instance M_bind : MBind M := fun A B f m w =>
  match m w with
  | Panic msg => Panic msg
  | Done a w' => f a w'
  end.

Definition panic {A} (msg : string) : M A := fun _ => Panic msg.
Definition get_world : M World := fun w => Done w w.
Definition modify (f : World -> World) : M unit := fun w => Done tt (f w).
Definition emit (ev : Event) : M unit :=
  modify (fun w => set_events (events w ++ [ev]) w).

(** Takes the outcome of the next statement off the schedule. *)
Definition next_fault : M (option error) := fun w =>
  match faults w with
  | [] => Done None w
  | f :: rest => Done f (set_faults rest w)
  end.

(** [time.Now()] *)
Definition time_Now : M Z := fun w => Done (clock w) w.

(** ** The caches (package cache)

    Modelled from the spec: the cache types are not part of the source file.
    Per the spec's contract (section 4.1) a cache is an in-memory index of
    entities by primary ID; [Put] indexes the entity, [Invalidate] removes
    it, and the lookups by ID or by a secondary key (URI, shortcode and
    domain, static URL; name for categories) are pure reads that never touch
    storage.  A secondary lookup returns a cached entity that carries the
    key. *)

Definition cache_find {T} (p : T -> bool) (c : gmap string T) : option T :=
  List.find p (map_to_list c).*2.

Definition emojiCache_Put (emoji : Emoji.t) : M unit :=
  modify (fun w =>
    set_emojiCache (<[Emoji.ID emoji := emoji]> (emojiCache w)) w);;
  emit (EvEmojiCachePut (Emoji.ID emoji)).

Definition emojiCache_Invalidate (id : string) : M unit :=
  modify (fun w => set_emojiCache (delete id (emojiCache w)) w);;
  emit (EvEmojiCacheInvalidate id).

Definition emojiCache_GetByID (id : string) : M (option Emoji.t) :=
  w ← get_world; mret (emojiCache w !! id).

Definition emojiCache_GetByURI (uri : string) : M (option Emoji.t) :=
  w ← get_world;
  mret (cache_find (fun e => bool_decide (Emoji.URI e = uri)) (emojiCache w)).

(** The composite key is the pair of strings the caller passes; a local
    emoji is indexed under the empty domain. *)
Definition emojiCache_GetByShortcodeDomain (shortcode domain : string)
  : M (option Emoji.t) :=
  w ← get_world;
  mret (cache_find
          (fun e => bool_decide (Emoji.Shortcode e = shortcode)
                    && bool_decide (COALESCE (Emoji.Domain e) "" = domain))
          (emojiCache w)).

Definition emojiCache_GetByImageStaticURL (url : string)
  : M (option Emoji.t) :=
  w ← get_world;
  mret (cache_find (fun e => bool_decide (Emoji.ImageStaticURL e = url))
                   (emojiCache w)).

Definition categoryCache_Put (c : EmojiCategory.t) : M unit :=
  modify (fun w =>
    set_categoryCache (<[EmojiCategory.ID c := c]> (categoryCache w)) w);;
  emit (EvCategoryCachePut (EmojiCategory.ID c)).

Definition categoryCache_GetByID (id : string) : M (option EmojiCategory.t) :=
  w ← get_world; mret (categoryCache w !! id).

Definition categoryCache_GetByName (name : string)
  : M (option EmojiCategory.t) :=
  w ← get_world;
  mret (cache_find (fun c => bool_decide (EmojiCategory.Name c = name))
                   (categoryCache w)).

(** ** The storage collaborator: select queries

    A select query is built as the source builds it, clause by clause, and
    evaluated over the rows of its table.  A WHERE clause is an SQL boolean:
    [None] is NULL, and a row is kept only when every clause is true.  ORDER
    BY sorts the kept rows by the key; LIMIT keeps a prefix of the sorted
    rows. *)

Definition Pred (R : Type) : Type := R -> option bool.

(** [? IS NULL] *)
Definition IS_NULL {R A} (col : R -> option A) : Pred R :=
  fun r => Some (match col r with None => true | Some _ => false end).

(** [? = ?] against a value; NULL when the column is NULL. *)
Definition EQ {R A} `{EqDecision A} (col : R -> option A) (v : A) : Pred R :=
  fun r => x ← col r; Some (bool_decide (x = v)).

(** [? > ?] and [? < ?] on text. *)
Definition GT {R} (col : R -> option string) (v : string) : Pred R :=
  fun r => x ← col r; Some (String.ltb v x).
Definition LT {R} (col : R -> option string) (v : string) : Pred R :=
  fun r => x ← col r; Some (String.ltb x v).

Inductive Order : Type := ASC | DESC.

Record SelectQuery (R : Type) : Type := mkSelect {
  q_where : list (Pred R);
  q_order : option ((R -> string) * Order);
  q_limit : option nat;
  q_relations : list string
}.
Arguments mkSelect {R} _ _ _ _.
Arguments q_where {R} _.
Arguments q_order {R} _.
Arguments q_limit {R} _.
Arguments q_relations {R} _.

Definition NewSelect {R} : SelectQuery R := mkSelect [] None None [].
Definition Where {R} (p : Pred R) (q : SelectQuery R) : SelectQuery R :=
  mkSelect (q_where q ++ [p]) (q_order q) (q_limit q) (q_relations q).
Definition OrderBy {R} (key : R -> string) (o : Order) (q : SelectQuery R)
  : SelectQuery R :=
  mkSelect (q_where q) (Some (key, o)) (q_limit q) (q_relations q).
Definition Limit {R} (n : Z) (q : SelectQuery R) : SelectQuery R :=
  mkSelect (q_where q) (q_order q) (Some (Z.to_nat n)) (q_relations q).
Definition Relation {R} (name : string) (q : SelectQuery R) : SelectQuery R :=
  mkSelect (q_where q) (q_order q) (q_limit q) (q_relations q ++ [name]).

Definition holds {R} (p : Pred R) (r : R) : bool :=
  match p r with Some true => true | _ => false end.

Definition where_ok {R} (q : SelectQuery R) (r : R) : bool :=
  forallb (fun p => holds p r) (q_where q).

Definition key_le {R} (key : R -> string) (a b : R) : Prop :=
  String.le (key a) (key b).
Definition key_ge {R} (key : R -> string) (a b : R) : Prop :=
  String.le (key b) (key a).

#[global] Instance key_le_dec {R} (key : R -> string) : RelDecision (key_le key).
Proof. intros a b. unfold key_le. apply _. Defined.
#[global] Instance key_ge_dec {R} (key : R -> string) : RelDecision (key_ge key).
Proof. intros a b. unfold key_ge. apply _. Defined.

Definition order_rows {R} (q : SelectQuery R) (rows : list R) : list R :=
  match q_order q with
  | None => rows
  | Some (key, ASC) => merge_sort (key_le key) rows
  | Some (key, DESC) => merge_sort (key_ge key) rows
  end.

Definition limit_rows {R} (q : SelectQuery R) (rows : list R) : list R :=
  match q_limit q with
  | None => rows
  | Some n => take n rows
  end.

Definition run_select {R} (q : SelectQuery R) (rows : list R) : list R :=
  limit_rows q (order_rows q (List.filter (where_ok q) rows)).

(** Columns of the two entity tables. *)
Definition emoji_id_col (e : Emoji.t) : option string := Some (Emoji.ID e).
Definition emoji_shortcode (e : Emoji.t) : option string :=
  Some (Emoji.Shortcode e).
Definition emoji_domain (e : Emoji.t) : option string := Emoji.Domain e.
Definition emoji_uri (e : Emoji.t) : option string := Some (Emoji.URI e).
Definition emoji_image_static_url (e : Emoji.t) : option string :=
  Some (Emoji.ImageStaticURL e).
Definition emoji_disabled (e : Emoji.t) : option bool :=
  Some (Emoji.Disabled e).
Definition emoji_visible_in_picker (e : Emoji.t) : option bool :=
  Some (Emoji.VisibleInPicker e).
Definition emoji_category_id (c : EmojiCategory.t) : option string :=
  Some (EmojiCategory.ID c).
Definition emoji_category_name (c : EmojiCategory.t) : option string :=
  Some (EmojiCategory.Name c).

(** [LOWER(col)] as a column expression. *)
Definition LOWER_col {R} (col : R -> option string) : R -> option string :=
  fun r => LOWER <$> col r.

(** ** The storage collaborator: executing statements

    Every statement sent to storage is recorded as an event and takes its
    outcome off the fault schedule.  A failed statement changes no table. *)

(** [Scan(ctx, &ids)] of a query that selects the ID column: the
    destination slice receives the IDs of the selected rows, in order; on a
    failure it is left as it was. *)
Definition Scan_ids {R} (t : Table) (rows : Tables -> list R) (id : R -> string)
    (q : SelectQuery R) (dest : list string) : M (list string * option error) :=
  emit (EvSelect t);;
  f ← next_fault;
  match f with
  | Some err => mret (dest, Some err)
  | None =>
      w ← get_world;
      mret (id <$> run_select q (rows (tables w)), None)
  end.

(** The eager load of [Relation("Category")]: the category row whose ID is
    the emoji's category reference, if there is one. *)
Definition load_relations (q : SelectQuery Emoji.t) (t : Tables)
    (row : Emoji.t) : Emoji.t :=
  if bool_decide ("Category"%string ∈ q_relations q)
  then Emoji.set_Category
         (List.find (fun c => bool_decide (EmojiCategory.ID c = Emoji.CategoryID row))
                    (emoji_categories t))
         row
  else row.

(** [Scan(ctx)] of a query whose model is one emoji struct: the struct is
    filled from the first selected row; no row is [sql.ErrNoRows]. *)
Definition Scan_emoji (q : SelectQuery Emoji.t) (dest : Emoji.t)
  : M (Emoji.t * option error) :=
  emit (EvSelect emojis_table);;
  f ← next_fault;
  match f with
  | Some err => mret (dest, Some err)
  | None =>
      w ← get_world;
      match run_select q (emojis (tables w)) with
      | [] => mret (dest, Some sql_ErrNoRows)
      | row :: _ => mret (load_relations q (tables w) row, None)
      end
  end.

Definition Scan_category (q : SelectQuery EmojiCategory.t)
    (dest : EmojiCategory.t) : M (EmojiCategory.t * option error) :=
  emit (EvSelect emoji_categories_table);;
  f ← next_fault;
  match f with
  | Some err => mret (dest, Some err)
  | None =>
      w ← get_world;
      match run_select q (emoji_categories (tables w)) with
      | [] => mret (dest, Some sql_ErrNoRows)
      | row :: _ => mret (row, None)
      end
  end.

(** [DELETE FROM t WHERE <emoji id column of t> = id]: the column is
    [status_to_emoji.emoji_id], [account_to_emoji.emoji_id] or [emoji.id]. *)
Definition delete_rows (t : Table) (id : string) (T : Tables) : Tables :=
  let keep_junction (j : Junction) := negb (bool_decide (emoji_id j = id)) in
  match t with
  | status_to_emojis_table =>
      mkTables (emojis T) (emoji_categories T)
               (List.filter keep_junction (status_to_emojis T))
               (account_to_emojis T)
  | account_to_emojis_table =>
      mkTables (emojis T) (emoji_categories T) (status_to_emojis T)
               (List.filter keep_junction (account_to_emojis T))
  | emojis_table =>
      mkTables (List.filter (fun e => negb (bool_decide (Emoji.ID e = id)))
                            (emojis T))
               (emoji_categories T) (status_to_emojis T) (account_to_emojis T)
  | emoji_categories_table =>
      mkTables (emojis T)
               (List.filter
                  (fun c => negb (bool_decide (EmojiCategory.ID c = id)))
                  (emoji_categories T))
               (status_to_emojis T) (account_to_emojis T)
  end.

Definition Exec_delete (t : Table) (id : string) : M (option error) :=
  emit (EvDelete t id);;
  f ← next_fault;
  match f with
  | Some err => mret (Some err)
  | None =>
      modify (fun w => set_tables (delete_rows t id (tables w)) w);;
      mret None
  end.

(** The data columns of the emoji table (every column but the key). *)
Definition emoji_data_columns : list string :=
  ["created_at"; "updated_at"; "shortcode"; "domain"; "image_static_url";
   "uri"; "disabled"; "visible_in_picker"; "category_id"]%string.

(** Writes column [col] of [row] from the struct [src]. *)
Definition write_column (src : Emoji.t) (col : string) (row : Emoji.t)
  : Emoji.t :=
  let '(Emoji.mk id created updated shortcode domain static uri disabled
                 visible category_id category) := row in
  if String.eqb col "id" then
    Emoji.mk (Emoji.ID src) created updated shortcode domain static uri
             disabled visible category_id category
  else if String.eqb col "created_at" then
    Emoji.mk id (Emoji.CreatedAt src) updated shortcode domain static
             uri disabled visible category_id category
  else if String.eqb col "updated_at" then
    Emoji.mk id created (Emoji.UpdatedAt src) shortcode domain static
             uri disabled visible category_id category
  else if String.eqb col "shortcode" then
    Emoji.mk id created updated (Emoji.Shortcode src) domain static uri
             disabled visible category_id category
  else if String.eqb col "domain" then
    Emoji.mk id created updated shortcode (Emoji.Domain src) static uri
             disabled visible category_id category
  else if String.eqb col "image_static_url" then
    Emoji.mk id created updated shortcode domain
             (Emoji.ImageStaticURL src) uri disabled visible category_id
             category
  else if String.eqb col "uri" then
    Emoji.mk id created updated shortcode domain static (Emoji.URI src)
             disabled visible category_id category
  else if String.eqb col "disabled" then
    Emoji.mk id created updated shortcode domain static uri
             (Emoji.Disabled src) visible category_id category
  else if String.eqb col "visible_in_picker" then
    Emoji.mk id created updated shortcode domain static uri disabled
             (Emoji.VisibleInPicker src) category_id category
  else if String.eqb col "category_id" then
    Emoji.mk id created updated shortcode domain static uri disabled
             visible (Emoji.CategoryID src) category
  else row.

Definition write_columns (src : Emoji.t) (cols : list string) (row : Emoji.t)
  : Emoji.t :=
  fold_left (fun r c => write_column src c r) cols row.

(** The columns an update is restricted to.  [Column(columns...)] restricts
    the update to the listed columns; called with no name it restricts
    nothing, and the query builder (bun) then sets every data column of the
    model. *)
Definition update_columns (columns : list string) : list string :=
  match columns with
  | [] => emoji_data_columns
  | _ => columns
  end.

(** The names the query builder (bun, a dependency outside the source file)
    accepts in [Column] for the emoji model: the key, the data columns and
    the relation field [Category], which it keeps among the fields of the
    model although the table has no such column. *)
Definition emoji_fields : list string :=
  "id"%string :: emoji_data_columns ++ ["category"%string].

Definition is_emoji_field (col : string) : bool :=
  existsb (String.eqb col) emoji_fields.

(** The columns of the table a SET clause can assign. *)
Definition is_emoji_column (col : string) : bool :=
  existsb (String.eqb col) emoji_data_columns.

(** The SET clause of the statement: the builder leaves the primary key out
    of it. *)
Definition set_columns (columns : list string) : list string :=
  List.filter (fun c => negb (String.eqb c "id")) (update_columns columns).

Definition update_rows (src : Emoji.t) (id : string) (cols : list string)
    (rows : list Emoji.t) : list Emoji.t :=
  (fun row => if bool_decide (Emoji.ID row = id)
              then write_columns src cols row else row) <$> rows.

(** [UPDATE emojis SET <columns from the model> WHERE emoji.id = id].  The
    query builder refuses a name that is no field of the model before
    anything is sent to storage.  Otherwise the statement is sent; storage
    rejects it when the SET clause is empty (only the key was listed) or
    names the relation field, which is no column of the table.  A statement
    that fails changes no row. *)
Definition Exec_update (model : Emoji.t) (id : string) (columns : list string)
  : M (option error) :=
  if forallb is_emoji_field columns then
    emit (EvUpdate emojis_table id columns);;
    f ← next_fault;
    match f with
    | Some err => mret (Some err)
    | None =>
        match set_columns columns with
        | [] => mret (Some (backend_failure "syntax error"))
        | set =>
            if forallb is_emoji_column set then
              modify (fun w =>
                let T := tables w in
                set_tables
                  (mkTables (update_rows model id set (emojis T))
                            (emoji_categories T) (status_to_emojis T)
                            (account_to_emojis T)) w);;
              mret None
            else mret (Some (backend_failure "no such column"))
        end
    end
  else mret (Some (backend_failure "does not have column")).

(** [conn.RunInTx].

    Modelled from the spec: the method is not part of the source file.  Per
    the spec (sections 4.4 and 6) the steps run as one atomic unit: when the
    function returns an error every table is put back as it was before the
    transaction and the error is surfaced to the caller; otherwise the
    changes are committed. *)
Definition RunInTx (fn : M (option error)) : M (option error) :=
  w0 ← get_world;
  emit EvBegin;;
  err ← fn;
  match err with
  | Some e =>
      modify (set_tables (tables w0));;
      emit EvRollback;;
      mret (Some e)
  | None =>
      emit EvCommit;;
      mret None
  end.

(** ** The repository (type emojiDB) *)

Section Repository.

(** [db.EmojiAllDomains], the reserved value of the domain filter that asks
    for the emoji of every domain.  The constant is declared outside the
    source file, so the repository takes it as a parameter. *)
Variable EmojiAllDomains : string.

(** Go's [strings.ToLower].  The function belongs to the standard library,
    not to the source file, and lowercases every Unicode letter of its
    argument, so the repository takes it as a parameter.  Where its value
    matters, what is assumed of it is stated: on ASCII-only text it is
    [lower]. *)
Variable strings_ToLower : string -> string.

Definition newEmojiQ : SelectQuery Emoji.t :=
  Relation "Category" NewSelect.

Definition newEmojiCategoryQ : SelectQuery EmojiCategory.t := NewSelect.

Definition getEmoji (cacheGet : M (option Emoji.t))
    (dbQuery : Emoji.t -> M (Emoji.t * option error))
  : M (option Emoji.t * option error) :=
  (* Attempt to fetch cached emoji *)
  cached ← cacheGet;
  match cached with
  | None =>
      let emoji := Emoji.empty in
      (* Not cached! Perform database query *)
      '(emoji, err) ← dbQuery emoji;
      match err with
      | Some err => mret (None, Some (ProcessError err))
      | None =>
          (* Place in the cache *)
          emojiCache_Put emoji;;
          mret (Some emoji, None)
      end
  | Some emoji => mret (Some emoji, None)
  end.

Definition getEmojiCategory (cacheGet : M (option EmojiCategory.t))
    (dbQuery : EmojiCategory.t -> M (EmojiCategory.t * option error))
  : M (option EmojiCategory.t * option error) :=
  cached ← cacheGet;
  match cached with
  | None =>
      let emojiCategory := EmojiCategory.empty in
      '(emojiCategory, err) ← dbQuery emojiCategory;
      match err with
      | Some err => mret (None, Some (ProcessError err))
      | None =>
          categoryCache_Put emojiCategory;;
          mret (Some emojiCategory, None)
      end
  | Some emojiCategory => mret (Some emojiCategory, None)
  end.

Definition GetEmojiByID (id : string) : M (option Emoji.t * option error) :=
  getEmoji
    (emojiCache_GetByID id)
    (fun emoji => Scan_emoji (Where (EQ emoji_id_col id) newEmojiQ) emoji).

Definition GetEmojiByURI (uri : string) : M (option Emoji.t * option error) :=
  getEmoji
    (emojiCache_GetByURI uri)
    (fun emoji => Scan_emoji (Where (EQ emoji_uri uri) newEmojiQ) emoji).

Definition GetEmojiByShortcodeDomain_query (shortcode domain : string)
  : SelectQuery Emoji.t :=
  let q := newEmojiQ in
  if bool_decide (domain <> ""%string) then
    let q := Where (EQ emoji_shortcode shortcode) q in
    Where (EQ emoji_domain domain) q
  else
    let q := Where (EQ emoji_shortcode (strings_ToLower shortcode)) q in
    Where (IS_NULL emoji_domain) q.

Definition GetEmojiByShortcodeDomain (shortcode domain : string)
  : M (option Emoji.t * option error) :=
  getEmoji
    (emojiCache_GetByShortcodeDomain shortcode domain)
    (fun emoji =>
       Scan_emoji (GetEmojiByShortcodeDomain_query shortcode domain) emoji).

Definition GetEmojiByStaticURL (imageStaticURL : string)
  : M (option Emoji.t * option error) :=
  getEmoji
    (emojiCache_GetByImageStaticURL imageStaticURL)
    (fun emoji =>
       Scan_emoji (Where (EQ emoji_image_static_url imageStaticURL) newEmojiQ)
                  emoji).

Definition GetEmojiCategory (id : string)
  : M (option EmojiCategory.t * option error) :=
  getEmojiCategory
    (categoryCache_GetByID id)
    (fun emojiCategory =>
       Scan_category (Where (EQ emoji_category_id id) newEmojiCategoryQ)
                     emojiCategory).

Definition GetEmojiCategoryByName (name : string)
  : M (option EmojiCategory.t * option error) :=
  getEmojiCategory
    (categoryCache_GetByName name)
    (fun emojiCategory =>
       Scan_category
         (Where (EQ (LOWER_col emoji_category_name) (strings_ToLower name))
                newEmojiCategoryQ)
         emojiCategory).

(** The loop of [emojisFromIDs]; [emojis] is the slice built so far.  A
    pointer the lookup returned as nil is [None]. *)
Fixpoint emojisFromIDs_loop (emojiIDs : list string)
    (emojis : list (option Emoji.t)) : M (list (option Emoji.t)) :=
  match emojiIDs with
  | [] => mret emojis
  | id :: rest =>
      '(emoji, err) ← GetEmojiByID id;
      match err with
      | Some err => emit (EvLogError "emojisFromIDs" id err)
      | None => mret tt
      end;;
      emojisFromIDs_loop rest (emojis ++ [emoji])
  end.

Definition emojisFromIDs (emojiIDs : list string)
  : M (list (option Emoji.t) * option error) :=
  (* Catch case of no emojis early *)
  if (length emojiIDs =? 0)%nat then mret ([], Some db_ErrNoEntries)
  else
    emojis ← emojisFromIDs_loop emojiIDs [];
    mret (emojis, None).

Fixpoint emojiCategoriesFromIDs_loop (emojiCategoryIDs : list string)
    (emojiCategories : list (option EmojiCategory.t))
  : M (list (option EmojiCategory.t)) :=
  match emojiCategoryIDs with
  | [] => mret emojiCategories
  | id :: rest =>
      '(emojiCategory, err) ← GetEmojiCategory id;
      match err with
      | Some err => emit (EvLogError "emojiCategoriesFromIDs" id err)
      | None => mret tt
      end;;
      emojiCategoriesFromIDs_loop rest (emojiCategories ++ [emojiCategory])
  end.

Definition emojiCategoriesFromIDs (emojiCategoryIDs : list string)
  : M (list (option EmojiCategory.t) * option error) :=
  if (length emojiCategoryIDs =? 0)%nat then mret ([], Some db_ErrNoEntries)
  else
    emojiCategories ← emojiCategoriesFromIDs_loop emojiCategoryIDs [];
    mret (emojiCategories, None).

(** [UpdateEmoji].  The struct behind the pointer is written before the
    statement runs, so the result carries, first, the caller's struct as it is
    after the call, then the returned pointer and error. *)
Definition UpdateEmoji (emoji : Emoji.t) (columns : list string)
  : M (Emoji.t * option Emoji.t * option error) :=
  (* Update the emoji's last-updated *)
  now ← time_Now;
  let emoji := Emoji.set_UpdatedAt now emoji in
  err ← Exec_update emoji (Emoji.ID emoji) columns;
  match err with
  | Some err => mret (emoji, None, Some (ProcessError err))
  | None =>
      emojiCache_Invalidate (Emoji.ID emoji);;
      mret (emoji, Some emoji, None)
  end.

(** The function [DeleteEmojiByID] hands to [RunInTx]. *)
Definition DeleteEmojiByID_tx (id : string) : M (option error) :=
  (* delete links between this emoji and any statuses that use it *)
  err ← Exec_delete status_to_emojis_table id;
  match err with
  | Some err => mret (Some err)
  | None =>
      (* delete links between this emoji and any accounts that use it *)
      err ← Exec_delete account_to_emojis_table id;
      match err with
      | Some err => mret (Some err)
      | None =>
          err ← Exec_delete emojis_table id;
          match err with
          | Some err => mret (Some (ProcessError err))
          | None => mret None
          end
      end
  end.

Definition DeleteEmojiByID (id : string) : M (option error) :=
  err ← RunInTx (DeleteEmojiByID_tx id);
  match err with
  | Some err => mret (Some err)
  | None =>
      emojiCache_Invalidate id;;
      mret None
  end.

(** SQL's [CONCAT(...)]. *)
Definition CONCAT (parts : list string) : string :=
  fold_right String.append ""%string parts.

(** The [shortcode_domain] column of the listing query, in the syntax of the
    connection's dialect; [None] is the dialect the source panics on. *)
Definition shortcode_domain (d : Dialect) : option (Emoji.t -> string) :=
  match d with
  | SQLite =>
      Some (fun e => LOWER (Emoji.Shortcode e +:+ "@" +:+
                            COALESCE (Emoji.Domain e) ""))
  | PG =>
      Some (fun e => LOWER (CONCAT [Emoji.Shortcode e; "@"%string;
                                    COALESCE (Emoji.Domain e) ""]))
  | OtherDialect => None
  end.

(** The query [GetEmojis] builds (its [subQuery]), with the order it ends up
    with; [key] is the [shortcode_domain] column. *)
Definition GetEmojis_subQuery (key : Emoji.t -> string)
    (domain : string) (includeDisabled includeEnabled : bool)
    (shortcode maxShortcodeDomain minShortcodeDomain : string) (limit : Z)
  : SelectQuery Emoji.t * Order :=
  let subQuery := NewSelect in
  let subQuery :=
    if bool_decide (domain = ""%string) then
      Where (IS_NULL emoji_domain) subQuery
    else if bool_decide (domain <> EmojiAllDomains) then
      Where (EQ emoji_domain domain) subQuery
    else subQuery in
  let subQuery :=
    if includeDisabled && negb includeEnabled then
      (* show only disabled emojis *)
      Where (EQ emoji_disabled true) subQuery
    else if includeEnabled && negb includeDisabled then
      (* show only enabled emojis *)
      Where (EQ emoji_disabled false) subQuery
    else
      (* show emojis regardless of emoji.disabled value *)
      subQuery in
  let subQuery :=
    if bool_decide (shortcode <> ""%string) then
      Where (EQ (LOWER_col emoji_shortcode) (LOWER shortcode)) subQuery
    else subQuery in
  (* assume we want to sort ASC (a-z) unless informed otherwise *)
  let order := ASC in
  let subQuery :=
    if bool_decide (maxShortcodeDomain <> ""%string) then
      Where (GT (fun e => Some (key e)) (LOWER maxShortcodeDomain)) subQuery
    else subQuery in
  let '(subQuery, order) :=
    if bool_decide (minShortcodeDomain <> ""%string) then
      (* if we have a minShortcodeDomain we're paging upwards/backwards *)
      (Where (LT (fun e => Some (key e)) (LOWER minShortcodeDomain)) subQuery,
       DESC)
    else (subQuery, order) in
  let subQuery := OrderBy key order subQuery in
  let subQuery := if limit >? 0 then Limit limit subQuery else subQuery in
  (subQuery, order).

(** [a[i], a[j] = a[j], a[i]]; [None] is the panic of an index out of range. *)
Definition swap (a : list string) (i j : nat) : option (list string) :=
  x ← a !! i; y ← a !! j; Some (<[j := x]> (<[i := y]> a)).

(** The reversal loop of [GetEmojis], entered with [n = len/2]: the
    iterations are for [i = n-1] down to [0]. *)
Fixpoint reverse_loop (n : nat) (emojiIDs : list string)
  : option (list string) :=
  match n with
  | O => Some emojiIDs
  | S i =>
      let opp := (length emojiIDs - 1 - i)%nat in
      emojiIDs' ← swap emojiIDs i opp;
      reverse_loop i emojiIDs'
  end.

Definition reverse_ids (emojiIDs : list string) : M (list string) :=
  match reverse_loop (length emojiIDs / 2)%nat emojiIDs with
  | Some l => mret l
  | None => panic "index out of range"
  end.

Definition GetEmojis (domain : string) (includeDisabled includeEnabled : bool)
    (shortcode maxShortcodeDomain minShortcodeDomain : string) (limit : Z)
  : M (list (option Emoji.t) * option error) :=
  let emojiIDs : list string := [] in
  w ← get_world;
  match shortcode_domain (dialect w) with
  | None => panic "db conn was neither pg not sqlite"
  | Some key =>
      let '(subQuery, order) :=
        GetEmojis_subQuery key domain includeDisabled includeEnabled shortcode
                           maxShortcodeDomain minShortcodeDomain limit in
      '(emojiIDs, err) ←
        Scan_ids emojis_table emojis Emoji.ID subQuery emojiIDs;
      match err with
      | Some err => mret ([], Some (ProcessError err))
      | None =>
          emojiIDs ← match order with
                     | DESC =>
                         (* Reverse the slice order so the caller still
                            gets emojis in expected a-z alphabetical order. *)
                         reverse_ids emojiIDs
                     | ASC => mret emojiIDs
                     end;
          emojisFromIDs emojiIDs
      end
  end.

Definition GetUseableEmojis : M (list (option Emoji.t) * option error) :=
  let emojiIDs : list string := [] in
  let q :=
    OrderBy Emoji.Shortcode ASC
      (Where (IS_NULL emoji_domain)
         (Where (EQ emoji_disabled false)
            (Where (EQ emoji_visible_in_picker true) NewSelect))) in
  '(emojiIDs, err) ← Scan_ids emojis_table emojis Emoji.ID q emojiIDs;
  match err with
  | Some err => mret ([], Some (ProcessError err))
  | None => emojisFromIDs emojiIDs
  end.

Definition GetEmojiCategories
  : M (list (option EmojiCategory.t) * option error) :=
  let emojiCategoryIDs : list string := [] in
  let q := OrderBy EmojiCategory.Name ASC NewSelect in
  '(emojiCategoryIDs, err) ←
    Scan_ids emoji_categories_table emoji_categories EmojiCategory.ID q
             emojiCategoryIDs;
  match err with
  | Some err => mret ([], Some (ProcessError err))
  | None => emojiCategoriesFromIDs emojiCategoryIDs
  end.

End Repository.

(** ** Vocabulary of the properties *)

(** The world right after a cache write. *)
Definition after_emoji_Put (e : Emoji.t) (w : World) : World :=
  set_events (events w ++ [EvEmojiCachePut (Emoji.ID e)])
             (set_emojiCache (<[Emoji.ID e := e]> (emojiCache w)) w).

Definition after_category_Put (c : EmojiCategory.t) (w : World) : World :=
  set_events (events w ++ [EvCategoryCachePut (EmojiCategory.ID c)])
             (set_categoryCache
                (<[EmojiCategory.ID c := c]> (categoryCache w)) w).

Definition after_emoji_Invalidate (id : string) (w : World) : World :=
  set_events (events w ++ [EvEmojiCacheInvalidate id])
             (set_emojiCache (delete id (emojiCache w)) w).

(** The generic combinator, read off its two callbacks: what [read] must do
    in a world [w] when the cache lookup is [cacheGet] and the storage load
    is [dbQuery]. *)
Definition get_or_load {T} (zero : T) (put : T -> World -> World)
    (cacheGet : M (option T)) (dbQuery : T -> M (T * option error))
    (read : M (option T * option error)) : Prop :=
  forall w,
    match cacheGet w with
    | Panic msg => read w = Panic msg
    | Done (Some e) w0 => read w = Done (Some e, None) w0
    | Done None w0 =>
        match dbQuery zero w0 with
        | Panic msg => read w = Panic msg
        | Done (_, Some err) w1 =>
            read w = Done (None, Some (ProcessError err)) w1
        | Done (e, None) w1 => read w = Done (Some e, None) (put e w1)
        end
    end.

(** A public single-entity read, seen from outside: [lookup] is what the
    cache answers, [load] the storage query made on a miss, [cache] the cache
    of the entity kind and [put] the world after its Put. *)
Definition cache_aside_read {T} (cache : World -> gmap string T)
    (key : T -> string) (put : T -> World -> World)
    (lookup : World -> option T) (load : M (T * option error))
    (read : M (option T * option error)) : Prop :=
  forall w,
    match lookup w with
    | Some e => read w = Done (Some e, None) w
    | None =>
        exists dest err w1,
          load w = Done (dest, err) w1 /\
          cache w1 = cache w /\
          match err with
          | Some err => read w = Done (None, Some (ProcessError err)) w1
          | None =>
              read w = Done (Some dest, None) (put dest w1) /\
              cache (put dest w1) = <[key dest := dest]> (cache w)
          end
    end.

(** The world after a statement on table-level event [ev] ran without a
    scheduled failure: the event is recorded and the schedule moves on. *)
Definition after_statement (ev : Event) (w : World) : World :=
  set_faults (tail (faults w)) (set_events (events w ++ [ev]) w).

(** The outcome scheduled for the [n]-th next statement. *)
Definition scheduled (n : nat) (w : World) : option error :=
  match faults w !! n with
  | Some (Some err) => Some err
  | _ => None
  end.

(** The three delete statements of the cascade, in order. *)
Definition cascade (id : string) : list Event :=
  [EvDelete status_to_emojis_table id;
   EvDelete account_to_emojis_table id;
   EvDelete emojis_table id].

(** The tables once the cascade has run. *)
Definition cascade_tables (id : string) (T : Tables) : Tables :=
  delete_rows emojis_table id
    (delete_rows account_to_emojis_table id
       (delete_rows status_to_emojis_table id T)).

(** The cascade stopped at its [k]-th statement (counted from 0) and was
    rolled back: no table and no cache changed, and the statements sent are
    the first [k+1] of the cascade, between the begin and the rollback. *)
Definition rolled_back (id : string) (k : nat) (w w' : World) : Prop :=
  tables w' = tables w /\
  emojiCache w' = emojiCache w /\
  categoryCache w' = categoryCache w /\
  events w' = events w ++ [EvBegin] ++ take (S k) (cascade id) ++ [EvRollback].

(** The cascade ran to its end and was committed, and then the cache entry
    was invalidated. *)
Definition committed (id : string) (w w' : World) : Prop :=
  tables w' = cascade_tables id (tables w) /\
  emojiCache w' = delete id (emojiCache w) /\
  categoryCache w' = categoryCache w /\
  events w' = events w ++ [EvBegin] ++ cascade id ++
              [EvCommit; EvEmojiCacheInvalidate id].

(** ** The dataset of the spec's examples

    Three emoji: [id1] is "cat" and local, [id2] is "dog" and local, [id3] is
    "cat" from remote.example; [id2] is disabled.  Their sort keys are
    "cat@", "dog@" and "cat@remote.example". *)
Module Dataset.
Definition emoji1 : Emoji.t :=
  Emoji.mk "id1" 0 0 "cat" None "/static/1.png" "https://local/emoji/1"
           false true "" None.
Definition emoji2 : Emoji.t :=
  Emoji.mk "id2" 0 0 "dog" None "/static/2.png" "https://local/emoji/2"
           true true "" None.
Definition emoji3 : Emoji.t :=
  Emoji.mk "id3" 0 0 "cat" (Some "remote.example"%string) "/static/3.png"
           "https://remote.example/emoji/3" false true "" None.

Definition rows : Tables :=
  mkTables [emoji1; emoji2; emoji3] []
           [mkJunction "status1" "id1"; mkJunction "status2" "id2"]
           [mkJunction "account1" "id1"].

(** A world over the dataset: caches empty, no event yet, the given dialect
    and fault schedule. *)
Definition world (d : Dialect) (fs : list (option error)) : World :=
  mkWorld d rows fs ∅ ∅ 1000 [].
End Dataset.

(** The IDs of the entries of a hydrated list ([None] for a nil pointer). *)
Definition ids_of (l : list (option Emoji.t)) : list (option string) :=
  List.map (option_map Emoji.ID) l.

(** ** The filters of the listing, in the words of the spec *)

(** The domain filter: the empty string asks for the local emoji (domain
    absent), the reserved value [all] for every emoji, any other string for
    the emoji of exactly that domain. *)
Definition domain_matches (all domain : string) (e : Emoji.t) : bool :=
  if bool_decide (domain = ""%string) then bool_decide (Emoji.Domain e = None)
  else if bool_decide (domain = all) then true
  else bool_decide (Emoji.Domain e = Some domain).

(** The disabled/enabled filter: one flag alone asks for its kind, both or
    neither for every emoji. *)
Definition disabled_matches (includeDisabled includeEnabled : bool)
    (e : Emoji.t) : bool :=
  match includeDisabled, includeEnabled with
  | true, false => bool_decide (Emoji.Disabled e = true)
  | false, true => bool_decide (Emoji.Disabled e = false)
  | _, _ => true
  end.

(** The shortcode filter, case-insensitive; the empty string is no filter. *)
Definition shortcode_matches (shortcode : string) (e : Emoji.t) : bool :=
  if bool_decide (shortcode = ""%string) then true
  else bool_decide (lower (Emoji.Shortcode e) = lower shortcode).

(** The cursors: strictly after the forward cursor, strictly before the
    backward one, both lowercased; the empty string is no cursor. *)
Definition after_cursor (key : Emoji.t -> string) (cursor : string)
    (e : Emoji.t) : bool :=
  if bool_decide (cursor = ""%string) then true
  else String.ltb (lower cursor) (key e).

Definition before_cursor (key : Emoji.t -> string) (cursor : string)
    (e : Emoji.t) : bool :=
  if bool_decide (cursor = ""%string) then true
  else String.ltb (key e) (lower cursor).

(** The derived sort key, [lower(shortcode || '@' || coalesce(domain, ''))]. *)
Definition sort_key (e : Emoji.t) : string :=
  lower (Emoji.Shortcode e +:+ "@" +:+ COALESCE (Emoji.Domain e) "").

(** The rows behind the ID sequence [GetEmojis] hands to the hydration: the
    rows its query selects, reversed when the query ran in descending
    order. *)
Definition GetEmojis_page (all : string) (key : Emoji.t -> string)
    (domain : string) (includeDisabled includeEnabled : bool)
    (shortcode maxShortcodeDomain minShortcodeDomain : string) (limit : Z)
    (rows : list Emoji.t) : list Emoji.t :=
  let '(subQuery, order) :=
    GetEmojis_subQuery all key domain includeDisabled includeEnabled shortcode
                       maxShortcodeDomain minShortcodeDomain limit in
  let fetched := run_select subQuery rows in
  match order with
  | DESC => reverse fetched
  | ASC => fetched
  end.

(** ** Reading a stored column

    The value a row holds in a named column, to state which columns an
    update wrote. *)
Inductive Value : Type :=
| VText (s : string)
| VNullable (s : option string)
| VBool (b : bool)
| VTime (t : Z).

Definition column_value (col : string) (e : Emoji.t) : option Value :=
  if String.eqb col "id" then Some (VText (Emoji.ID e))
  else if String.eqb col "created_at" then Some (VTime (Emoji.CreatedAt e))
  else if String.eqb col "updated_at" then Some (VTime (Emoji.UpdatedAt e))
  else if String.eqb col "shortcode" then Some (VText (Emoji.Shortcode e))
  else if String.eqb col "domain" then Some (VNullable (Emoji.Domain e))
  else if String.eqb col "image_static_url" then
    Some (VText (Emoji.ImageStaticURL e))
  else if String.eqb col "uri" then Some (VText (Emoji.URI e))
  else if String.eqb col "disabled" then Some (VBool (Emoji.Disabled e))
  else if String.eqb col "visible_in_picker" then
    Some (VBool (Emoji.VisibleInPicker e))
  else if String.eqb col "category_id" then
    Some (VText (Emoji.CategoryID e))
  else None.

(** What is assumed of Go's [strings.ToLower] where its value matters: on
    ASCII-only text it maps A-Z to a-z and leaves the rest. *)
Definition lowers_ASCII (toLower : string -> string) : Prop :=
  forall s, is_ascii s = true -> toLower s = lower s.

(** The row test of [GetEmojiByShortcodeDomain]'s storage lookup;
    [toLower] is Go's [strings.ToLower]. *)
Definition shortcode_domain_matches (toLower : string -> string)
    (shortcode domain : string) (e : Emoji.t) : bool :=
  if bool_decide (domain = ""%string) then
    bool_decide (Emoji.Shortcode e = toLower shortcode)
    && bool_decide (Emoji.Domain e = None)
  else
    bool_decide (Emoji.Shortcode e = shortcode)
    && bool_decide (Emoji.Domain e = Some domain).

(** A table with a capitalised shortcode, stored once locally and once for
    a remote domain. *)
Module Capitalised.
Definition local : Emoji.t :=
  Emoji.mk "idA" 0 0 "Cat" None "/static/a.png" "https://local/emoji/a"
           false true "" None.
Definition remote : Emoji.t :=
  Emoji.mk "idB" 0 0 "Cat" (Some "x.example"%string) "/static/b.png"
           "https://x.example/emoji/b" false true "" None.
Definition world : World :=
  mkWorld SQLite (mkTables [local; remote] [] [] []) [] ∅ ∅ 1000 [].
End Capitalised.

(** A table with names outside ASCII: a local emoji and a category stored
    in lowercase, and a category stored in capitals. *)
Module Accented.
Definition emoji : Emoji.t :=
  Emoji.mk "idE" 0 0 "émoji" None "/static/e.png" "https://local/emoji/e"
           false true "" None.
Definition ecole : EmojiCategory.t := EmojiCategory.mk "cE" "école".
Definition ETE : EmojiCategory.t := EmojiCategory.mk "cT" "ÉTÉ".
Definition world : World :=
  mkWorld SQLite (mkTables [emoji] [ecole; ETE] [] []) [] ∅ ∅ 1000 [].
End Accented.

(** Every cached emoji sits under its own ID, as [Put] places it. *)
Definition cache_keyed_by_ID (w : World) : Prop :=
  forall id e, emojiCache w !! id = Some e -> Emoji.ID e = id.
(** ** Inserts ([PutEmoji], [PutEmojiCategory])

    Modelled from the spec: the insert of the storage collaborator and the
    schema of the tables are not part of the source file.  Per the spec
    (sections 6 and 7) an insert returns an error or nothing, a violated
    constraint being a backend failure.  The unique constraints themselves
    are parameters: [emoji_conflict row rows] says that inserting [row] into
    a table that holds [rows] violates one of them.  An insert sends one
    statement (it takes its outcome off the schedule); the relation pointer
    [Category] is not a column and is not stored. *)

Section Inserts.
Variable emoji_conflict : Emoji.t -> list Emoji.t -> bool.
Variable category_conflict : EmojiCategory.t -> list EmojiCategory.t -> bool.

Definition Exec_insert_emoji (model : Emoji.t) : M (option error) :=
  f ← next_fault;
  match f with
  | Some err => mret (Some err)
  | None =>
      w ← get_world;
      let T := tables w in
      if emoji_conflict model (emojis T) then
        mret (Some (backend_failure "constraint failed"))
      else
        modify (set_tables
                  (mkTables (emojis T ++ [Emoji.set_Category None model])
                            (emoji_categories T) (status_to_emojis T)
                            (account_to_emojis T)));;
        mret None
  end.

Definition Exec_insert_category (model : EmojiCategory.t)
  : M (option error) :=
  f ← next_fault;
  match f with
  | Some err => mret (Some err)
  | None =>
      w ← get_world;
      let T := tables w in
      if category_conflict model (emoji_categories T) then
        mret (Some (backend_failure "constraint failed"))
      else
        modify (set_tables
                  (mkTables (emojis T) (emoji_categories T ++ [model])
                            (status_to_emojis T) (account_to_emojis T)));;
        mret None
  end.

Definition PutEmoji (emoji : Emoji.t) : M (option error) :=
  err ← Exec_insert_emoji emoji;
  match err with
  | Some err => mret (Some (ProcessError err))
  | None =>
      emojiCache_Put emoji;;
      mret None
  end.

Definition PutEmojiCategory (emojiCategory : EmojiCategory.t)
  : M (option error) :=
  err ← Exec_insert_category emojiCategory;
  match err with
  | Some err => mret (Some (ProcessError err))
  | None =>
      categoryCache_Put emojiCategory;;
      mret None
  end.
End Inserts.

(** ** Vocabulary of the further properties *)

(** The conjunction of the five filters of the listing. *)
Definition listed (all : string) (key : Emoji.t -> string) (domain : string)
    (includeDisabled includeEnabled : bool)
    (shortcode maxSD minSD : string) (e : Emoji.t) : bool :=
  domain_matches all domain e
  && (disabled_matches includeDisabled includeEnabled e
      && (shortcode_matches shortcode e
          && (after_cursor key maxSD e && before_cursor key minSD e))).

(** The emoji the picker offers: visible in the picker, enabled, local. *)
Definition useable (e : Emoji.t) : bool :=
  bool_decide (Emoji.VisibleInPicker e = true)
  && (bool_decide (Emoji.Disabled e = false)
      && bool_decide (Emoji.Domain e = None)).

(** No stored row of the table has the ID. *)
Definition emoji_not_stored (id : string) (w : World) : Prop :=
  Forall (fun row => Emoji.ID row <> id) (emojis (tables w)).

Definition category_not_stored (id : string) (w : World) : Prop :=
  Forall (fun row => EmojiCategory.ID row <> id) (emoji_categories (tables w)).

(** The first stored row of an ID. *)
Definition stored_emoji (id : string) (w : World) : option Emoji.t :=
  List.find (fun row => bool_decide (Emoji.ID row = id)) (emojis (tables w)).

Definition stored_category (id : string) (w : World)
  : option EmojiCategory.t :=
  List.find (fun row => bool_decide (EmojiCategory.ID row = id))
            (emoji_categories (tables w)).

(** The query of the read by ID. *)
Definition byID_query (id : string) : SelectQuery Emoji.t :=
  Where (EQ emoji_id_col id) newEmojiQ.

(** A world with two categories stored, nothing cached. *)
Module Categories.
Definition animals : EmojiCategory.t := EmojiCategory.mk "c1" "animals".
Definition Food : EmojiCategory.t := EmojiCategory.mk "c2" "Food".
Definition world (fs : list (option error)) : World :=
  mkWorld SQLite (mkTables [] [animals; Food] [] []) fs ∅ ∅ 1000 [].
End Categories.

(** A computation that leaves every table as it found it, whatever it
    returns. *)
Definition keeps_tables {A} (m : M A) : Prop :=
  forall w, match m w with
            | Done _ w' => tables w' = tables w
            | Panic _ => True
            end.

(** The world a computation ends in ([w] itself if it panics). *)
Definition final_world {A} (o : Outcome A) (w : World) : World :=
  match o with
  | Done _ w' => w'
  | Panic _ => w
  end.

(** * Properties *)

(** ** Running the monad *)

Lemma bind_run {A B} (m : M A) (f : A -> M B) (w : World) :
  (m ≫= f) w = match m w with Panic msg => Panic msg | Done a w' => f a w' end.
Proof. reflexivity. Qed.

Lemma ret_run {A} (a : A) (w : World) : (mret a : M A) w = Done a w.
Proof. reflexivity. Qed.

Lemma emit_run (ev : Event) (w : World) :
  emit ev w = Done tt (set_events (events w ++ [ev]) w).
Proof. reflexivity. Qed.

Lemma get_world_run (w : World) : get_world w = Done w w.
Proof. reflexivity. Qed.

Lemma modify_run (f : World -> World) (w : World) : modify f w = Done tt (f w).
Proof. reflexivity. Qed.

Lemma emojiCache_Put_run (e : Emoji.t) (w : World) :
  emojiCache_Put e w = Done tt (after_emoji_Put e w).
Proof. reflexivity. Qed.

Lemma categoryCache_Put_run (c : EmojiCategory.t) (w : World) :
  categoryCache_Put c w = Done tt (after_category_Put c w).
Proof. reflexivity. Qed.

Lemma emojiCache_Invalidate_run (id : string) (w : World) :
  emojiCache_Invalidate id w = Done tt (after_emoji_Invalidate id w).
Proof. reflexivity. Qed.

Create Rewrite HintDb run.
#[local] Hint Rewrite @bind_run @ret_run emit_run get_world_run modify_run
  emojiCache_Put_run categoryCache_Put_run emojiCache_Invalidate_run : run.

(** ** The generic get-or-load combinator *)

Lemma getEmoji_get_or_load cacheGet dbQuery :
  get_or_load Emoji.empty after_emoji_Put cacheGet dbQuery
              (getEmoji cacheGet dbQuery).
Proof.
  intros w. unfold getEmoji. rewrite bind_run.
  destruct (cacheGet w) as [msg|[e|] w0]; try reflexivity.
  rewrite bind_run.
  destruct (dbQuery Emoji.empty w0) as [msg|[dest [err|]] w1]; reflexivity.
Qed.

Lemma getEmojiCategory_get_or_load cacheGet dbQuery :
  get_or_load EmojiCategory.empty after_category_Put cacheGet dbQuery
              (getEmojiCategory cacheGet dbQuery).
Proof.
  intros w. unfold getEmojiCategory. rewrite bind_run.
  destruct (cacheGet w) as [msg|[e|] w0]; try reflexivity.
  rewrite bind_run.
  destruct (dbQuery EmojiCategory.empty w0) as [msg|[dest [err|]] w1];
    reflexivity.
Qed.

(** A storage scan never panics and leaves both caches alone. *)
Lemma Scan_emoji_frame q dest w :
  exists r err w1,
    Scan_emoji q dest w = Done (r, err) w1 /\
    emojiCache w1 = emojiCache w /\ categoryCache w1 = categoryCache w /\
    tables w1 = tables w /\
    events w1 = events w ++ [EvSelect emojis_table].
Proof.
  unfold Scan_emoji, next_fault. autorewrite with run. cbn [faults set_events].
  destruct (faults w) as [|[e|] fs].
  - autorewrite with run.
    destruct (run_select q _); eauto 10.
  - eauto 10.
  - autorewrite with run.
    destruct (run_select q _); eauto 10.
Qed.

Lemma Scan_category_frame q dest w :
  exists r err w1,
    Scan_category q dest w = Done (r, err) w1 /\
    emojiCache w1 = emojiCache w /\ categoryCache w1 = categoryCache w /\
    tables w1 = tables w /\
    events w1 = events w ++ [EvSelect emoji_categories_table].
Proof.
  unfold Scan_category, next_fault. autorewrite with run.
  cbn [faults set_events].
  destruct (faults w) as [|[e|] fs].
  - autorewrite with run.
    destruct (run_select q _); eauto 10.
  - eauto 10.
  - autorewrite with run.
    destruct (run_select q _); eauto 10.
Qed.

Lemma getEmoji_cache_aside lookup q :
  cache_aside_read emojiCache Emoji.ID after_emoji_Put lookup
    (Scan_emoji q Emoji.empty)
    (getEmoji (w ← get_world; mret (lookup w)) (Scan_emoji q)).
Proof.
  intros w.
  pose proof (getEmoji_get_or_load (w ← get_world; mret (lookup w))
                (Scan_emoji q) w) as H.
  autorewrite with run in H.
  destruct (lookup w) as [e|]; [exact H|].
  destruct (Scan_emoji_frame q Emoji.empty w)
    as (r & err & w1 & Hscan & Hc & _).
  rewrite Hscan in H. exists r, err, w1.
  split; [exact Hscan|]. split; [exact Hc|].
  destruct err as [err|]; [exact H|].
  split; [exact H|]. cbn. by rewrite Hc.
Qed.

Lemma getEmojiCategory_cache_aside lookup q :
  cache_aside_read categoryCache EmojiCategory.ID after_category_Put lookup
    (Scan_category q EmojiCategory.empty)
    (getEmojiCategory (w ← get_world; mret (lookup w)) (Scan_category q)).
Proof.
  intros w.
  pose proof (getEmojiCategory_get_or_load (w ← get_world; mret (lookup w))
                (Scan_category q) w) as H.
  autorewrite with run in H.
  destruct (lookup w) as [e|]; [exact H|].
  destruct (Scan_category_frame q EmojiCategory.empty w)
    as (r & err & w1 & Hscan & _ & Hc & _).
  rewrite Hscan in H. exists r, err, w1.
  split; [exact Hscan|]. split; [exact Hc|].
  destruct err as [err|]; [exact H|].
  split; [exact H|]. cbn. by rewrite Hc.
Qed.

(** C3: every single-entity read is a cache-aside read.  The combinators
    [getEmoji] and [getEmojiCategory] return the cached entity when the
    lookup hits, running nothing else; on a miss they run the storage load,
    return its translated error without touching the cache when it fails,
    and Put the loaded entity in the cache before returning it when it
    succeeds.  For the six public reads the lookup is a pure cache read, so
    a hit leaves the whole world as it was (no statement is sent to
    storage, the cache is unchanged), a failed load leaves the cache as it
    was, and a successful load leaves the entity in the cache under its
    ID.  This holds whatever [strings.ToLower] computes. *)
Theorem single_entity_read_is_cache_aside
    (strings_ToLower : string -> string) :
  (forall cacheGet dbQuery,
      get_or_load Emoji.empty after_emoji_Put cacheGet dbQuery
                  (getEmoji cacheGet dbQuery)) /\
  (forall cacheGet dbQuery,
      get_or_load EmojiCategory.empty after_category_Put cacheGet dbQuery
                  (getEmojiCategory cacheGet dbQuery)) /\
  (forall id,
      cache_aside_read emojiCache Emoji.ID after_emoji_Put
        (fun w => emojiCache w !! id)
        (Scan_emoji (Where (EQ emoji_id_col id) newEmojiQ) Emoji.empty)
        (GetEmojiByID id)) /\
  (forall uri,
      cache_aside_read emojiCache Emoji.ID after_emoji_Put
        (fun w => cache_find (fun e => bool_decide (Emoji.URI e = uri))
                             (emojiCache w))
        (Scan_emoji (Where (EQ emoji_uri uri) newEmojiQ) Emoji.empty)
        (GetEmojiByURI uri)) /\
  (forall shortcode domain,
      cache_aside_read emojiCache Emoji.ID after_emoji_Put
        (fun w => cache_find
                    (fun e => bool_decide (Emoji.Shortcode e = shortcode)
                              && bool_decide
                                   (COALESCE (Emoji.Domain e) "" = domain))
                    (emojiCache w))
        (Scan_emoji (GetEmojiByShortcodeDomain_query strings_ToLower shortcode
                                                     domain)
                    Emoji.empty)
        (GetEmojiByShortcodeDomain strings_ToLower shortcode domain)) /\
  (forall url,
      cache_aside_read emojiCache Emoji.ID after_emoji_Put
        (fun w => cache_find
                    (fun e => bool_decide (Emoji.ImageStaticURL e = url))
                    (emojiCache w))
        (Scan_emoji (Where (EQ emoji_image_static_url url) newEmojiQ)
                    Emoji.empty)
        (GetEmojiByStaticURL url)) /\
  (forall id,
      cache_aside_read categoryCache EmojiCategory.ID after_category_Put
        (fun w => categoryCache w !! id)
        (Scan_category (Where (EQ emoji_category_id id) newEmojiCategoryQ)
                       EmojiCategory.empty)
        (GetEmojiCategory id)) /\
  (forall name,
      cache_aside_read categoryCache EmojiCategory.ID after_category_Put
        (fun w => cache_find
                    (fun c => bool_decide (EmojiCategory.Name c = name))
                    (categoryCache w))
        (Scan_category
           (Where (EQ (LOWER_col emoji_category_name) (strings_ToLower name))
                  newEmojiCategoryQ)
           EmojiCategory.empty)
        (GetEmojiCategoryByName strings_ToLower name)).
Proof.
  split; [exact getEmoji_get_or_load|].
  split; [exact getEmojiCategory_get_or_load|].
  repeat split; intros;
    first [ apply getEmoji_cache_aside | apply getEmojiCategory_cache_aside ].
Qed.

(** ** Batch hydration *)

(** A single read by ID never panics. *)
Lemma GetEmojiByID_total id w :
  exists r w', GetEmojiByID id w = Done r w'.
Proof.
  pose proof (getEmoji_cache_aside (fun w => emojiCache w !! id)
                (Where (EQ emoji_id_col id) newEmojiQ) w) as H.
  change (getEmoji _ _) with (GetEmojiByID id) in H. cbv beta in H.
  destruct (emojiCache w !! id); [eauto|].
  destruct H as (dest & [err|] & w1 & _ & _ & H); [eauto|].
  destruct H as [H _]. eauto.
Qed.

(** The hydration loop appends exactly one entry per ID, in order, whatever
    the lookups return. *)
Lemma emojisFromIDs_loop_length ids : forall acc w,
  exists l w',
    emojisFromIDs_loop ids acc w = Done (acc ++ l) w' /\
    length l = length ids.
Proof.
  induction ids as [|id ids IH]; intros acc w.
  - exists [], w. by rewrite app_nil_r.
  - cbn [emojisFromIDs_loop]. rewrite bind_run.
    destruct (GetEmojiByID_total id w) as ([emoji err] & w1 & ->).
    rewrite bind_run.
    assert (exists w2, match err with
                       | Some err => emit (EvLogError "emojisFromIDs" id err)
                       | None => mret tt
                       end w1 = Done tt w2) as [w2 ->].
    { destruct err; eauto. }
    destruct (IH (acc ++ [emoji]) w2) as (l & w' & -> & Hlen).
    exists (emoji :: l), w'. rewrite <- app_assoc. cbn. by rewrite Hlen.
Qed.

(** A single category read by ID never panics. *)
Lemma GetEmojiCategory_total id w :
  exists r w', GetEmojiCategory id w = Done r w'.
Proof.
  pose proof (getEmojiCategory_cache_aside (fun w => categoryCache w !! id)
                (Where (EQ emoji_category_id id) newEmojiCategoryQ) w) as H.
  change (getEmojiCategory _ _) with (GetEmojiCategory id) in H.
  cbv beta in H.
  destruct (categoryCache w !! id); [eauto|].
  destruct H as (dest & [err|] & w1 & _ & _ & H); [eauto|].
  destruct H as [H _]. eauto.
Qed.

Lemma emojiCategoriesFromIDs_loop_length ids : forall acc w,
  exists l w',
    emojiCategoriesFromIDs_loop ids acc w = Done (acc ++ l) w' /\
    length l = length ids.
Proof.
  induction ids as [|id ids IH]; intros acc w.
  - exists [], w. by rewrite app_nil_r.
  - cbn [emojiCategoriesFromIDs_loop]. rewrite bind_run.
    destruct (GetEmojiCategory_total id w) as ([c err] & w1 & ->).
    rewrite bind_run.
    assert (exists w2,
               match err with
               | Some err => emit (EvLogError "emojiCategoriesFromIDs" id err)
               | None => mret tt
               end w1 = Done tt w2) as [w2 ->].
    { destruct err; eauto. }
    destruct (IH (acc ++ [c]) w2) as (l & w' & -> & Hlen).
    exists (c :: l), w'. rewrite <- app_assoc. cbn. by rewrite Hlen.
Qed.

(** C8: hydrating an empty ID list is the no-entries outcome: the error is
    [db.ErrNoEntries], which is not the not-found error of a single-entity
    read, the list is nil, and nothing is looked up (the world is as it
    was); a non-empty list always ends without error, so never in that
    outcome.  This holds for emoji and for emoji categories. *)
Theorem empty_batch_is_NoEntries :
  (forall w, emojisFromIDs [] w = Done ([], Some db_ErrNoEntries) w) /\
  (forall w,
      emojiCategoriesFromIDs [] w = Done ([], Some db_ErrNoEntries) w) /\
  db_ErrNoEntries <> db_ErrNotFound /\
  db_ErrNoEntries <> ProcessError sql_ErrNoRows /\
  (forall id ids w,
      exists l w', emojisFromIDs (id :: ids) w = Done (l, None) w') /\
  (forall id ids w,
      exists l w', emojiCategoriesFromIDs (id :: ids) w = Done (l, None) w').
Proof.
  split; [reflexivity|]. split; [reflexivity|].
  split; [discriminate|]. split; [discriminate|].
  split; intros id ids w.
  - unfold emojisFromIDs. cbn [length Nat.eqb]. rewrite bind_run.
    destruct (emojisFromIDs_loop_length (id :: ids) [] w)
      as (l & w' & -> & _).
    by exists l, w'.
  - unfold emojiCategoriesFromIDs. cbn [length Nat.eqb]. rewrite bind_run.
    destruct (emojiCategoriesFromIDs_loop_length (id :: ids) [] w)
      as (l & w' & -> & _).
    by exists l, w'.
Qed.

(** C1 (the code departs from it): the hydration keeps one slot per input
    ID.  For a non-empty ID list the call succeeds with a list as long as
    the input, and an ID whose read failed fills its slot with the nil
    pointer the read returned, after the failure is logged.  On the dataset,
    with the read of "id1" failing, the result is [nil; id3; id2]: the failed
    ID is not skipped. *)
Theorem emojisFromIDs_keeps_failed_slot :
  (forall id ids w,
      exists l w',
        emojisFromIDs (id :: ids) w = Done (l, None) w' /\
        length l = length (id :: ids)) /\
  (let w := Dataset.world SQLite [Some (backend_failure "connection reset")] in
   exists w',
     emojisFromIDs ["id1"; "id3"; "id2"]%string w
     = Done ([None; Some Dataset.emoji3; Some Dataset.emoji2], None) w' /\
     events w' = [EvSelect emojis_table;
                  EvLogError "emojisFromIDs" "id1"
                             (db_ErrBackend "connection reset");
                  EvSelect emojis_table; EvEmojiCachePut "id3";
                  EvSelect emojis_table; EvEmojiCachePut "id2"]).
Proof.
  split.
  - intros id ids w. unfold emojisFromIDs. cbn [length Nat.eqb].
    rewrite bind_run.
    destruct (emojisFromIDs_loop_length (id :: ids) [] w)
      as (l & w' & -> & Hlen).
    exists l, w'. by rewrite ret_run.
  - eexists. split; [vm_compute; reflexivity|]. vm_compute. reflexivity.
Qed.

(** ** Cascading delete *)

Lemma scheduled_after_statement n ev w :
  scheduled n (after_statement ev w) = scheduled (S n) w.
Proof.
  unfold scheduled, after_statement. cbn [faults set_faults set_events].
  by destruct (faults w).
Qed.

Lemma scheduled_set_tables n T w :
  scheduled n (set_tables T w) = scheduled n w.
Proof. reflexivity. Qed.

Lemma scheduled_set_events n evs w :
  scheduled n (set_events evs w) = scheduled n w.
Proof. reflexivity. Qed.

Ltac sched :=
  repeat first [ rewrite scheduled_set_tables
               | rewrite scheduled_set_events
               | rewrite scheduled_after_statement ].

Lemma Exec_delete_run t id w :
  Exec_delete t id w =
  match scheduled 0 w with
  | Some err => Done (Some err) (after_statement (EvDelete t id) w)
  | None =>
      Done None
           (set_tables (delete_rows t id (tables w))
                       (after_statement (EvDelete t id) w))
  end.
Proof.
  unfold Exec_delete, next_fault, scheduled, after_statement.
  autorewrite with run. destruct w as [d T fs ec cc ck evs].
  by destruct fs as [|[err|] fs].
Qed.

(** C2: [DeleteEmojiByID] is an atomic cascade.  The three deletes are sent
    inside one transaction in the order status junction, account junction,
    emoji row.  When the first scheduled failure hits one of them, no later
    statement is sent, the transaction is rolled back (every table is as it
    was), the error is returned and the cache is as it was; when none fails
    the transaction commits with the rows of the ID gone from the three
    tables, and only then is the cache entry invalidated. *)
Theorem DeleteEmojiByID_atomic (id : string) (w : World) :
  exists r w',
    DeleteEmojiByID id w = Done r w' /\
    match scheduled 0 w, scheduled 1 w, scheduled 2 w with
    | Some err, _, _ => r = Some err /\ rolled_back id 0 w w'
    | None, Some err, _ => r = Some err /\ rolled_back id 1 w w'
    | None, None, Some err =>
        r = Some (ProcessError err) /\ rolled_back id 2 w w'
    | None, None, None => r = None /\ committed id w w'
    end.
Proof.
  unfold DeleteEmojiByID, RunInTx, DeleteEmojiByID_tx.
  autorewrite with run. rewrite Exec_delete_run.
  sched.
  destruct (scheduled 0 w) as [e0|].
  { autorewrite with run. eexists _, _. split; [reflexivity|].
    split; [reflexivity|]. unfold rolled_back. cbn.
    by rewrite <- !app_assoc. }
  autorewrite with run. rewrite Exec_delete_run.
  sched.
  destruct (scheduled 1 w) as [e1|].
  { autorewrite with run. eexists _, _. split; [reflexivity|].
    split; [reflexivity|]. unfold rolled_back. cbn.
    by rewrite <- !app_assoc. }
  autorewrite with run. rewrite Exec_delete_run.
  sched.
  destruct (scheduled 2 w) as [e2|].
  { autorewrite with run. eexists _, _. split; [reflexivity|].
    split; [reflexivity|]. unfold rolled_back. cbn.
    by rewrite <- !app_assoc. }
  autorewrite with run. eexists _, _. split; [reflexivity|].
  split; [reflexivity|]. unfold committed. cbn.
  by rewrite <- !app_assoc.
Qed.

(** ** Select queries *)

Section Select.
Context {R : Type}.
Implicit Types (q : SelectQuery R) (p : Pred R) (rows : list R).

Lemma where_ok_NewSelect (r : R) : where_ok NewSelect r = true.
Proof. reflexivity. Qed.

Lemma where_ok_Where p q r : where_ok (Where p q) r = where_ok q r && holds p r.
Proof.
  unfold where_ok, Where. cbn [q_where]. rewrite forallb_app. cbn.
  by rewrite andb_true_r.
Qed.

Lemma where_ok_OrderBy key o q r : where_ok (OrderBy key o q) r = where_ok q r.
Proof. reflexivity. Qed.

Lemma where_ok_Limit n q r : where_ok (Limit n q) r = where_ok q r.
Proof. reflexivity. Qed.

Lemma where_ok_Relation name q r : where_ok (Relation name q) r = where_ok q r.
Proof. reflexivity. Qed.

Lemma filter_filter_andb (f g : R -> bool) rows :
  List.filter f (List.filter g rows) = List.filter (fun r => g r && f r) rows.
Proof.
  induction rows as [|r rows IH]; [done|]. cbn.
  destruct (g r); cbn; [destruct (f r)|]; by rewrite IH.
Qed.

#[local] Instance key_le_total (key : R -> string) : Total (key_le key).
Proof. intros a b. unfold key_le. apply (total String.le). Qed.

#[local] Instance key_ge_total (key : R -> string) : Total (key_ge key).
Proof. intros a b. unfold key_ge. apply (total String.le). Qed.

Lemma Sorted_take (rel : relation R) n rows :
  Sorted rel rows -> Sorted rel (take n rows).
Proof.
  intros H. revert n. induction H as [|r rows Hs IH Hd]; intros [|n]; cbn;
    try constructor; [apply IH|].
  destruct Hd as [|r' rows' Hr]; destruct n; cbn; by constructor.
Qed.

(** Every selected row satisfies every WHERE clause and is a row of the
    table. *)
Lemma run_select_Forall q rows :
  Forall (fun r => where_ok q r = true /\ In r rows) (run_select q rows).
Proof.
  unfold run_select, limit_rows, order_rows.
  assert (Hf : Forall (fun r => where_ok q r = true /\ In r rows)
                      (List.filter (where_ok q) rows)).
  { apply Forall_forall. intros r Hr. apply list_elem_of_In, filter_In in Hr.
    tauto. }
  assert (Ho : Forall (fun r => where_ok q r = true /\ In r rows)
                  match q_order q with
                  | Some (key, ASC) =>
                      merge_sort (key_le key) (List.filter (where_ok q) rows)
                  | Some (key, DESC) =>
                      merge_sort (key_ge key) (List.filter (where_ok q) rows)
                  | None => List.filter (where_ok q) rows
                  end).
  { destruct (q_order q) as [[key []]|]; [| |done];
      by rewrite merge_sort_Permutation. }
  destruct (q_limit q); [by apply Forall_take|done].
Qed.

(** A query ordered ascending (descending) returns its rows sorted so. *)
Lemma run_select_Sorted_ASC q key rows :
  q_order q = Some (key, ASC) -> Sorted (key_le key) (run_select q rows).
Proof.
  intros Ho. unfold run_select, limit_rows, order_rows. rewrite Ho.
  destruct (q_limit q); [apply Sorted_take|]; apply Sorted_merge_sort, _.
Qed.

Lemma run_select_Sorted_DESC q key rows :
  q_order q = Some (key, DESC) -> Sorted (key_ge key) (run_select q rows).
Proof.
  intros Ho. unfold run_select, limit_rows, order_rows. rewrite Ho.
  destruct (q_limit q); [apply Sorted_take|]; apply Sorted_merge_sort, _.
Qed.

(** Two queries with the same ORDER BY and LIMIT, one of which has the WHERE
    clauses of the other and a condition [f] besides, select the same rows
    once the table is restricted by [f]. *)
Lemma run_select_restrict q q' (f : R -> bool) rows :
  q_order q = q_order q' -> q_limit q = q_limit q' ->
  (forall r, where_ok q r = f r && where_ok q' r) ->
  run_select q rows = run_select q' (List.filter f rows).
Proof.
  intros Ho Hl Hw. unfold run_select, limit_rows, order_rows.
  rewrite Ho, Hl, filter_filter_andb.
  by rewrite (List.filter_ext _ _ Hw).
Qed.
End Select.

Lemma run_select_plain {R} (q : SelectQuery R) rows :
  q_order q = None -> q_limit q = None ->
  run_select q rows = List.filter (where_ok q) rows.
Proof. intros Ho Hl. unfold run_select, limit_rows, order_rows. by rewrite Ho, Hl. Qed.

Lemma filter_head_find {R} (f : R -> bool) rows :
  match List.filter f rows with [] => None | r :: _ => Some r end
  = List.find f rows.
Proof.
  induction rows as [|r rows IH]; [done|]. cbn. by destruct (f r).
Qed.

(** ** The reversal loop *)

Lemma swap_ends (p mid s : list string) (x y : string) :
  swap ((p ++ [x]) ++ mid ++ y :: s) (length p) (length p + 1 + length mid)
  = Some (p ++ ([y] ++ mid ++ [x]) ++ s).
Proof.
  unfold swap.
  rewrite <- (app_assoc p [x]). cbn [app].
  rewrite (list_lookup_middle p _ x (length p) eq_refl). cbn [mbind option_bind].
  assert (Hopp : (p ++ x :: mid ++ y :: s) !! (length p + 1 + length mid)%nat
                 = Some y).
  { replace (p ++ x :: mid ++ y :: s) with ((p ++ x :: mid) ++ y :: s)
      by (by rewrite <- app_assoc).
    apply list_lookup_middle. rewrite length_app. cbn. lia. }
  rewrite Hopp. cbn [mbind option_bind]. f_equal.
  replace (length p) with (length p + 0)%nat at 2 by lia.
  rewrite insert_app_r. cbn [list_insert insert].
  replace (p ++ y :: mid ++ y :: s) with ((p ++ y :: mid) ++ y :: s)
    by (by rewrite <- app_assoc).
  replace (length p + 1 + length mid)%nat
    with (length (p ++ y :: mid) + 0)%nat by (rewrite length_app; cbn; lia).
  rewrite insert_app_r. cbn. by rewrite <- !app_assoc.
Qed.

Lemma reverse_loop_ends (k : nat) : forall (p mid s : list string),
  length p = k -> length s = k ->
  reverse_loop k (p ++ mid ++ s) = Some (reverse s ++ mid ++ reverse p).
Proof.
  induction k as [|i IH]; intros p mid s Hp Hs.
  - destruct p, s; try discriminate. cbn. by rewrite app_nil_r.
  - destruct (decide (p = [])) as [->|Hne]; [discriminate|].
    destruct (exists_last Hne) as (p' & x & ->).
    destruct s as [|y s']; [discriminate|].
    rewrite length_app in Hp. cbn in Hp, Hs.
    assert (Hp' : length p' = i) by lia.
    assert (Hs' : length s' = i) by lia.
    cbn [reverse_loop].
    replace (length ((p' ++ [x]) ++ mid ++ y :: s') - 1 - i)%nat
      with (length p' + 1 + length mid)%nat
      by (repeat (rewrite length_app || cbn [length]); lia).
    rewrite <- Hp' at 1. rewrite swap_ends. cbn [mbind option_bind].
    rewrite (IH p' _ s' Hp' Hs'). f_equal.
    rewrite reverse_cons, reverse_snoc, <- !app_assoc. reflexivity.
Qed.

(** The loop reverses the slice and never indexes out of range. *)
Lemma reverse_loop_reverse (l : list string) :
  reverse_loop (length l / 2) l = Some (reverse l).
Proof.
  set (k := (length l / 2)%nat).
  assert (Hk : (2 * k <= length l)%nat)
    by (subst k; apply Nat.Div0.mul_div_le).
  assert (Hk' : (length l < 2 * k + 2)%nat).
  { subst k. pose proof (Nat.div_mod_eq (length l) 2).
    pose proof (Nat.mod_upper_bound (length l) 2). lia. }
  set (p := take k l).
  set (mid := take (length l - 2 * k) (drop k l)).
  set (s := drop (length l - 2 * k) (drop k l)).
  assert (Hl : l = p ++ mid ++ s) by (subst p mid s; by rewrite !take_drop).
  assert (Hp : length p = k) by (subst p; rewrite length_take; lia).
  assert (Hs : length s = k)
    by (subst s; rewrite !length_drop; lia).
  assert (Hm : reverse mid = mid).
  { assert (Hlen : (length mid <= 1)%nat)
      by (subst mid; rewrite length_take, length_drop; lia).
    destruct mid as [|m [|m' mid']]; [done|done|cbn in Hlen; lia]. }
  clearbody p mid s k. subst l.
  rewrite !reverse_app, Hm, <- app_assoc. by apply reverse_loop_ends.
Qed.

(** ** Statements sent to storage *)

Lemma Scan_ids_run {R} t (rows : Tables -> list R) id q dest w :
  Scan_ids t rows id q dest w =
  match scheduled 0 w with
  | Some err => Done (dest, Some err) (after_statement (EvSelect t) w)
  | None =>
      Done (id <$> run_select q (rows (tables w)), None)
           (after_statement (EvSelect t) w)
  end.
Proof.
  unfold Scan_ids, next_fault, scheduled, after_statement.
  autorewrite with run. destruct w as [d T fs ec cc ck evs].
  by destruct fs as [|[err|] fs].
Qed.

Lemma Scan_emoji_run q dest w :
  Scan_emoji q dest w =
  match scheduled 0 w with
  | Some err => Done (dest, Some err) (after_statement (EvSelect emojis_table) w)
  | None =>
      match run_select q (emojis (tables w)) with
      | [] =>
          Done (dest, Some sql_ErrNoRows)
               (after_statement (EvSelect emojis_table) w)
      | row :: _ =>
          Done (load_relations q (tables w) row, None)
               (after_statement (EvSelect emojis_table) w)
      end
  end.
Proof.
  unfold Scan_emoji, next_fault, scheduled, after_statement.
  autorewrite with run. destruct w as [d T fs ec cc ck evs].
  destruct fs as [|[err|] fs]; cbn; try reflexivity;
    autorewrite with run; cbn; by destruct (run_select q (emojis T)).
Qed.

(** ** The query of the listing *)

Lemma holds_IS_NULL_domain e :
  holds (IS_NULL emoji_domain) e = bool_decide (Emoji.Domain e = None).
Proof. unfold holds, IS_NULL, emoji_domain. by destruct (Emoji.Domain e). Qed.

Lemma holds_EQ_domain d e :
  holds (EQ emoji_domain d) e = bool_decide (Emoji.Domain e = Some d).
Proof.
  unfold holds, EQ, emoji_domain. destruct (Emoji.Domain e) as [x|]; cbn.
  - destruct (bool_decide_reflect (x = d)) as [->|Hne].
    + by rewrite bool_decide_true.
    + rewrite bool_decide_false; [done|congruence].
  - by rewrite bool_decide_false.
Qed.

Lemma holds_EQ_disabled b e :
  holds (EQ emoji_disabled b) e = bool_decide (Emoji.Disabled e = b).
Proof. unfold holds, EQ, emoji_disabled. cbn. by case_bool_decide. Qed.

Lemma holds_EQ_shortcode v e :
  holds (EQ emoji_shortcode v) e = bool_decide (Emoji.Shortcode e = v).
Proof. unfold holds, EQ, emoji_shortcode. cbn. by case_bool_decide. Qed.

Lemma holds_EQ_lower_shortcode v e :
  holds (EQ (LOWER_col emoji_shortcode) v) e
  = bool_decide (lower (Emoji.Shortcode e) = v).
Proof.
  unfold holds, EQ, LOWER_col, emoji_shortcode, LOWER. cbn.
  by case_bool_decide.
Qed.

Lemma holds_GT (key : Emoji.t -> string) v e :
  holds (GT (fun e => Some (key e)) v) e = String.ltb v (key e).
Proof. unfold holds, GT. cbn. by destruct (String.ltb v (key e)). Qed.

Lemma holds_LT (key : Emoji.t -> string) v e :
  holds (LT (fun e => Some (key e)) v) e = String.ltb (key e) v.
Proof. unfold holds, LT. cbn. by destruct (String.ltb (key e) v). Qed.

Section Listing.
Variable all : string.
Variable key : Emoji.t -> string.
Implicit Types (domain shortcode maxSD minSD : string) (limit : Z).
Implicit Types (includeDisabled includeEnabled : bool).

(** What each step of the construction adds to the WHERE clauses. *)
Lemma where_ok_domain_step domain (q : SelectQuery Emoji.t) e :
  where_ok (if bool_decide (domain = ""%string)
            then Where (IS_NULL emoji_domain) q
            else if bool_decide (domain <> all)
                 then Where (EQ emoji_domain domain) q
                 else q) e
  = where_ok q e && domain_matches all domain e.
Proof.
  unfold domain_matches.
  destruct (bool_decide_reflect (domain = ""%string));
    [by rewrite where_ok_Where, holds_IS_NULL_domain|].
  destruct (bool_decide_reflect (domain <> all)).
  - rewrite where_ok_Where, holds_EQ_domain.
    by rewrite (bool_decide_false (domain = all)).
  - rewrite (bool_decide_true (domain = all)), andb_true_r;
      [done|by destruct (decide (domain = all))].
Qed.

Lemma where_ok_disabled_step includeDisabled includeEnabled
    (q : SelectQuery Emoji.t) e :
  where_ok (if includeDisabled && negb includeEnabled
            then Where (EQ emoji_disabled true) q
            else if includeEnabled && negb includeDisabled
                 then Where (EQ emoji_disabled false) q
                 else q) e
  = where_ok q e && disabled_matches includeDisabled includeEnabled e.
Proof.
  destruct includeDisabled, includeEnabled; cbn [andb negb disabled_matches];
    rewrite ?where_ok_Where, ?holds_EQ_disabled, ?andb_true_r; reflexivity.
Qed.

Lemma where_ok_shortcode_step shortcode (q : SelectQuery Emoji.t) e :
  where_ok (if bool_decide (shortcode <> ""%string)
            then Where (EQ (LOWER_col emoji_shortcode) (LOWER shortcode)) q
            else q) e
  = where_ok q e && shortcode_matches shortcode e.
Proof.
  unfold shortcode_matches, LOWER.
  destruct (bool_decide_reflect (shortcode <> ""%string)).
  - rewrite where_ok_Where, holds_EQ_lower_shortcode.
    by rewrite (bool_decide_false (shortcode = ""%string)).
  - rewrite (bool_decide_true (shortcode = ""%string)), andb_true_r;
      [done|by destruct (decide (shortcode = ""%string))].
Qed.

Lemma where_ok_max_step maxSD (q : SelectQuery Emoji.t) e :
  where_ok (if bool_decide (maxSD <> ""%string)
            then Where (GT (fun e => Some (key e)) (LOWER maxSD)) q
            else q) e
  = where_ok q e && after_cursor key maxSD e.
Proof.
  unfold after_cursor, LOWER.
  destruct (bool_decide_reflect (maxSD <> ""%string)).
  - rewrite where_ok_Where, holds_GT.
    by rewrite (bool_decide_false (maxSD = ""%string)).
  - rewrite (bool_decide_true (maxSD = ""%string)), andb_true_r;
      [done|by destruct (decide (maxSD = ""%string))].
Qed.

Lemma where_ok_limit_step limit (q : SelectQuery Emoji.t) e :
  where_ok (if limit >? 0 then Limit limit q else q) e = where_ok q e.
Proof. by destruct (limit >? 0). Qed.

Ltac case_min minSD :=
  destruct (bool_decide_reflect (minSD <> ""%string)) as [Hmin|Hmin];
  [rewrite ?(bool_decide_false (minSD = ""%string)) by done
  |rewrite ?(bool_decide_true (minSD = ""%string))
     by (by destruct (decide (minSD = ""%string))) ].

(** The WHERE clauses of the query are the five filters. *)
Lemma subQuery_where_ok domain includeDisabled includeEnabled shortcode
    maxSD minSD limit e :
  where_ok (GetEmojis_subQuery all key domain includeDisabled includeEnabled
                               shortcode maxSD minSD limit).1 e
  = domain_matches all domain e
    && (disabled_matches includeDisabled includeEnabled e
        && (shortcode_matches shortcode e
            && (after_cursor key maxSD e && before_cursor key minSD e))).
Proof.
  unfold GetEmojis_subQuery, before_cursor. cbv zeta.
  case_min minSD; cbn [fst];
    rewrite where_ok_limit_step, where_ok_OrderBy, ?where_ok_Where,
      where_ok_max_step, where_ok_shortcode_step, where_ok_disabled_step,
      where_ok_domain_step, where_ok_NewSelect, ?holds_LT;
    cbn [andb]; unfold LOWER; rewrite ?andb_true_r, <- ?andb_assoc;
    reflexivity.
Qed.

Lemma subQuery_order domain includeDisabled includeEnabled shortcode
    maxSD minSD limit :
  let r := GetEmojis_subQuery all key domain includeDisabled includeEnabled
                              shortcode maxSD minSD limit in
  r.2 = (if bool_decide (minSD = ""%string) then ASC else DESC) /\
  q_order r.1 = Some (key, r.2).
Proof.
  unfold GetEmojis_subQuery. cbv zeta.
  case_min minSD; destruct (limit >? 0); by split.
Qed.

Lemma subQuery_limit domain includeDisabled includeEnabled shortcode
    maxSD minSD limit :
  q_limit (GetEmojis_subQuery all key domain includeDisabled includeEnabled
                              shortcode maxSD minSD limit).1
  = (if limit >? 0 then Some (Z.to_nat limit) else None).
Proof.
  unfold GetEmojis_subQuery. cbv zeta.
  destruct (bool_decide (minSD <> ""%string)), (limit >? 0),
    (bool_decide (domain = ""%string)), (bool_decide (domain <> all)),
    includeDisabled, includeEnabled, (bool_decide (shortcode <> ""%string)),
    (bool_decide (maxSD <> ""%string)); reflexivity.
Qed.
End Listing.

Lemma append_empty_r (s : string) : s +:+ "" = s.
Proof.
  induction s as [|c s IH]; [done|].
  change (String c (s +:+ "") = String c s). by rewrite IH.
Qed.

(** Both dialects compute the same sort key. *)
Lemma shortcode_domain_sort_key d key :
  shortcode_domain d = Some key -> forall e, key e = sort_key e.
Proof.
  destruct d; intros [= <-] e; unfold sort_key, LOWER, CONCAT; [done|].
  cbn [fold_right]. by rewrite append_empty_r.
Qed.

Section Paging.
Variable all : string.
Variable key : Emoji.t -> string.
Implicit Types (domain shortcode maxSD minSD : string) (limit : Z).
Implicit Types (includeDisabled includeEnabled : bool).

(** [GetEmojis], when its listing statement is not scheduled to fail, hands
    the IDs of its page to the hydration, in the page's order. *)
Lemma GetEmojis_run domain includeDisabled includeEnabled shortcode
    maxSD minSD limit w :
  shortcode_domain (dialect w) = Some key ->
  scheduled 0 w = None ->
  GetEmojis all domain includeDisabled includeEnabled shortcode maxSD minSD
            limit w
  = emojisFromIDs
      (Emoji.ID <$> GetEmojis_page all key domain includeDisabled
                      includeEnabled shortcode maxSD minSD limit
                      (emojis (tables w)))
      (after_statement (EvSelect emojis_table) w).
Proof.
  intros Hkey Hok. unfold GetEmojis, GetEmojis_page.
  rewrite bind_run, get_world_run, Hkey.
  destruct (GetEmojis_subQuery _ _ _ _ _ _ _ _ _) as [q o].
  rewrite bind_run, Scan_ids_run, Hok.
  destruct o.
  - by rewrite bind_run, ret_run.
  - rewrite bind_run. unfold reverse_ids.
    by rewrite reverse_loop_reverse, ret_run, fmap_reverse.
Qed.

(** The page is ascending by sort key, whichever way the query ran. *)
Lemma GetEmojis_page_ascending domain includeDisabled includeEnabled
    shortcode maxSD minSD limit rows :
  Sorted (key_le key)
    (GetEmojis_page all key domain includeDisabled includeEnabled shortcode
                    maxSD minSD limit rows).
Proof.
  unfold GetEmojis_page.
  destruct (subQuery_order all key domain includeDisabled includeEnabled
              shortcode maxSD minSD limit) as [_ Ho].
  destruct (GetEmojis_subQuery _ _ _ _ _ _ _ _ _) as [q o].
  cbn [fst snd] in Ho. destruct o.
  - by apply run_select_Sorted_ASC.
  - apply (Sorted_reverse (key_ge key)). by apply run_select_Sorted_DESC.
Qed.

(** Every row of the page passes the five filters. *)
Lemma GetEmojis_page_filtered domain includeDisabled includeEnabled
    shortcode maxSD minSD limit rows :
  Forall (fun e =>
            domain_matches all domain e = true /\
            disabled_matches includeDisabled includeEnabled e = true /\
            shortcode_matches shortcode e = true /\
            after_cursor key maxSD e = true /\
            before_cursor key minSD e = true /\
            In e rows)
    (GetEmojis_page all key domain includeDisabled includeEnabled shortcode
                    maxSD minSD limit rows).
Proof.
  unfold GetEmojis_page.
  pose proof (subQuery_where_ok all key domain includeDisabled includeEnabled
                shortcode maxSD minSD limit) as Hw.
  destruct (GetEmojis_subQuery _ _ _ _ _ _ _ _ _) as [q o].
  cbn [fst] in Hw.
  assert (H : Forall (fun e =>
            domain_matches all domain e = true /\
            disabled_matches includeDisabled includeEnabled e = true /\
            shortcode_matches shortcode e = true /\
            after_cursor key maxSD e = true /\
            before_cursor key minSD e = true /\
            In e rows) (run_select q rows)).
  { eapply Forall_impl; [apply run_select_Forall|].
    intros e [He Hin]. cbv beta in He. rewrite Hw in He.
    repeat (apply andb_true_iff in He as [? He]). tauto. }
  destruct o; [done|by apply Forall_reverse].
Qed.

(** Queries that differ in one filter only: the page of the query with the
    filter is the page of the query without it over the table restricted
    by the filter. *)
Lemma GetEmojis_page_restrict (f : Emoji.t -> bool)
    domain includeDisabled includeEnabled shortcode
    domain' includeDisabled' includeEnabled' shortcode'
    maxSD minSD limit rows :
  (forall e,
      domain_matches all domain e
      && (disabled_matches includeDisabled includeEnabled e
          && shortcode_matches shortcode e)
      = f e && (domain_matches all domain' e
                && (disabled_matches includeDisabled' includeEnabled' e
                    && shortcode_matches shortcode' e))) ->
  GetEmojis_page all key domain includeDisabled includeEnabled shortcode
                 maxSD minSD limit rows
  = GetEmojis_page all key domain' includeDisabled' includeEnabled' shortcode'
                   maxSD minSD limit (List.filter f rows).
Proof.
  intros Hf. unfold GetEmojis_page.
  pose proof (subQuery_where_ok all key domain includeDisabled includeEnabled
                shortcode maxSD minSD limit) as Hw.
  pose proof (subQuery_where_ok all key domain' includeDisabled'
                includeEnabled' shortcode' maxSD minSD limit) as Hw'.
  pose proof (subQuery_order all key domain includeDisabled includeEnabled
                shortcode maxSD minSD limit) as [Ho1 Ho2].
  pose proof (subQuery_order all key domain' includeDisabled' includeEnabled'
                shortcode' maxSD minSD limit) as [Ho1' Ho2'].
  pose proof (subQuery_limit all key domain includeDisabled includeEnabled
                shortcode maxSD minSD limit) as Hl.
  pose proof (subQuery_limit all key domain' includeDisabled' includeEnabled'
                shortcode' maxSD minSD limit) as Hl'.
  destruct (GetEmojis_subQuery all key domain _ _ _ _ _ _) as [q o].
  destruct (GetEmojis_subQuery all key domain' _ _ _ _ _ _) as [q' o'].
  cbn [fst snd] in *.
  assert (o = o') as <- by congruence.
  rewrite (run_select_restrict q q' f); [done|congruence|congruence|].
  intros e. rewrite Hw, Hw'.
  set (d := after_cursor key maxSD e && before_cursor key minSD e).
  transitivity
    ((domain_matches all domain e
      && (disabled_matches includeDisabled includeEnabled e
          && shortcode_matches shortcode e)) && d);
    [by rewrite <- !andb_assoc|].
  rewrite Hf. by rewrite <- !andb_assoc.
Qed.
End Paging.

(** ** Hydrating the IDs of stored rows *)

Lemma holds_EQ_id id e :
  holds (EQ emoji_id_col id) e = bool_decide (Emoji.ID e = id).
Proof. unfold holds, EQ, emoji_id_col. cbn. by case_bool_decide. Qed.

Lemma load_relations_ID q T row :
  Emoji.ID (load_relations q T row) = Emoji.ID row.
Proof. unfold load_relations. by case_bool_decide. Qed.

(** With nothing scheduled to fail and a well-keyed cache, the read of the
    ID of a stored row returns an emoji of that ID and keeps both
    conditions. *)
Lemma GetEmojiByID_stored id w :
  cache_keyed_by_ID w -> faults w = [] ->
  (exists row, In row (emojis (tables w)) /\ Emoji.ID row = id) ->
  exists e w',
    GetEmojiByID id w = Done (Some e, None) w' /\ Emoji.ID e = id /\
    cache_keyed_by_ID w' /\ faults w' = [] /\ tables w' = tables w.
Proof.
  intros Hwf Hf (row & Hin & Hid).
  pose proof (getEmoji_get_or_load (emojiCache_GetByID id)
                (fun emoji => Scan_emoji (Where (EQ emoji_id_col id) newEmojiQ)
                                         emoji) w) as H.
  change (getEmoji _ _) with (GetEmojiByID id) in H.
  unfold emojiCache_GetByID in H.
  rewrite bind_run, get_world_run, ret_run in H.
  destruct (emojiCache w !! id) as [e|] eqn:Hc.
  { exists e, w. split; [exact H|]. split; [by apply Hwf|done]. }
  rewrite Scan_emoji_run in H.
  assert (Hs : scheduled 0 w = None) by (unfold scheduled; by rewrite Hf).
  rewrite Hs, run_select_plain in H by reflexivity.
  rewrite (List.filter_ext _ (fun e => bool_decide (Emoji.ID e = id))) in H.
  2:{ intros e. by rewrite where_ok_Where, holds_EQ_id. }
  destruct (List.filter _ (emojis (tables w))) as [|r rs] eqn:Hfl.
  { exfalso. assert (Hr : In row []); [|done].
    rewrite <- Hfl. apply filter_In. split; [done|by apply bool_decide_eq_true]. }
  assert (Hr : In r (r :: rs)) by (by left).
  rewrite <- Hfl in Hr. apply filter_In in Hr as [_ Hr].
  apply bool_decide_eq_true in Hr.
  eexists _, _. split; [exact H|].
  rewrite load_relations_ID. split; [done|]. split; [|split].
  - intros id' e'. cbn. rewrite lookup_insert, load_relations_ID.
    case_decide; [by intros [= <-]; rewrite load_relations_ID|apply Hwf].
  - cbn. by rewrite Hf.
  - reflexivity.
Qed.

Lemma emojisFromIDs_loop_stored ids : forall acc w,
  cache_keyed_by_ID w -> faults w = [] ->
  Forall (fun id => exists row, In row (emojis (tables w)) /\ Emoji.ID row = id)
         ids ->
  exists l w',
    emojisFromIDs_loop ids acc w = Done (acc ++ l) w' /\
    ids_of l = Some <$> ids.
Proof.
  induction ids as [|id ids IH]; intros acc w Hwf Hf Hids.
  - exists [], w. by rewrite app_nil_r.
  - apply Forall_cons in Hids as [Hid Hids].
    destruct (GetEmojiByID_stored id w Hwf Hf Hid)
      as (e & w1 & Hget & He & Hwf1 & Hf1 & HT).
    cbn [emojisFromIDs_loop]. rewrite bind_run, Hget, bind_run, ret_run.
    rewrite <- HT in Hids.
    destruct (IH (acc ++ [Some e]) w1 Hwf1 Hf1 Hids) as (l & w' & -> & Hl).
    exists (Some e :: l), w'. rewrite <- app_assoc. split; [done|].
    change (Some (Emoji.ID e) :: ids_of l = Some id :: (Some <$> ids)).
    by rewrite He, Hl.
Qed.

(** What the caller of [GetEmojis] gets when nothing is scheduled to fail:
    the emoji of the page, in the page's order; an empty page is the
    no-entries error. *)
Lemma GetEmojis_returns_page all key domain includeDisabled includeEnabled
    shortcode maxSD minSD limit w :
  shortcode_domain (dialect w) = Some key ->
  cache_keyed_by_ID w -> faults w = [] ->
  let page := GetEmojis_page all key domain includeDisabled includeEnabled
                             shortcode maxSD minSD limit (emojis (tables w)) in
  match page with
  | [] =>
      GetEmojis all domain includeDisabled includeEnabled shortcode maxSD
                minSD limit w
      = Done ([], Some db_ErrNoEntries)
             (after_statement (EvSelect emojis_table) w)
  | _ :: _ =>
      exists l w',
        GetEmojis all domain includeDisabled includeEnabled shortcode maxSD
                  minSD limit w = Done (l, None) w' /\
        ids_of l = Some <$> (Emoji.ID <$> page)
  end.
Proof.
  intros Hkey Hwf Hf page.
  assert (Hs : scheduled 0 w = None) by (unfold scheduled; by rewrite Hf).
  rewrite (GetEmojis_run all key) by done. fold page.
  pose proof (GetEmojis_page_filtered all key domain includeDisabled
                includeEnabled shortcode maxSD minSD limit
                (emojis (tables w))) as Hin.
  fold page in Hin.
  destruct page as [|e page']; [reflexivity|].
  unfold emojisFromIDs. cbn [fmap list_fmap length Nat.eqb].
  rewrite bind_run.
  destruct (emojisFromIDs_loop_stored (Emoji.ID <$> e :: page') []
              (after_statement (EvSelect emojis_table) w))
    as (l & w' & Hloop & Hl).
  - done.
  - cbn. by rewrite Hf.
  - apply Forall_fmap. eapply Forall_impl; [exact Hin|].
    intros r (_ & _ & _ & _ & _ & Hr). by exists r.
  - cbn [fmap list_fmap] in Hloop. rewrite Hloop, ret_run. by exists l, w'.
Qed.

(** The reserved value only matters through the test [domain <> all]. *)
Lemma GetEmojis_sentinel all all' domain includeDisabled includeEnabled
    shortcode maxSD minSD limit w :
  domain = ""%string \/
  bool_decide (domain <> all) = bool_decide (domain <> all') ->
  GetEmojis all domain includeDisabled includeEnabled shortcode maxSD minSD
            limit w
  = GetEmojis all' domain includeDisabled includeEnabled shortcode maxSD minSD
              limit w.
Proof.
  intros H. unfold GetEmojis. rewrite !bind_run, get_world_run.
  destruct (shortcode_domain (dialect w)) as [key|]; [|done].
  replace (GetEmojis_subQuery all' key domain includeDisabled includeEnabled
             shortcode maxSD minSD limit)
    with (GetEmojis_subQuery all key domain includeDisabled includeEnabled
             shortcode maxSD minSD limit); [done|].
  unfold GetEmojis_subQuery. destruct H as [-> | ->]; reflexivity.
Qed.

(** Asking for every domain does not depend on what the reserved value is. *)
Lemma GetEmojis_every_domain all all' includeDisabled includeEnabled
    shortcode maxSD minSD limit w :
  all <> ""%string -> all' <> ""%string ->
  GetEmojis all all includeDisabled includeEnabled shortcode maxSD minSD
            limit w
  = GetEmojis all' all' includeDisabled includeEnabled shortcode maxSD minSD
              limit w.
Proof.
  intros H H'. unfold GetEmojis. rewrite !bind_run, get_world_run.
  destruct (shortcode_domain (dialect w)) as [key|]; [|done].
  replace (GetEmojis_subQuery all' key all' includeDisabled includeEnabled
             shortcode maxSD minSD limit)
    with (GetEmojis_subQuery all key all includeDisabled includeEnabled
             shortcode maxSD minSD limit); [done|].
  unfold GetEmojis_subQuery.
  rewrite (bool_decide_false (all = ""%string)),
    (bool_decide_false (all' = ""%string)),
    (bool_decide_false (all <> all)), (bool_decide_false (all' <> all'));
    tauto.
Qed.

Lemma domain_matches_local all e :
  domain_matches all "" e = bool_decide (Emoji.Domain e = None).
Proof. reflexivity. Qed.

Lemma domain_matches_all all e :
  all <> ""%string -> domain_matches all all e = true.
Proof.
  intros H. unfold domain_matches.
  by rewrite (bool_decide_false (all = ""%string)), bool_decide_true.
Qed.

Lemma domain_matches_exact all domain e :
  domain <> ""%string -> domain <> all ->
  domain_matches all domain e = bool_decide (Emoji.Domain e = Some domain).
Proof.
  intros H1 H2. unfold domain_matches.
  by rewrite (bool_decide_false (domain = ""%string)),
    (bool_decide_false (domain = all)).
Qed.




Lemma dataset_forward_page d :
  In d [SQLite; PG] ->
  exists w',
    GetEmojis "all" "all" false false "" "cat@" "" 0 (Dataset.world d [])
    = Done ([Some Dataset.emoji3; Some Dataset.emoji2], None) w'.
Proof. intros [<-|[<-|[]]]; eexists; vm_compute; reflexivity. Qed.

(** C5: paging forwards.  With a forward cursor every row of the page has a
    sort key strictly above the lowercased cursor (bytewise comparison), and
    the page is ascending by the sort key, which is
    [lower(shortcode || '@' || coalesce(domain, ''))] in both dialects;
    without a backward cursor the query itself runs ascending and the page
    is what it fetched; when nothing is scheduled to fail the caller
    receives the emoji of that page in that order (and the no-entries error
    for an empty page).  On the dataset, for every domain and the cursor
    "cat@", the call returns [id3; id2]. *)
Theorem GetEmojis_forward_cursor (all : string) (key : Emoji.t -> string)
    (domain : string) (includeDisabled includeEnabled : bool)
    (shortcode maxSD minSD : string) (limit : Z) :
  maxSD <> ""%string ->
  let r := GetEmojis_subQuery all key domain includeDisabled includeEnabled
                              shortcode maxSD minSD limit in
  let page := GetEmojis_page all key domain includeDisabled includeEnabled
                             shortcode maxSD minSD limit in
  (forall d, shortcode_domain d = Some key ->
     forall e, key e = lower (Emoji.Shortcode e +:+ "@" +:+
                              COALESCE (Emoji.Domain e) "")) /\
  (forall rows,
      Forall (fun e => String.ltb (lower maxSD) (key e) = true) (page rows) /\
      Sorted (key_le key) (page rows)) /\
  (minSD = ""%string ->
   r.2 = ASC /\ q_order r.1 = Some (key, ASC) /\
   forall rows, page rows = run_select r.1 rows) /\
  (forall w,
      shortcode_domain (dialect w) = Some key ->
      scheduled 0 w = None ->
      GetEmojis all domain includeDisabled includeEnabled shortcode maxSD
                minSD limit w
      = emojisFromIDs (Emoji.ID <$> page (emojis (tables w)))
                      (after_statement (EvSelect emojis_table) w)) /\
  (forall w,
      shortcode_domain (dialect w) = Some key ->
      cache_keyed_by_ID w -> faults w = [] ->
      match page (emojis (tables w)) with
      | [] =>
          GetEmojis all domain includeDisabled includeEnabled shortcode maxSD
                    minSD limit w
          = Done ([], Some db_ErrNoEntries)
                 (after_statement (EvSelect emojis_table) w)
      | _ :: _ =>
          exists l w',
            GetEmojis all domain includeDisabled includeEnabled shortcode
                      maxSD minSD limit w = Done (l, None) w' /\
            ids_of l = Some <$> (Emoji.ID <$> page (emojis (tables w)))
      end) /\
  (all <> ""%string ->
   forall d, In d [SQLite; PG] ->
     exists w',
       GetEmojis all all false false "" "cat@" "" 0 (Dataset.world d [])
       = Done ([Some Dataset.emoji3; Some Dataset.emoji2], None) w').
Proof.
  intros Hmax r page.
  split; [intros d Hd; exact (shortcode_domain_sort_key d key Hd)|].
  split; [|split; [|split; [|split]]].
  - intros rows. split; [|apply GetEmojis_page_ascending].
    eapply Forall_impl; [apply GetEmojis_page_filtered|].
    intros e (_ & _ & _ & Ha & _). unfold after_cursor in Ha.
    by rewrite bool_decide_false in Ha.
  - intros ->.
    destruct (subQuery_order all key domain includeDisabled includeEnabled
                shortcode maxSD "" limit) as [Ho1 Ho2].
    fold r in Ho1, Ho2. cbn in Ho1. rewrite Ho1 in Ho2.
    split; [done|]. split; [done|].
    intros rows. unfold page, GetEmojis_page. fold r.
    destruct r as [q o]. cbn [fst snd] in *. by rewrite Ho1.
  - intros w Hkey Hok. by apply GetEmojis_run.
  - intros w Hkey Hwf Hf.
    apply (GetEmojis_returns_page all key domain includeDisabled
             includeEnabled shortcode maxSD minSD limit w Hkey Hwf Hf).
  - intros Hall d Hd.
    rewrite (GetEmojis_every_domain all "all") by done.
    by apply dataset_forward_page.
Qed.

Lemma GetEmojis_forward_cursor_witness :
  Forall (fun e => String.ltb (lower "cat@") (sort_key e) = true)
         (GetEmojis_page "all" sort_key "all" false false "" "cat@" "" 0
                         (emojis Dataset.rows)) /\
  Sorted (key_le sort_key)
         (GetEmojis_page "all" sort_key "all" false false "" "cat@" "" 0
                         (emojis Dataset.rows)).
Proof.
  assert (H : "cat@"%string <> ""%string) by discriminate.
  apply (GetEmojis_forward_cursor "all" sort_key "all" false false "" "cat@"
           "" 0 H).
Defined.

Lemma dataset_domain_filter all d :
  all <> ""%string -> all <> "remote.example"%string -> In d [SQLite; PG] ->
  (exists w',
      GetEmojis all "" false false "" "" "" 0 (Dataset.world d [])
      = Done ([Some Dataset.emoji1; Some Dataset.emoji2], None) w') /\
  (exists w',
      GetEmojis all all false false "" "" "" 0 (Dataset.world d [])
      = Done ([Some Dataset.emoji1; Some Dataset.emoji3;
               Some Dataset.emoji2], None) w') /\
  (exists w',
      GetEmojis all "remote.example" false false "" "" "" 0
                (Dataset.world d [])
      = Done ([Some Dataset.emoji3], None) w').
Proof.
  intros H1 H2 Hd.
  rewrite (GetEmojis_sentinel all "all" "") by (by left).
  rewrite (GetEmojis_every_domain all "all") by done.
  rewrite (GetEmojis_sentinel all "all" "remote.example")
    by (right; by rewrite !bool_decide_true).
  clear H1 H2.
  destruct Hd as [<-|[<-|[]]];
    (split; [|split]); eexists; vm_compute; reflexivity.
Qed.

(** C6: the domain filter has three states.  The page for the empty domain
    is the page for every domain over the rows whose domain is absent; the
    page for any other domain that is not the reserved value is the page
    for every domain over the rows of exactly that domain; and the query
    for the reserved value has no condition on the domain at all, its WHERE
    clauses being the other four filters.  On the dataset the empty domain
    gives [id1; id2], the reserved value all three, and "remote.example"
    gives [id3]. *)
Theorem GetEmojis_domain_filter (all : string) (key : Emoji.t -> string)
    (includeDisabled includeEnabled : bool)
    (shortcode maxSD minSD : string) (limit : Z) :
  all <> ""%string ->
  let page domain :=
    GetEmojis_page all key domain includeDisabled includeEnabled shortcode
                   maxSD minSD limit in
  (forall rows,
      page ""%string rows
      = page all (List.filter (fun e => bool_decide (Emoji.Domain e = None))
                              rows)) /\
  (forall domain rows,
      domain <> ""%string -> domain <> all ->
      page domain rows
      = page all (List.filter
                    (fun e => bool_decide (Emoji.Domain e = Some domain))
                    rows)) /\
  (forall e,
      where_ok (GetEmojis_subQuery all key all includeDisabled includeEnabled
                                   shortcode maxSD minSD limit).1 e
      = disabled_matches includeDisabled includeEnabled e
        && (shortcode_matches shortcode e
            && (after_cursor key maxSD e && before_cursor key minSD e))) /\
  (forall rows, Forall (fun e => Emoji.Domain e = None) (page ""%string rows)) /\
  (forall domain rows,
      domain <> ""%string -> domain <> all ->
      Forall (fun e => Emoji.Domain e = Some domain) (page domain rows)) /\
  (forall domain w,
      shortcode_domain (dialect w) = Some key ->
      scheduled 0 w = None ->
      GetEmojis all domain includeDisabled includeEnabled shortcode maxSD
                minSD limit w
      = emojisFromIDs (Emoji.ID <$> page domain (emojis (tables w)))
                      (after_statement (EvSelect emojis_table) w)) /\
  (all <> "remote.example"%string ->
   forall d, In d [SQLite; PG] ->
     (exists w',
         GetEmojis all "" false false "" "" "" 0 (Dataset.world d [])
         = Done ([Some Dataset.emoji1; Some Dataset.emoji2], None) w') /\
     (exists w',
         GetEmojis all all false false "" "" "" 0 (Dataset.world d [])
         = Done ([Some Dataset.emoji1; Some Dataset.emoji3;
                  Some Dataset.emoji2], None) w') /\
     (exists w',
         GetEmojis all "remote.example" false false "" "" "" 0
                   (Dataset.world d [])
         = Done ([Some Dataset.emoji3], None) w')).
Proof.
  intros Hall page.
  split; [|split; [|split; [|split; [|split; [|split]]]]].
  - intros rows. apply GetEmojis_page_restrict. intros e.
    by rewrite domain_matches_local, domain_matches_all.
  - intros domain rows H1 H2. apply GetEmojis_page_restrict. intros e.
    by rewrite domain_matches_exact, domain_matches_all.
  - intros e. by rewrite subQuery_where_ok, domain_matches_all.
  - intros rows. eapply Forall_impl; [apply GetEmojis_page_filtered|].
    intros e (Hd & _). rewrite domain_matches_local in Hd.
    by apply bool_decide_eq_true in Hd.
  - intros domain rows H1 H2.
    eapply Forall_impl; [apply GetEmojis_page_filtered|].
    intros e (Hd & _). rewrite domain_matches_exact in Hd by done.
    by apply bool_decide_eq_true in Hd.
  - intros domain w Hkey Hok. by apply GetEmojis_run.
  - intros Hall' d Hd. by apply dataset_domain_filter.
Qed.

Lemma GetEmojis_domain_filter_witness :
  Forall (fun e => Emoji.Domain e = None)
         (GetEmojis_page "all" sort_key "" false false "" "" "" 0
                         (emojis Dataset.rows)).
Proof.
  assert (H : "all"%string <> ""%string) by discriminate.
  apply (GetEmojis_domain_filter "all" sort_key false false "" "" "" 0 H).
Defined.

Lemma dataset_disabled_filter all d :
  all <> ""%string -> In d [SQLite; PG] ->
  (exists w',
      GetEmojis all all true false "" "" "" 0 (Dataset.world d [])
      = Done ([Some Dataset.emoji2], None) w') /\
  (exists w',
      GetEmojis all all false true "" "" "" 0 (Dataset.world d [])
      = Done ([Some Dataset.emoji1; Some Dataset.emoji3], None) w') /\
  (exists w',
      GetEmojis all all true true "" "" "" 0 (Dataset.world d [])
      = Done ([Some Dataset.emoji1; Some Dataset.emoji3;
               Some Dataset.emoji2], None) w') /\
  (exists w',
      GetEmojis all all false false "" "" "" 0 (Dataset.world d [])
      = Done ([Some Dataset.emoji1; Some Dataset.emoji3;
               Some Dataset.emoji2], None) w').
Proof.
  intros H1 Hd.
  rewrite !(GetEmojis_every_domain all "all") by done.
  clear H1.
  destruct Hd as [<-|[<-|[]]];
    (split; [|split; [|split]]); eexists; vm_compute; reflexivity.
Qed.

(** C7: the disabled/enabled filter has three states.  With only
    includeDisabled set the page is the page of the unfiltered query over
    the disabled rows; with only includeEnabled set it is that page over the
    enabled rows; with both flags set the query is the one built with
    neither, which has no condition on the disabled column.  On the dataset,
    where only [id2] is disabled, the four combinations give [id2],
    [id1; id3], and twice all three. *)
Theorem GetEmojis_disabled_filter (all : string) (key : Emoji.t -> string)
    (domain shortcode maxSD minSD : string) (limit : Z) :
  let query includeDisabled includeEnabled :=
    GetEmojis_subQuery all key domain includeDisabled includeEnabled shortcode
                       maxSD minSD limit in
  let page includeDisabled includeEnabled :=
    GetEmojis_page all key domain includeDisabled includeEnabled shortcode
                   maxSD minSD limit in
  (forall rows,
      page true false rows
      = page false false
             (List.filter (fun e => bool_decide (Emoji.Disabled e = true))
                          rows)) /\
  (forall rows,
      page false true rows
      = page false false
             (List.filter (fun e => bool_decide (Emoji.Disabled e = false))
                          rows)) /\
  query true true = query false false /\
  (forall rows, page true true rows = page false false rows) /\
  (forall e,
      where_ok (query false false).1 e
      = domain_matches all domain e
        && (shortcode_matches shortcode e
            && (after_cursor key maxSD e && before_cursor key minSD e))) /\
  (forall rows,
      Forall (fun e => Emoji.Disabled e = true) (page true false rows)) /\
  (forall rows,
      Forall (fun e => Emoji.Disabled e = false) (page false true rows)) /\
  (forall includeDisabled includeEnabled w,
      shortcode_domain (dialect w) = Some key ->
      scheduled 0 w = None ->
      GetEmojis all domain includeDisabled includeEnabled shortcode maxSD
                minSD limit w
      = emojisFromIDs
          (Emoji.ID <$> page includeDisabled includeEnabled (emojis (tables w)))
          (after_statement (EvSelect emojis_table) w)) /\
  (all <> ""%string ->
   forall d, In d [SQLite; PG] ->
     (exists w',
         GetEmojis all all true false "" "" "" 0 (Dataset.world d [])
         = Done ([Some Dataset.emoji2], None) w') /\
     (exists w',
         GetEmojis all all false true "" "" "" 0 (Dataset.world d [])
         = Done ([Some Dataset.emoji1; Some Dataset.emoji3], None) w') /\
     (exists w',
         GetEmojis all all true true "" "" "" 0 (Dataset.world d [])
         = Done ([Some Dataset.emoji1; Some Dataset.emoji3;
                  Some Dataset.emoji2], None) w') /\
     (exists w',
         GetEmojis all all false false "" "" "" 0 (Dataset.world d [])
         = Done ([Some Dataset.emoji1; Some Dataset.emoji3;
                  Some Dataset.emoji2], None) w')).
Proof.
  intros query page.
  split; [|split; [|split; [|split; [|split; [|split; [|split; [|split]]]]]]].
  - intros rows. apply GetEmojis_page_restrict. intros e.
    unfold disabled_matches.
    by destruct (domain_matches all domain e), (bool_decide _),
      (shortcode_matches shortcode e).
  - intros rows. apply GetEmojis_page_restrict. intros e.
    unfold disabled_matches.
    by destruct (domain_matches all domain e), (bool_decide _),
      (shortcode_matches shortcode e).
  - reflexivity.
  - reflexivity.
  - intros e. unfold query. by rewrite subQuery_where_ok.
  - intros rows. eapply Forall_impl; [apply GetEmojis_page_filtered|].
    intros e (_ & Hd & _). by apply bool_decide_eq_true in Hd.
  - intros rows. eapply Forall_impl; [apply GetEmojis_page_filtered|].
    intros e (_ & Hd & _). by apply bool_decide_eq_true in Hd.
  - intros includeDisabled includeEnabled w Hkey Hok. by apply GetEmojis_run.
  - intros Hall d Hd. by apply dataset_disabled_filter.
Qed.

Lemma GetEmojis_disabled_filter_witness :
  exists w',
    GetEmojis "all" "all" true false "" "" "" 0 (Dataset.world SQLite [])
    = Done ([Some Dataset.emoji2], None) w'.
Proof.
  assert (H : "all"%string <> ""%string) by discriminate.
  assert (Hd : In SQLite [SQLite; PG]) by (left; reflexivity).
  apply (GetEmojis_disabled_filter "all" sort_key "all" "" "" "" 0).
  - exact H.
  - exact Hd.
Defined.
(** ** Lookup by shortcode and domain *)

Lemma GetEmojiByShortcodeDomain_query_where toLower shortcode domain e :
  where_ok (GetEmojiByShortcodeDomain_query toLower shortcode domain) e
  = shortcode_domain_matches toLower shortcode domain e.
Proof.
  unfold GetEmojiByShortcodeDomain_query, shortcode_domain_matches.
  destruct (bool_decide_reflect (domain <> ""%string)).
  - rewrite (bool_decide_false (domain = ""%string)) by done.
    by rewrite !where_ok_Where, holds_EQ_shortcode, holds_EQ_domain.
  - rewrite (bool_decide_true (domain = ""%string))
      by (by destruct (decide (domain = ""%string))).
    by rewrite !where_ok_Where, holds_EQ_shortcode, holds_IS_NULL_domain.
Qed.

(** The lookup uses [strings.ToLower] at the shortcode it is given, and
    nowhere else. *)
Lemma GetEmojiByShortcodeDomain_ext (f g : string -> string)
    (shortcode domain : string) :
  f shortcode = g shortcode ->
  GetEmojiByShortcodeDomain f shortcode domain
  = GetEmojiByShortcodeDomain g shortcode domain.
Proof.
  intros H. unfold GetEmojiByShortcodeDomain, GetEmojiByShortcodeDomain_query.
  by rewrite H.
Qed.

Lemma dataset_shortcode_domain_lookups :
  (exists w',
      GetEmojiByShortcodeDomain lower "CAT" "" (Dataset.world SQLite [])
      = Done (Some Dataset.emoji1, None) w') /\
  (exists w',
      GetEmojiByShortcodeDomain lower "cat" "remote.example"
                                (Dataset.world SQLite [])
      = Done (Some Dataset.emoji3, None) w') /\
  (exists w',
      GetEmojiByShortcodeDomain lower "CAT" "remote.example"
                                (Dataset.world SQLite [])
      = Done (None, Some db_ErrNotFound) w') /\
  (exists w',
      GetEmojiByShortcodeDomain lower "cat" "REMOTE.EXAMPLE"
                                (Dataset.world SQLite [])
      = Done (None, Some db_ErrNotFound) w') /\
  (exists w',
      GetEmojiByShortcodeDomain lower "Cat" "" Capitalised.world
      = Done (None, Some db_ErrNotFound) w') /\
  (exists w',
      GetEmojiByShortcodeDomain lower "Cat" "x.example" Capitalised.world
      = Done (Some Capitalised.remote, None) w').
Proof. repeat split; eexists; vm_compute; reflexivity. Qed.

Lemma accented_shortcode_lookup :
  exists w',
    GetEmojiByShortcodeDomain (fun _ => "émoji"%string) "ÉMOJI" ""
                              Accented.world
    = Done (Some Accented.emoji, None) w'.
Proof. eexists; vm_compute; reflexivity. Qed.

(** C10: the storage lookup of [GetEmojiByShortcodeDomain] treats case
    asymmetrically.  A row passes the query for the empty domain when its
    shortcode equals the input shortcode lowercased by [strings.ToLower]
    and its domain is NULL; it passes the query for a non-empty domain when
    its shortcode and its domain equal the inputs exactly, nothing being
    lowercased.  On a cache miss, with the statement not scheduled to fail,
    the call returns the first such row (with its category loaded) after
    putting it in the cache, or the not-found error when there is none.
    This holds whatever [strings.ToLower] computes.  Examples, for a
    [strings.ToLower] that is [lower] on ASCII text: ("CAT","") finds the
    local "cat" while ("CAT","remote.example") finds nothing; a local emoji
    stored as "Cat" is not found by ("Cat",""), the remote one is found by
    ("Cat","x.example").  And when [strings.ToLower] maps "ÉMOJI" to
    "émoji", ("ÉMOJI","") finds the local emoji stored as "émoji". *)
Theorem GetEmojiByShortcodeDomain_storage_lookup
    (strings_ToLower : string -> string) (shortcode domain : string) :
  let q := GetEmojiByShortcodeDomain_query strings_ToLower shortcode domain in
  (forall e,
      where_ok q e
      = if bool_decide (domain = ""%string) then
          bool_decide (Emoji.Shortcode e = strings_ToLower shortcode)
          && bool_decide (Emoji.Domain e = None)
        else
          bool_decide (Emoji.Shortcode e = shortcode)
          && bool_decide (Emoji.Domain e = Some domain)) /\
  (forall w,
      cache_find
        (fun e => bool_decide (Emoji.Shortcode e = shortcode)
                  && bool_decide (COALESCE (Emoji.Domain e) "" = domain))
        (emojiCache w) = None ->
      scheduled 0 w = None ->
      GetEmojiByShortcodeDomain strings_ToLower shortcode domain w
      = match List.find
                (shortcode_domain_matches strings_ToLower shortcode domain)
                (emojis (tables w)) with
        | Some row =>
            let e := load_relations q (tables w) row in
            Done (Some e, None)
                 (after_emoji_Put e
                    (after_statement (EvSelect emojis_table) w))
        | None =>
            Done (None, Some db_ErrNotFound)
                 (after_statement (EvSelect emojis_table) w)
        end) /\
  (lowers_ASCII strings_ToLower ->
   (exists w',
       GetEmojiByShortcodeDomain strings_ToLower "CAT" ""
                                 (Dataset.world SQLite [])
       = Done (Some Dataset.emoji1, None) w') /\
   (exists w',
       GetEmojiByShortcodeDomain strings_ToLower "cat" "remote.example"
                                 (Dataset.world SQLite [])
       = Done (Some Dataset.emoji3, None) w') /\
   (exists w',
       GetEmojiByShortcodeDomain strings_ToLower "CAT" "remote.example"
                                 (Dataset.world SQLite [])
       = Done (None, Some db_ErrNotFound) w') /\
   (exists w',
       GetEmojiByShortcodeDomain strings_ToLower "cat" "REMOTE.EXAMPLE"
                                 (Dataset.world SQLite [])
       = Done (None, Some db_ErrNotFound) w') /\
   (exists w',
       GetEmojiByShortcodeDomain strings_ToLower "Cat" "" Capitalised.world
       = Done (None, Some db_ErrNotFound) w') /\
   (exists w',
       GetEmojiByShortcodeDomain strings_ToLower "Cat" "x.example"
                                 Capitalised.world
       = Done (Some Capitalised.remote, None) w')) /\
  (strings_ToLower "ÉMOJI" = "émoji"%string ->
   exists w',
     GetEmojiByShortcodeDomain strings_ToLower "ÉMOJI" "" Accented.world
     = Done (Some Accented.emoji, None) w').
Proof.
  intros q. split; [|split; [|split]].
  - intros e. apply GetEmojiByShortcodeDomain_query_where.
  - intros w Hmiss Hok.
    pose proof (getEmoji_get_or_load
                  (emojiCache_GetByShortcodeDomain shortcode domain)
                  (fun emoji => Scan_emoji q emoji) w) as H.
    change (getEmoji _ _)
      with (GetEmojiByShortcodeDomain strings_ToLower shortcode domain) in H.
    unfold emojiCache_GetByShortcodeDomain in H.
    rewrite bind_run, get_world_run, ret_run, Hmiss in H.
    rewrite Scan_emoji_run, Hok in H.
    rewrite run_select_plain in H
      by (unfold q, GetEmojiByShortcodeDomain_query;
          by destruct (bool_decide (domain <> ""%string))).
    rewrite <- filter_head_find.
    rewrite (List.filter_ext _ _
               (GetEmojiByShortcodeDomain_query_where strings_ToLower
                  shortcode domain)) in H.
    by destruct (List.filter _ _).
  - intros Hascii.
    rewrite !(fun sc d (Hsc : is_ascii sc = true) =>
                GetEmojiByShortcodeDomain_ext strings_ToLower lower sc d
                  (Hascii sc Hsc)) by reflexivity.
    exact dataset_shortcode_domain_lookups.
  - intros Hacc.
    rewrite (GetEmojiByShortcodeDomain_ext strings_ToLower
               (fun _ => "émoji"%string) "ÉMOJI" "" Hacc).
    exact accented_shortcode_lookup.
Qed.

Lemma GetEmojiByShortcodeDomain_storage_lookup_witness :
  GetEmojiByShortcodeDomain lower "CAT" "" (Dataset.world SQLite [])
  = match List.find (shortcode_domain_matches lower "CAT" "")
                    (emojis (tables (Dataset.world SQLite []))) with
    | Some row =>
        let e := load_relations
                   (GetEmojiByShortcodeDomain_query lower "CAT" "")
                   (tables (Dataset.world SQLite [])) row in
        Done (Some e, None)
             (after_emoji_Put e
                (after_statement (EvSelect emojis_table)
                                 (Dataset.world SQLite [])))
    | None =>
        Done (None, Some db_ErrNotFound)
             (after_statement (EvSelect emojis_table)
                              (Dataset.world SQLite []))
    end.
Proof.
  apply (GetEmojiByShortcodeDomain_storage_lookup lower "CAT" "");
    vm_compute; reflexivity.
Defined.

(** ** Update *)

Lemma Exec_update_run model id columns w :
  Exec_update model id columns w =
  let w1 := after_statement (EvUpdate emojis_table id columns) w in
  if forallb is_emoji_field columns then
    match scheduled 0 w with
    | Some err => Done (Some err) w1
    | None =>
        match set_columns columns with
        | [] => Done (Some (backend_failure "syntax error")) w1
        | set =>
            if forallb is_emoji_column set then
              Done None
                   (set_tables
                      (mkTables (update_rows model id set (emojis (tables w)))
                                (emoji_categories (tables w))
                                (status_to_emojis (tables w))
                                (account_to_emojis (tables w)))
                      w1)
            else Done (Some (backend_failure "no such column")) w1
        end
    end
  else Done (Some (backend_failure "does not have column")) w.
Proof.
  unfold Exec_update, next_fault, scheduled, after_statement.
  destruct (forallb is_emoji_field columns); [|reflexivity].
  autorewrite with run. destruct w as [d T fs ec cc ck evs].
  destruct fs as [|[err|] fs]; cbn [faults lookup list_lookup];
    try reflexivity;
    (destruct (set_columns columns) as [|c set]; [reflexivity|]);
    by destruct (forallb is_emoji_column (c :: set)).
Qed.

Ltac case_column c :=
  repeat match goal with
         | |- context [String.eqb c ?s] =>
             destruct (String.eqb_spec c s) as [->|?]
         end.

(** Writing a column changes that column, to the value of the struct, and
    no other. *)
Lemma column_value_write_column src col row c :
  column_value c (write_column src col row)
  = if String.eqb c col then column_value c src else column_value c row.
Proof.
  destruct row as [id created updated shortcode domain static uri disabled
                   visible category_id category].
  unfold write_column.
  case_column col; cbn [String.eqb Ascii.eqb Bool.eqb];
    try (unfold column_value; case_column c;
         cbn [String.eqb Ascii.eqb Bool.eqb]; reflexivity).
  destruct (String.eqb_spec c col) as [->|?]; [|reflexivity].
  unfold column_value.
  repeat match goal with
         | H : col <> ?s |- context [String.eqb col ?s] =>
             destruct (String.eqb_spec col s); [contradiction|]
         end.
  reflexivity.
Qed.

Lemma column_value_write_columns src cols : forall row c,
  column_value c (write_columns src cols row)
  = if existsb (String.eqb c) cols then column_value c src
    else column_value c row.
Proof.
  unfold write_columns.
  induction cols as [|col cols IH]; intros row c; [done|].
  cbn [fold_left existsb]. rewrite IH, column_value_write_column.
  by destruct (String.eqb c col), (existsb (String.eqb c) cols).
Qed.

Lemma existsb_eqb_In (c : string) (cols : list string) :
  existsb (String.eqb c) cols = true <-> In c cols.
Proof.
  rewrite existsb_exists. split.
  - intros (x & Hin & Heq). apply String.eqb_eq in Heq. by subst.
  - intros Hin. exists c. split; [done|apply String.eqb_refl].
Qed.

Lemma column_value_id e : column_value "id" e = Some (VText (Emoji.ID e)).
Proof. reflexivity. Qed.

Lemma write_column_id src row :
  Emoji.ID src = Emoji.ID row -> write_column src "id" row = row.
Proof. destruct row. cbn. by intros ->. Qed.

Lemma write_column_keeps_ID src col row :
  col <> "id"%string ->
  Emoji.ID (write_column src col row) = Emoji.ID row.
Proof.
  intros Hcol.
  pose proof (column_value_write_column src col row "id") as H.
  rewrite !column_value_id in H.
  destruct (String.eqb_spec "id" col) as [<-|_]; [done|]. by injection H.
Qed.

(** The key selects the row, so leaving it out of the SET clause or
    writing it from the struct comes to the same row. *)
Lemma write_columns_without_id src cols : forall row,
  Emoji.ID src = Emoji.ID row ->
  write_columns src (List.filter (fun c => negb (String.eqb c "id")) cols) row
  = write_columns src cols row.
Proof.
  induction cols as [|c cols IH]; intros row Hid; [done|].
  change (write_columns src (c :: cols) row)
    with (write_columns src cols (write_column src c row)).
  cbn [List.filter]. destruct (String.eqb_spec c "id") as [->|Hc]; cbn [negb].
  - rewrite write_column_id by done. by apply IH.
  - change (write_columns src (c :: ?l) row)
      with (write_columns src l (write_column src c row)).
    apply IH. by rewrite write_column_keeps_ID.
Qed.

Lemma update_rows_set_columns src id columns rows :
  Emoji.ID src = id ->
  update_rows src id (set_columns columns) rows
  = update_rows src id (update_columns columns) rows.
Proof.
  intros Hsrc. unfold update_rows, set_columns.
  apply list_fmap_ext. intros _ row _. case_bool_decide; [|done].
  apply write_columns_without_id. congruence.
Qed.

(** A successful [UpdateEmoji], step by step. *)
Lemma UpdateEmoji_success_run emoji columns w emoji' ret w' :
  UpdateEmoji emoji columns w = Done (emoji', ret, None) w' ->
  emoji' = Emoji.set_UpdatedAt (clock w) emoji /\
  ret = Some emoji' /\
  scheduled 0 w = None /\
  w' = after_emoji_Invalidate (Emoji.ID emoji)
         (set_tables
            (mkTables
               (update_rows emoji' (Emoji.ID emoji) (update_columns columns)
                            (emojis (tables w)))
               (emoji_categories (tables w))
               (status_to_emojis (tables w))
               (account_to_emojis (tables w)))
            (after_statement
               (EvUpdate emojis_table (Emoji.ID emoji) columns) w)).
Proof.
  unfold UpdateEmoji. rewrite bind_run. unfold time_Now.
  rewrite bind_run, Exec_update_run. cbv zeta.
  destruct (forallb is_emoji_field columns);
    [|rewrite ret_run; discriminate].
  destruct (scheduled 0 w); [rewrite ret_run; discriminate|].
  destruct (set_columns columns) as [|c set] eqn:Hset;
    [rewrite ret_run; discriminate|].
  destruct (forallb is_emoji_column (c :: set));
    [|rewrite ret_run; discriminate].
  rewrite bind_run, emojiCache_Invalidate_run, ret_run.
  intros [= <- <- <-]. rewrite <- Hset.
  by rewrite update_rows_set_columns.
Qed.

(** After an invalidation the read by ID goes to storage. *)
Lemma GetEmojiByID_after_miss id w :
  emojiCache w !! id = None ->
  exists r w' evs,
    GetEmojiByID id w = Done r w' /\
    events w' = events w ++ EvSelect emojis_table :: evs.
Proof.
  intros Hmiss.
  pose proof (getEmoji_cache_aside (fun w => emojiCache w !! id)
                (Where (EQ emoji_id_col id) newEmojiQ) w) as H.
  change (getEmoji _ _) with (GetEmojiByID id) in H. cbv beta in H.
  rewrite Hmiss in H. destruct H as (dest & err & w1 & Hscan & _ & H).
  destruct (Scan_emoji_frame (Where (EQ emoji_id_col id) newEmojiQ)
              Emoji.empty w) as (r' & err' & w1' & Hscan' & _ & _ & _ & Hev).
  rewrite Hscan in Hscan'. injection Hscan' as <- <- <-.
  destruct err as [err|].
  - exists (None, Some (ProcessError err)), w1, []. by split.
  - destruct H as [H _].
    exists (Some dest, None), (after_emoji_Put dest w1),
      [EvEmojiCachePut (Emoji.ID dest)].
    split; [done|]. cbn. rewrite Hev. by rewrite <- app_assoc.
Qed.

(** C9, as the code has it: a successful [UpdateEmoji] refreshes the
    struct's UpdatedAt to the current time, returns that struct, and
    invalidates the cache entry of its ID, so that the next read by that ID
    sends a select to storage.  In storage the rows of other IDs are
    unchanged, and in the row of that ID the columns written are the listed
    ones, each taking the value of the struct, every other column keeping
    its value; when no column is listed, every data column is written. *)
Theorem UpdateEmoji_success (emoji : Emoji.t) (columns : list string)
    (w : World) (emoji' : Emoji.t) (ret : option Emoji.t) (w' : World) :
  UpdateEmoji emoji columns w = Done (emoji', ret, None) w' ->
  let id := Emoji.ID emoji in
  let written := update_columns columns in
  emoji' = Emoji.set_UpdatedAt (clock w) emoji /\
  ret = Some emoji' /\
  emojiCache w' = delete id (emojiCache w) /\
  emojiCache w' !! id = None /\
  (exists r w'' evs,
      GetEmojiByID id w' = Done r w'' /\
      events w'' = events w' ++ EvSelect emojis_table :: evs) /\
  emojis (tables w')
  = (fun row => if bool_decide (Emoji.ID row = id)
                then write_columns emoji' written row else row)
      <$> emojis (tables w) /\
  (forall row c,
      (In c written ->
       column_value c (write_columns emoji' written row)
       = column_value c emoji') /\
      (~ In c written ->
       column_value c (write_columns emoji' written row)
       = column_value c row)) /\
  (columns <> [] -> written = columns) /\
  (columns = [] -> written = emoji_data_columns) /\
  emoji_categories (tables w') = emoji_categories (tables w) /\
  status_to_emojis (tables w') = status_to_emojis (tables w) /\
  account_to_emojis (tables w') = account_to_emojis (tables w).
Proof.
  intros Hrun id written.
  apply UpdateEmoji_success_run in Hrun as (-> & -> & _ & ->).
  cbn [tables emojiCache after_emoji_Invalidate set_events set_emojiCache
       set_tables emojis emoji_categories status_to_emojis account_to_emojis
       after_statement set_faults].
  split; [done|]. split; [done|]. split; [done|].
  split; [apply lookup_delete_eq|].
  split.
  { apply GetEmojiByID_after_miss.
    cbn [emojiCache after_emoji_Invalidate set_events set_emojiCache].
    apply lookup_delete_eq. }
  split; [done|].
  split.
  { intros row c. rewrite column_value_write_columns. split.
    - intros Hin. apply existsb_eqb_In in Hin. by rewrite Hin.
    - intros Hin. destruct (existsb (String.eqb c) written)
        eqn:He; [|done]. by apply existsb_eqb_In in He. }
  split; [by destruct columns|]. split; [by intros ->|]. done.
Qed.

Lemma UpdateEmoji_success_witness :
  emojis (tables
            (after_emoji_Invalidate "id2"
               (set_tables
                  (mkTables
                     (update_rows
                        (Emoji.set_UpdatedAt 1000 Dataset.emoji2)
                        "id2" ["disabled"%string] (emojis Dataset.rows))
                     [] (status_to_emojis Dataset.rows)
                     (account_to_emojis Dataset.rows))
                  (after_statement
                     (EvUpdate emojis_table "id2" ["disabled"%string])
                     (Dataset.world SQLite [])))))
  = (fun row => if bool_decide (Emoji.ID row = "id2"%string)
                then write_columns (Emoji.set_UpdatedAt 1000 Dataset.emoji2)
                                   ["disabled"%string] row
                else row)
      <$> emojis (tables (Dataset.world SQLite [])).
Proof.
  apply (UpdateEmoji_success Dataset.emoji2 ["disabled"%string]
           (Dataset.world SQLite [])
           (Emoji.set_UpdatedAt 1000 Dataset.emoji2)
           (Some (Emoji.set_UpdatedAt 1000 Dataset.emoji2))).
  reflexivity.
Defined.

(** C9 as stated fails for a call that lists no column: the update then
    writes every data column.  The struct is the stored [id1] with its
    shortcode changed to "kitten"; the call lists no column, succeeds, and
    the stored shortcode of [id1] is "kitten" afterwards. *)
Lemma UpdateEmoji_no_column_writes_all :
  let model :=
    Emoji.mk "id1" 0 0 "kitten" None "/static/1.png" "https://local/emoji/1"
             false true "" None in
  exists w',
    UpdateEmoji model [] (Dataset.world SQLite [])
    = Done (Emoji.set_UpdatedAt 1000 model,
            Some (Emoji.set_UpdatedAt 1000 model), None) w' /\
    Emoji.Shortcode <$> emojis (tables (Dataset.world SQLite []))
    = ["cat"; "dog"; "cat"]%string /\
    Emoji.Shortcode <$> emojis (tables w')
    = ["kitten"; "dog"; "cat"]%string.
Proof.
  eexists. split; [vm_compute; reflexivity|].
  split; vm_compute; reflexivity.
Qed.


(** * Further properties of the repository *)

(** ** Reads by ID, step by step *)

Lemma Scan_category_run q dest w :
  Scan_category q dest w =
  match scheduled 0 w with
  | Some err =>
      Done (dest, Some err) (after_statement (EvSelect emoji_categories_table) w)
  | None =>
      match run_select q (emoji_categories (tables w)) with
      | [] =>
          Done (dest, Some sql_ErrNoRows)
               (after_statement (EvSelect emoji_categories_table) w)
      | row :: _ =>
          Done (row, None)
               (after_statement (EvSelect emoji_categories_table) w)
      end
  end.
Proof.
  unfold Scan_category, next_fault, scheduled, after_statement.
  autorewrite with run. destruct w as [d T fs ec cc ck evs].
  destruct fs as [|[err|] fs]; cbn; try reflexivity;
    autorewrite with run; cbn; by destruct (run_select q (emoji_categories T)).
Qed.

Lemma holds_EQ_category_id id c :
  holds (EQ emoji_category_id id) c = bool_decide (EmojiCategory.ID c = id).
Proof. unfold holds, EQ, emoji_category_id. cbn. by case_bool_decide. Qed.

(** What the read of an emoji by ID does, case by case. *)
Lemma GetEmojiByID_run id w :
  GetEmojiByID id w =
  match emojiCache w !! id with
  | Some e => Done (Some e, None) w
  | None =>
      let w1 := after_statement (EvSelect emojis_table) w in
      match scheduled 0 w with
      | Some err => Done (None, Some (ProcessError err)) w1
      | None =>
          match stored_emoji id w with
          | None => Done (None, Some db_ErrNotFound) w1
          | Some row =>
              let e := load_relations (byID_query id) (tables w) row in
              Done (Some e, None) (after_emoji_Put e w1)
          end
      end
  end.
Proof.
  pose proof (getEmoji_get_or_load (emojiCache_GetByID id)
                (fun emoji => Scan_emoji (byID_query id) emoji) w) as H.
  change (getEmoji _ _) with (GetEmojiByID id) in H.
  unfold emojiCache_GetByID in H.
  rewrite bind_run, get_world_run, ret_run in H.
  destruct (emojiCache w !! id); [done|].
  rewrite Scan_emoji_run in H. cbv zeta.
  destruct (scheduled 0 w); [done|].
  rewrite run_select_plain in H by reflexivity.
  rewrite (List.filter_ext _ (fun e => bool_decide (Emoji.ID e = id))) in H.
  2:{ intros e. unfold byID_query. by rewrite where_ok_Where, holds_EQ_id. }
  unfold stored_emoji. rewrite <- filter_head_find.
  by destruct (List.filter _ _).
Qed.

Lemma GetEmojiCategory_run id w :
  GetEmojiCategory id w =
  match categoryCache w !! id with
  | Some c => Done (Some c, None) w
  | None =>
      let w1 := after_statement (EvSelect emoji_categories_table) w in
      match scheduled 0 w with
      | Some err => Done (None, Some (ProcessError err)) w1
      | None =>
          match stored_category id w with
          | None => Done (None, Some db_ErrNotFound) w1
          | Some row => Done (Some row, None) (after_category_Put row w1)
          end
      end
  end.
Proof.
  pose proof (getEmojiCategory_get_or_load (categoryCache_GetByID id)
                (fun c => Scan_category
                            (Where (EQ emoji_category_id id) newEmojiCategoryQ)
                            c) w) as H.
  change (getEmojiCategory _ _) with (GetEmojiCategory id) in H.
  unfold categoryCache_GetByID in H.
  rewrite bind_run, get_world_run, ret_run in H.
  destruct (categoryCache w !! id); [done|].
  rewrite Scan_category_run in H. cbv zeta.
  destruct (scheduled 0 w); [done|].
  rewrite run_select_plain in H by reflexivity.
  rewrite (List.filter_ext _ (fun c => bool_decide (EmojiCategory.ID c = id)))
    in H.
  2:{ intros c. by rewrite where_ok_Where, holds_EQ_category_id. }
  unfold stored_category. rewrite <- filter_head_find.
  by destruct (List.filter _ _).
Qed.

Lemma find_id_Some {R} (f : R -> string) id rows row :
  List.find (fun r => bool_decide (f r = id)) rows = Some row ->
  In row rows /\ f row = id.
Proof.
  intros H. apply find_some in H as [Hin Hid].
  by apply bool_decide_eq_true in Hid.
Qed.

Lemma find_id_None {R} (f : R -> string) id rows :
  Forall (fun r => f r <> id) rows ->
  List.find (fun r => bool_decide (f r = id)) rows = None.
Proof.
  induction 1 as [|r rows Hr _ IH]; [done|]. cbn.
  by rewrite bool_decide_false.
Qed.

(** ** Hydrating category IDs *)

Lemma GetEmojiCategory_step id' id w :
  categoryCache w !! id = None -> category_not_stored id w ->
  exists c err w1,
    GetEmojiCategory id' w = Done (c, err) w1 /\
    categoryCache w1 !! id = None /\ category_not_stored id w1 /\
    (id' = id -> c = None).
Proof.
  intros Hc Hs. rewrite GetEmojiCategory_run. cbv zeta.
  destruct (categoryCache w !! id') as [c|] eqn:Hc'.
  { exists (Some c), None, w. repeat split; try done.
    intros ->. congruence. }
  destruct (scheduled 0 w) as [err|]; [by eexists None, _, _|].
  destruct (stored_category id' w) as [row|] eqn:Hrow;
    [|by eexists None, _, _].
  apply find_id_Some in Hrow as [Hin Hid].
  assert (Hne : EmojiCategory.ID row <> id).
  { unfold category_not_stored in Hs. rewrite Forall_forall in Hs.
    by apply Hs, list_elem_of_In. }
  exists (Some row), None.
  eexists. split; [reflexivity|]. split; [|split; [done|congruence]].
  cbn. by rewrite lookup_insert_ne.
Qed.

Lemma emojiCategoriesFromIDs_loop_missing id ids : forall acc w,
  categoryCache w !! id = None -> category_not_stored id w ->
  exists l w',
    emojiCategoriesFromIDs_loop ids acc w = Done (acc ++ l) w' /\
    length l = length ids /\
    forall i, ids !! i = Some id -> l !! i = Some None.
Proof.
  induction ids as [|id' ids IH]; intros acc w Hc Hs.
  - exists [], w. rewrite app_nil_r. by repeat split.
  - destruct (GetEmojiCategory_step id' id w Hc Hs)
      as (c & err & w1 & Hget & Hc1 & Hs1 & Hnil).
    cbn [emojiCategoriesFromIDs_loop]. rewrite bind_run, Hget, bind_run.
    assert (exists w2,
               match err with
               | Some err => emit (EvLogError "emojiCategoriesFromIDs" id' err)
               | None => mret tt
               end w1 = Done tt w2 /\
               categoryCache w2 !! id = None /\ category_not_stored id w2)
      as (w2 & -> & Hc2 & Hs2).
    { destruct err; eexists; by repeat split. }
    destruct (IH (acc ++ [c]) w2 Hc2 Hs2) as (l & w' & -> & Hlen & Hpos).
    exists (c :: l), w'. rewrite <- app_assoc. split; [done|].
    split; [cbn; by rewrite Hlen|].
    intros [|i] Hi; cbn in *; [|by apply Hpos].
    injection Hi as ->. by rewrite Hnil.
Qed.

(** X1: [emojiCategoriesFromIDs] keeps one slot per input ID.  For a
    non-empty list the call returns a nil error and a list as long as the
    input; an ID that is neither cached nor stored leaves a nil pointer at
    each of its positions (its failure is only logged), it is not left
    out. *)
Theorem emojiCategoriesFromIDs_missing_is_nil (ids : list string)
    (id : string) (w : World) :
  ids <> [] ->
  categoryCache w !! id = None -> category_not_stored id w ->
  exists l w',
    emojiCategoriesFromIDs ids w = Done (l, None) w' /\
    length l = length ids /\
    forall i, ids !! i = Some id -> l !! i = Some None.
Proof.
  intros Hne Hc Hs. unfold emojiCategoriesFromIDs.
  destruct ids as [|id0 ids]; [done|]. cbn [length Nat.eqb].
  rewrite bind_run.
  destruct (emojiCategoriesFromIDs_loop_missing id (id0 :: ids) [] w Hc Hs)
    as (l & w' & -> & Hlen & Hpos).
  by exists l, w'.
Qed.

Lemma emojiCategoriesFromIDs_missing_is_nil_witness :
  exists l w',
    emojiCategoriesFromIDs ["c1"; "gone"; "c2"]%string (Categories.world [])
    = Done (l, None) w' /\
    length l = length ["c1"; "gone"; "c2"]%string /\
    forall i, ["c1"; "gone"; "c2"]%string !! i = Some "gone"%string ->
              l !! i = Some None.
Proof.
  apply (emojiCategoriesFromIDs_missing_is_nil
           ["c1"; "gone"; "c2"]%string "gone" (Categories.world [])).
  - discriminate.
  - reflexivity.
  - unfold category_not_stored. cbn. repeat constructor; discriminate.
Defined.

(** ** Reads leave storage alone *)

Lemma keeps_tables_ret {A} (a : A) : keeps_tables (mret a : M A).
Proof. by intros w. Qed.

Lemma keeps_tables_bind {A B} (m : M A) (f : A -> M B) :
  keeps_tables m -> (forall a, keeps_tables (f a)) -> keeps_tables (m ≫= f).
Proof.
  intros Hm Hf w. rewrite bind_run. specialize (Hm w).
  destruct (m w) as [msg|a w1]; [done|].
  specialize (Hf a w1). destruct (f a w1); [done|]. congruence.
Qed.

Lemma keeps_tables_panic {A} msg : keeps_tables (panic msg : M A).
Proof. by intros w. Qed.

Lemma keeps_tables_get_world : keeps_tables get_world.
Proof. by intros w. Qed.

Lemma keeps_tables_emit ev : keeps_tables (emit ev).
Proof. by intros w. Qed.

Lemma keeps_tables_next_fault : keeps_tables next_fault.
Proof. intros w. unfold next_fault. by destruct (faults w). Qed.

Lemma keeps_tables_emojiCache_Put e : keeps_tables (emojiCache_Put e).
Proof. by intros w. Qed.

Lemma keeps_tables_categoryCache_Put c : keeps_tables (categoryCache_Put c).
Proof. by intros w. Qed.

Create HintDb frame.
#[local] Hint Resolve @keeps_tables_ret @keeps_tables_panic
  keeps_tables_get_world keeps_tables_emit keeps_tables_next_fault
  keeps_tables_emojiCache_Put keeps_tables_categoryCache_Put : frame.

Ltac frame :=
  repeat first
    [ progress auto with frame
    | apply keeps_tables_bind; [|intros ?]
    | match goal with
      | |- keeps_tables (match ?x with _ => _ end) => destruct x
      | |- keeps_tables (let '(_, _) := ?x in _) => destruct x
      end ].

Lemma keeps_tables_Scan_ids {R} t (rows : Tables -> list R) id q dest :
  keeps_tables (Scan_ids t rows id q dest).
Proof. unfold Scan_ids. frame. Qed.

Lemma keeps_tables_Scan_emoji q dest : keeps_tables (Scan_emoji q dest).
Proof. unfold Scan_emoji. frame. Qed.

Lemma keeps_tables_Scan_category q dest : keeps_tables (Scan_category q dest).
Proof. unfold Scan_category. frame. Qed.

#[local] Hint Resolve @keeps_tables_Scan_ids keeps_tables_Scan_emoji
  keeps_tables_Scan_category : frame.

Lemma keeps_tables_getEmoji cacheGet dbQuery :
  keeps_tables cacheGet -> (forall e, keeps_tables (dbQuery e)) ->
  keeps_tables (getEmoji cacheGet dbQuery).
Proof. intros Hc Hq. unfold getEmoji. frame. Qed.

Lemma keeps_tables_getEmojiCategory cacheGet dbQuery :
  keeps_tables cacheGet -> (forall e, keeps_tables (dbQuery e)) ->
  keeps_tables (getEmojiCategory cacheGet dbQuery).
Proof. intros Hc Hq. unfold getEmojiCategory. frame. Qed.

Lemma keeps_tables_GetEmojiByID id : keeps_tables (GetEmojiByID id).
Proof.
  apply keeps_tables_getEmoji; [unfold emojiCache_GetByID|intros e]; frame.
Qed.

Lemma keeps_tables_GetEmojiCategory id : keeps_tables (GetEmojiCategory id).
Proof.
  apply keeps_tables_getEmojiCategory;
    [unfold categoryCache_GetByID|intros e]; frame.
Qed.

#[local] Hint Resolve keeps_tables_GetEmojiByID keeps_tables_GetEmojiCategory
  : frame.

Lemma keeps_tables_emojisFromIDs_loop ids : forall acc,
  keeps_tables (emojisFromIDs_loop ids acc).
Proof.
  induction ids as [|id ids IH]; intros acc; cbn [emojisFromIDs_loop];
    [frame|].
  apply keeps_tables_bind; [frame|]. intros [emoji err].
  apply keeps_tables_bind; [destruct err; frame|]. intros _. apply IH.
Qed.

Lemma keeps_tables_emojiCategoriesFromIDs_loop ids : forall acc,
  keeps_tables (emojiCategoriesFromIDs_loop ids acc).
Proof.
  induction ids as [|id ids IH]; intros acc;
    cbn [emojiCategoriesFromIDs_loop]; [frame|].
  apply keeps_tables_bind; [frame|]. intros [c err].
  apply keeps_tables_bind; [destruct err; frame|]. intros _. apply IH.
Qed.

Lemma keeps_tables_emojisFromIDs ids : keeps_tables (emojisFromIDs ids).
Proof.
  unfold emojisFromIDs. destruct (length ids =? 0)%nat; [frame|].
  apply keeps_tables_bind; [apply keeps_tables_emojisFromIDs_loop|].
  intros l. frame.
Qed.

Lemma keeps_tables_emojiCategoriesFromIDs ids :
  keeps_tables (emojiCategoriesFromIDs ids).
Proof.
  unfold emojiCategoriesFromIDs. destruct (length ids =? 0)%nat; [frame|].
  apply keeps_tables_bind; [apply keeps_tables_emojiCategoriesFromIDs_loop|].
  intros l. frame.
Qed.

#[local] Hint Resolve keeps_tables_emojisFromIDs
  keeps_tables_emojiCategoriesFromIDs : frame.

Lemma keeps_tables_reverse_ids ids : keeps_tables (reverse_ids ids).
Proof. unfold reverse_ids. frame. Qed.

#[local] Hint Resolve keeps_tables_reverse_ids : frame.

(** X2: no read writes to storage.  Every single-entity read, both batch
    hydrations and the three listings leave all four tables exactly as they
    were, whether they hit the cache, load and cache an entity, fail, or
    skip over failed IDs, and whatever [strings.ToLower] computes. *)
Theorem reads_keep_tables (all : string)
    (strings_ToLower : string -> string) :
  (forall id, keeps_tables (GetEmojiByID id)) /\
  (forall uri, keeps_tables (GetEmojiByURI uri)) /\
  (forall shortcode domain,
      keeps_tables (GetEmojiByShortcodeDomain strings_ToLower shortcode
                                              domain)) /\
  (forall url, keeps_tables (GetEmojiByStaticURL url)) /\
  (forall id, keeps_tables (GetEmojiCategory id)) /\
  (forall name,
      keeps_tables (GetEmojiCategoryByName strings_ToLower name)) /\
  (forall ids, keeps_tables (emojisFromIDs ids)) /\
  (forall ids, keeps_tables (emojiCategoriesFromIDs ids)) /\
  (forall domain includeDisabled includeEnabled shortcode maxSD minSD limit,
      keeps_tables (GetEmojis all domain includeDisabled includeEnabled
                              shortcode maxSD minSD limit)) /\
  keeps_tables GetUseableEmojis /\
  keeps_tables GetEmojiCategories.
Proof.
  split; [apply keeps_tables_GetEmojiByID|].
  split; [intros uri; apply keeps_tables_getEmoji;
          [unfold emojiCache_GetByURI|intros e]; frame|].
  split; [intros sc d; apply keeps_tables_getEmoji;
          [unfold emojiCache_GetByShortcodeDomain|intros e]; frame|].
  split; [intros url; apply keeps_tables_getEmoji;
          [unfold emojiCache_GetByImageStaticURL|intros e]; frame|].
  split; [apply keeps_tables_GetEmojiCategory|].
  split; [intros name; apply keeps_tables_getEmojiCategory;
          [unfold categoryCache_GetByName|intros e]; frame|].
  split; [apply keeps_tables_emojisFromIDs|].
  split; [apply keeps_tables_emojiCategoriesFromIDs|].
  split; [|split].
  - intros. unfold GetEmojis. cbv zeta.
    apply keeps_tables_bind; [frame|]. intros w.
    destruct (shortcode_domain (dialect w)); [|frame].
    destruct (GetEmojis_subQuery _ _ _ _ _ _ _ _ _) as [q []]; frame.
  - unfold GetUseableEmojis. frame.
  - unfold GetEmojiCategories. frame.
Qed.

(** ** Listings: panics and failures *)

Lemma emojisFromIDs_total ids w :
  exists r w', emojisFromIDs ids w = Done r w'.
Proof.
  unfold emojisFromIDs. destruct (length ids =? 0)%nat; [by eexists _, _|].
  rewrite bind_run.
  destruct (emojisFromIDs_loop_length ids [] w) as (l & w' & -> & _).
  by eexists _, _.
Qed.

Lemma emojiCategoriesFromIDs_total ids w :
  exists r w', emojiCategoriesFromIDs ids w = Done r w'.
Proof.
  unfold emojiCategoriesFromIDs.
  destruct (length ids =? 0)%nat; [by eexists _, _|].
  rewrite bind_run.
  destruct (emojiCategoriesFromIDs_loop_length ids [] w) as (l & w' & -> & _).
  by eexists _, _.
Qed.

Lemma GetUseableEmojis_run w :
  GetUseableEmojis w =
  let q := OrderBy Emoji.Shortcode ASC
             (Where (IS_NULL emoji_domain)
                (Where (EQ emoji_disabled false)
                   (Where (EQ emoji_visible_in_picker true) NewSelect))) in
  let w1 := after_statement (EvSelect emojis_table) w in
  match scheduled 0 w with
  | Some err => Done ([], Some (ProcessError err)) w1
  | None => emojisFromIDs (Emoji.ID <$> run_select q (emojis (tables w))) w1
  end.
Proof.
  unfold GetUseableEmojis. cbv zeta. rewrite bind_run, Scan_ids_run.
  by destruct (scheduled 0 w).
Qed.

Lemma GetEmojiCategories_run w :
  GetEmojiCategories w =
  let q := OrderBy EmojiCategory.Name ASC NewSelect in
  let w1 := after_statement (EvSelect emoji_categories_table) w in
  match scheduled 0 w with
  | Some err => Done ([], Some (ProcessError err)) w1
  | None =>
      emojiCategoriesFromIDs
        (EmojiCategory.ID <$> run_select q (emoji_categories (tables w))) w1
  end.
Proof.
  unfold GetEmojiCategories. cbv zeta. rewrite bind_run, Scan_ids_run.
  by destruct (scheduled 0 w).
Qed.

(** X3: [GetEmojis] panics exactly when the connection's dialect is neither
    SQLite nor Postgres: with such a dialect it panics whatever the
    arguments, the tables and the failures scheduled; with one of the two
    dialects it always returns, whatever the arguments, the tables and the
    failures scheduled (in particular the reversal loop never indexes out
    of range).  [GetUseableEmojis] and [GetEmojiCategories] never panic,
    whatever the dialect. *)
Theorem GetEmojis_panics_only_without_dialect (all domain : string)
    (includeDisabled includeEnabled : bool)
    (shortcode maxSD minSD : string) (limit : Z) (w : World) :
  match dialect w with
  | OtherDialect =>
      GetEmojis all domain includeDisabled includeEnabled shortcode maxSD
                minSD limit w
      = Panic "db conn was neither pg not sqlite"
  | _ =>
      exists r w',
        GetEmojis all domain includeDisabled includeEnabled shortcode maxSD
                  minSD limit w = Done r w'
  end /\
  (exists r w', GetUseableEmojis w = Done r w') /\
  (exists r w', GetEmojiCategories w = Done r w').
Proof.
  split; [|split].
  - assert (Hrun : forall key, shortcode_domain (dialect w) = Some key ->
               exists r w',
                 GetEmojis all domain includeDisabled includeEnabled shortcode
                           maxSD minSD limit w = Done r w').
    { intros key Hkey. unfold GetEmojis. cbv zeta.
      rewrite bind_run, get_world_run, Hkey.
      destruct (GetEmojis_subQuery _ _ _ _ _ _ _ _ _) as [q o].
      rewrite bind_run, Scan_ids_run.
      destruct (scheduled 0 w); [by eexists _, _|].
      rewrite bind_run. destruct o.
      - rewrite ret_run. apply emojisFromIDs_total.
      - unfold reverse_ids. rewrite reverse_loop_reverse, ret_run.
        apply emojisFromIDs_total. }
    destruct (dialect w) eqn:Hd.
    + eapply Hrun. first [by rewrite Hd | reflexivity].
    + eapply Hrun. first [by rewrite Hd | reflexivity].
    + unfold GetEmojis. cbv zeta. by rewrite bind_run, get_world_run, Hd.
  - rewrite GetUseableEmojis_run. cbv zeta.
    destruct (scheduled 0 w); [by eexists _, _|apply emojisFromIDs_total].
  - rewrite GetEmojiCategories_run. cbv zeta.
    destruct (scheduled 0 w);
      [by eexists _, _|apply emojiCategoriesFromIDs_total].
Qed.

(** X4: a listing whose statement fails hydrates nothing.  When the next
    statement is scheduled to fail with [err], each of the three listings
    returns a nil list with the translated error after that one statement:
    no read by ID follows, and tables and caches are as they were. *)
Theorem listing_failure_stops (all domain : string)
    (includeDisabled includeEnabled : bool)
    (shortcode maxSD minSD : string) (limit : Z) (w : World) (err : error) :
  scheduled 0 w = Some err ->
  (dialect w <> OtherDialect ->
   GetEmojis all domain includeDisabled includeEnabled shortcode maxSD minSD
             limit w
   = Done ([], Some (ProcessError err))
          (after_statement (EvSelect emojis_table) w)) /\
  GetUseableEmojis w
  = Done ([], Some (ProcessError err))
         (after_statement (EvSelect emojis_table) w) /\
  GetEmojiCategories w
  = Done ([], Some (ProcessError err))
         (after_statement (EvSelect emoji_categories_table) w) /\
  emojiCache (after_statement (EvSelect emojis_table) w) = emojiCache w /\
  tables (after_statement (EvSelect emojis_table) w) = tables w.
Proof.
  intros Hs. split; [|split; [|split; [|by split]]].
  - intros Hd. unfold GetEmojis. cbv zeta. rewrite bind_run, get_world_run.
    destruct (shortcode_domain (dialect w)) as [key|] eqn:Hkey;
      [|by destruct (dialect w)].
    destruct (GetEmojis_subQuery _ _ _ _ _ _ _ _ _) as [q o].
    by rewrite bind_run, Scan_ids_run, Hs.
  - by rewrite GetUseableEmojis_run, Hs.
  - by rewrite GetEmojiCategories_run, Hs.
Qed.

Lemma listing_failure_stops_witness :
  GetUseableEmojis (Dataset.world PG [Some (backend_failure "timeout")])
  = Done ([], Some (ProcessError (backend_failure "timeout")))
         (after_statement (EvSelect emojis_table)
            (Dataset.world PG [Some (backend_failure "timeout")])).
Proof.
  apply (listing_failure_stops "all" "" false false "" "" "" 0
           (Dataset.world PG [Some (backend_failure "timeout")])
           (backend_failure "timeout")).
  reflexivity.
Defined.

(** ** Listings: the shortcode filter, the limit and the cursors *)

(** X5: the shortcode filter of [GetEmojis] is case-insensitive on both
    sides.  [GetEmojis] hydrates the IDs of its page; with a non-empty
    shortcode the page is the page of the query without that filter over
    the rows whose lowercased shortcode equals the lowercased argument; two
    arguments that differ only in case give the same page. *)
Theorem GetEmojis_shortcode_filter (all : string) (key : Emoji.t -> string)
    (domain : string) (includeDisabled includeEnabled : bool)
    (shortcode maxSD minSD : string) (limit : Z) :
  shortcode <> ""%string ->
  let page sc :=
    GetEmojis_page all key domain includeDisabled includeEnabled sc maxSD
                   minSD limit in
  (forall w,
      shortcode_domain (dialect w) = Some key -> scheduled 0 w = None ->
      GetEmojis all domain includeDisabled includeEnabled shortcode maxSD
                minSD limit w
      = emojisFromIDs (Emoji.ID <$> page shortcode (emojis (tables w)))
                      (after_statement (EvSelect emojis_table) w)) /\
  (forall rows,
      page shortcode rows
      = page ""%string
             (List.filter
                (fun e => bool_decide (lower (Emoji.Shortcode e)
                                       = lower shortcode)) rows)) /\
  (forall rows,
      Forall (fun e => lower (Emoji.Shortcode e) = lower shortcode)
             (page shortcode rows)) /\
  (forall shortcode' rows,
      shortcode' <> ""%string -> lower shortcode' = lower shortcode ->
      page shortcode' rows = page shortcode rows).
Proof.
  intros Hsc page.
  assert (Hpage : forall sc rows, sc <> ""%string ->
             page sc rows
             = page ""%string
                    (List.filter
                       (fun e => bool_decide (lower (Emoji.Shortcode e)
                                              = lower sc)) rows)).
  { intros sc rows Hne. apply GetEmojis_page_restrict. intros e.
    unfold shortcode_matches. rewrite (bool_decide_false (sc = ""%string)) by done.
    cbn. rewrite !andb_true_r.
    by destruct (domain_matches all domain e),
      (disabled_matches includeDisabled includeEnabled e), (bool_decide _). }
  split; [intros w Hkey Hok; by apply GetEmojis_run|].
  split; [intros rows; by apply Hpage|]. split.
  - intros rows. eapply Forall_impl; [apply GetEmojis_page_filtered|].
    intros e (_ & _ & Hm & _). unfold shortcode_matches in Hm.
    rewrite bool_decide_false in Hm by done.
    by apply bool_decide_eq_true in Hm.
  - intros sc' rows Hne Heq.
    by rewrite (Hpage sc' rows Hne), (Hpage shortcode rows Hsc), Heq.
Qed.

Lemma GetEmojis_shortcode_filter_witness :
  GetEmojis_page "all" sort_key "all" false false "CAT" "" "" 0
                 (emojis Dataset.rows)
  = GetEmojis_page "all" sort_key "all" false false "" "" "" 0
      (List.filter
         (fun e => bool_decide (lower (Emoji.Shortcode e) = lower "CAT"))
         (emojis Dataset.rows)).
Proof.
  assert (H : "CAT"%string <> ""%string) by discriminate.
  exact (proj1 (proj2 (GetEmojis_shortcode_filter "all" sort_key "all" false
                         false "CAT" "" "" 0 H)) (emojis Dataset.rows)).
Defined.

(** X6: what a limited page holds.  [GetEmojis] hydrates the IDs of its
    page, in the page's order.  Take all rows that pass the five
    filters, in ascending order of the sort key.  Without a backward cursor
    the page is a prefix of that listing (the rows right after the forward
    cursor); with a backward cursor it is a suffix (the rows right before
    the backward cursor).  A positive limit caps the page at that many rows
    and the page is shorter only when fewer rows pass; a zero or negative
    limit keeps every row. *)
Theorem GetEmojis_limit_keeps_adjacent (all : string)
    (key : Emoji.t -> string) (domain : string)
    (includeDisabled includeEnabled : bool)
    (shortcode maxSD minSD : string) (limit : Z) (rows : list Emoji.t) :
  let page := GetEmojis_page all key domain includeDisabled includeEnabled
                             shortcode maxSD minSD limit rows in
  let passing :=
    List.filter (listed all key domain includeDisabled includeEnabled
                        shortcode maxSD minSD) rows in
  (forall w,
      shortcode_domain (dialect w) = Some key -> scheduled 0 w = None ->
      GetEmojis all domain includeDisabled includeEnabled shortcode maxSD
                minSD limit w
      = emojisFromIDs (Emoji.ID <$> GetEmojis_page all key domain includeDisabled
                                       includeEnabled shortcode maxSD minSD
                                       limit (emojis (tables w)))
                      (after_statement (EvSelect emojis_table) w)) /\
  exists rest,
    Sorted (key_le key)
           (if bool_decide (minSD = ""%string) then page ++ rest
            else rest ++ page) /\
    page ++ rest ≡ₚ passing /\
    (if limit >? 0
     then length page = Nat.min (Z.to_nat limit) (length passing)
     else rest = []).
Proof.
  intros page passing.
  split; [intros w Hkey Hok; by apply GetEmojis_run|].
  unfold page, GetEmojis_page.
  pose proof (subQuery_where_ok all key domain includeDisabled includeEnabled
                shortcode maxSD minSD limit) as Hw.
  pose proof (subQuery_order all key domain includeDisabled includeEnabled
                shortcode maxSD minSD limit) as [Ho1 Ho2].
  pose proof (subQuery_limit all key domain includeDisabled includeEnabled
                shortcode maxSD minSD limit) as Hl.
  destruct (GetEmojis_subQuery _ _ _ _ _ _ _ _ _) as [q o].
  cbn [fst snd] in *.
  assert (Hf : List.filter (where_ok q) rows = passing)
    by (by apply List.filter_ext).
  unfold run_select, order_rows, limit_rows. rewrite Ho2, Hl, Hf.
  destruct (bool_decide (minSD = ""%string)); subst o.
  - pose proof (key_le_total key) as Htotal.
    pose proof (Sorted_merge_sort (key_le key) passing) as Hs.
    pose proof (merge_sort_Permutation (key_le key) passing) as Hp.
    set (sorted := merge_sort (key_le key) passing) in *.
    destruct (limit >? 0).
    + exists (drop (Z.to_nat limit) sorted). rewrite take_drop.
      split; [done|]. split; [done|].
      by rewrite length_take, Hp.
    + exists []. rewrite app_nil_r. by repeat split.
  - pose proof (key_ge_total key) as Htotal.
    pose proof (Sorted_merge_sort (key_ge key) passing) as Hs.
    pose proof (merge_sort_Permutation (key_ge key) passing) as Hp.
    set (sorted := merge_sort (key_ge key) passing) in *.
    apply Sorted_reverse in Hs.
    destruct (limit >? 0).
    + exists (reverse (drop (Z.to_nat limit) sorted)).
      rewrite <- reverse_app, take_drop. split; [exact Hs|].
      split.
      * rewrite !reverse_Permutation. by rewrite take_drop.
      * by rewrite length_reverse, length_take, Hp.
    + exists []. rewrite app_nil_r. cbn [app]. split; [exact Hs|].
      split; [by rewrite reverse_Permutation|done].
Qed.

(** X7: both cursors at once.  When a forward and a backward cursor are
    both given, the query of [GetEmojis] runs in descending order and the page holds only
    rows whose sort key lies strictly between the two lowercased cursors,
    in ascending order; if the forward cursor is not below the backward one
    the page is empty. *)
Theorem GetEmojis_between_cursors (all : string) (key : Emoji.t -> string)
    (domain : string) (includeDisabled includeEnabled : bool)
    (shortcode maxSD minSD : string) (limit : Z) (rows : list Emoji.t) :
  maxSD <> ""%string -> minSD <> ""%string ->
  let page := GetEmojis_page all key domain includeDisabled includeEnabled
                             shortcode maxSD minSD limit rows in
  (forall w,
      shortcode_domain (dialect w) = Some key -> scheduled 0 w = None ->
      GetEmojis all domain includeDisabled includeEnabled shortcode maxSD
                minSD limit w
      = emojisFromIDs (Emoji.ID <$> GetEmojis_page all key domain includeDisabled
                                       includeEnabled shortcode maxSD minSD
                                       limit (emojis (tables w)))
                      (after_statement (EvSelect emojis_table) w)) /\
  (GetEmojis_subQuery all key domain includeDisabled includeEnabled shortcode
                      maxSD minSD limit).2 = DESC /\
  Forall (fun e => String.ltb (lower maxSD) (key e) = true /\
                   String.ltb (key e) (lower minSD) = true) page /\
  Sorted (key_le key) page /\
  (String.ltb (lower maxSD) (lower minSD) = false -> page = []).
Proof.
  intros Hmax Hmin page.
  assert (Hbetween :
            Forall (fun e => String.ltb (lower maxSD) (key e) = true /\
                             String.ltb (key e) (lower minSD) = true) page).
  { eapply Forall_impl; [apply GetEmojis_page_filtered|].
    intros e (_ & _ & _ & Ha & Hb & _).
    unfold after_cursor, before_cursor in *.
    by rewrite bool_decide_false in Ha, Hb. }
  split; [intros w Hkey Hok; by apply GetEmojis_run|].
  split; [|split; [done|split; [apply GetEmojis_page_ascending|]]].
  - destruct (subQuery_order all key domain includeDisabled includeEnabled
                shortcode maxSD minSD limit) as [-> _].
    by rewrite bool_decide_false.
  - intros Hlt. destruct page as [|e page']; [done|].
    apply Forall_cons in Hbetween as [[Ha Hb] _]. exfalso.
    unfold String.ltb in *.
    destruct (String.compare (lower maxSD) (key e)) eqn:H1; try discriminate.
    destruct (String.compare (key e) (lower minSD)) eqn:H2; try discriminate.
    assert (Hle1 : String.le (lower maxSD) (key e))
      by (unfold String.le, String.leb; by rewrite H1).
    assert (Hle2 : String.le (key e) (lower minSD))
      by (unfold String.le, String.leb; by rewrite H2).
    assert (Hle : String.le (lower maxSD) (lower minSD)) by (by etrans).
    unfold String.le, String.leb in Hle.
    destruct (String.compare (lower maxSD) (lower minSD)) eqn:H3;
      try done.
    apply String.compare_eq_iff in H3. rewrite H3 in H1.
    rewrite String.compare_antisym, H2 in H1. discriminate.
Qed.

Lemma GetEmojis_between_cursors_witness :
  Forall (fun e => String.ltb (lower "cat@") (sort_key e) = true /\
                   String.ltb (sort_key e) (lower "dog@") = true)
         (GetEmojis_page "all" sort_key "all" false false "" "cat@" "dog@" 0
                         (emojis Dataset.rows)).
Proof.
  assert (H1 : "cat@"%string <> ""%string) by discriminate.
  assert (H2 : "dog@"%string <> ""%string) by discriminate.
  exact (proj1 (proj2 (proj2 (GetEmojis_between_cursors "all" sort_key "all"
                                false false "" "cat@" "dog@" 0
                                (emojis Dataset.rows) H1 H2)))).
Defined.

(** ** The picker listing and the category listing *)

Lemma holds_EQ_visible b e :
  holds (EQ emoji_visible_in_picker b) e
  = bool_decide (Emoji.VisibleInPicker e = b).
Proof. unfold holds, EQ, emoji_visible_in_picker. cbn. by case_bool_decide. Qed.

(** X8: [GetUseableEmojis] lists the emoji that are visible in the picker,
    enabled and local, in ascending bytewise order of their shortcode as
    stored (no lowercasing).  When its statement is not scheduled to fail it
    hydrates exactly those rows, each once; when no row qualifies it returns
    the no-entries error instead of an empty list; and when nothing at all
    is scheduled to fail the caller receives the emoji of those IDs in that
    order. *)
Theorem GetUseableEmojis_selects (w : World) :
  scheduled 0 w = None ->
  let w1 := after_statement (EvSelect emojis_table) w in
  exists picked,
    GetUseableEmojis w = emojisFromIDs (Emoji.ID <$> picked) w1 /\
    picked ≡ₚ List.filter useable (emojis (tables w)) /\
    Sorted (key_le Emoji.Shortcode) picked /\
    (picked = [] ->
     GetUseableEmojis w = Done ([], Some db_ErrNoEntries) w1) /\
    (picked <> [] -> cache_keyed_by_ID w -> faults w = [] ->
     exists l w',
       GetUseableEmojis w = Done (l, None) w' /\
       ids_of l = Some <$> (Emoji.ID <$> picked)).
Proof.
  intros Hs w1. rewrite GetUseableEmojis_run, Hs. cbv zeta. fold w1.
  set (q := OrderBy Emoji.Shortcode ASC _).
  assert (Hw : forall e, where_ok q e = useable e).
  { intros e. unfold q, useable.
    rewrite where_ok_OrderBy, !where_ok_Where, where_ok_NewSelect,
      holds_IS_NULL_domain, holds_EQ_disabled, holds_EQ_visible.
    cbn [andb]. by rewrite andb_assoc. }
  exists (run_select q (emojis (tables w))).
  assert (Hrun : run_select q (emojis (tables w))
                 = merge_sort (key_le Emoji.Shortcode)
                     (List.filter useable (emojis (tables w)))).
  { unfold run_select, order_rows, limit_rows. cbn [q_order q_limit q OrderBy].
    by rewrite (List.filter_ext _ _ Hw). }
  pose proof (key_le_total Emoji.Shortcode) as Htotal.
  split; [done|]. split; [by rewrite Hrun, merge_sort_Permutation|].
  split; [rewrite Hrun; by apply Sorted_merge_sort|]. split.
  - by intros ->.
  - intros Hne Hwf Hf.
    pose proof (run_select_Forall q (emojis (tables w))) as Hin.
    destruct (run_select q (emojis (tables w))) as [|e picked]; [done|].
    unfold emojisFromIDs. cbn [fmap list_fmap length Nat.eqb].
    rewrite bind_run.
    destruct (emojisFromIDs_loop_stored (Emoji.ID <$> e :: picked) [] w1)
      as (l & w' & Hloop & Hl).
    + done.
    + unfold w1. cbn. by rewrite Hf.
    + apply Forall_fmap. eapply Forall_impl; [exact Hin|].
      intros r [_ Hr]. by exists r.
    + cbn [fmap list_fmap] in Hloop. rewrite Hloop, ret_run.
      by exists l, w'.
Qed.

Lemma GetUseableEmojis_selects_witness :
  exists picked,
    GetUseableEmojis (Dataset.world PG [])
    = emojisFromIDs (Emoji.ID <$> picked)
        (after_statement (EvSelect emojis_table) (Dataset.world PG [])) /\
    picked ≡ₚ List.filter useable (emojis (tables (Dataset.world PG []))) /\
    Sorted (key_le Emoji.Shortcode) picked /\
    (picked = [] ->
     GetUseableEmojis (Dataset.world PG [])
     = Done ([], Some db_ErrNoEntries)
            (after_statement (EvSelect emojis_table) (Dataset.world PG []))) /\
    (picked <> [] -> cache_keyed_by_ID (Dataset.world PG []) ->
     faults (Dataset.world PG []) = [] ->
     exists l w',
       GetUseableEmojis (Dataset.world PG []) = Done (l, None) w' /\
       ids_of l = Some <$> (Emoji.ID <$> picked)).
Proof. apply (GetUseableEmojis_selects (Dataset.world PG [])). reflexivity. Defined.

(** X9: [GetEmojiCategories] lists every stored category, each once, in
    ascending bytewise order of its name; with an empty table it returns
    the no-entries error instead of an empty list. *)
Theorem GetEmojiCategories_selects (w : World) :
  scheduled 0 w = None ->
  let w1 := after_statement (EvSelect emoji_categories_table) w in
  exists picked,
    GetEmojiCategories w
    = emojiCategoriesFromIDs (EmojiCategory.ID <$> picked) w1 /\
    picked ≡ₚ emoji_categories (tables w) /\
    Sorted (key_le EmojiCategory.Name) picked /\
    (emoji_categories (tables w) = [] ->
     GetEmojiCategories w = Done ([], Some db_ErrNoEntries) w1).
Proof.
  intros Hs w1. rewrite GetEmojiCategories_run, Hs. cbv zeta. fold w1.
  set (q := OrderBy EmojiCategory.Name ASC NewSelect).
  assert (Hrun : forall rows,
             run_select q rows = merge_sort (key_le EmojiCategory.Name) rows).
  { intros rows. unfold run_select, order_rows, limit_rows.
    cbn [q_order q_limit q OrderBy]. f_equal.
    induction rows as [|r rows IH]; [done|]. cbn. by rewrite IH. }
  pose proof (key_le_total EmojiCategory.Name) as Htotal.
  exists (run_select q (emoji_categories (tables w))).
  split; [done|]. split; [by rewrite Hrun, merge_sort_Permutation|].
  split; [rewrite Hrun; by apply Sorted_merge_sort|].
  by intros ->.
Qed.

Lemma GetEmojiCategories_selects_witness :
  exists picked,
    GetEmojiCategories (Categories.world [])
    = emojiCategoriesFromIDs (EmojiCategory.ID <$> picked)
        (after_statement (EvSelect emoji_categories_table)
                         (Categories.world [])) /\
    picked ≡ₚ emoji_categories (tables (Categories.world [])) /\
    Sorted (key_le EmojiCategory.Name) picked /\
    (emoji_categories (tables (Categories.world [])) = [] ->
     GetEmojiCategories (Categories.world [])
     = Done ([], Some db_ErrNoEntries)
            (after_statement (EvSelect emoji_categories_table)
                             (Categories.world []))).
Proof. apply (GetEmojiCategories_selects (Categories.world [])). reflexivity. Defined.

(** ** Deleting *)

Lemma scheduled_set_emojiCache n c w :
  scheduled n (set_emojiCache c w) = scheduled n w.
Proof. reflexivity. Qed.

(** When none of its three statements is scheduled to fail the cascade
    commits; the schedule has then moved on by three. *)
Lemma DeleteEmojiByID_commits id w :
  scheduled 0 w = None -> scheduled 1 w = None -> scheduled 2 w = None ->
  exists w1,
    DeleteEmojiByID id w = Done None w1 /\
    tables w1 = cascade_tables id (tables w) /\
    emojiCache w1 = delete id (emojiCache w) /\
    (forall n, scheduled n w1 = scheduled (3 + n) w).
Proof.
  intros H0 H1 H2.
  unfold DeleteEmojiByID, RunInTx, DeleteEmojiByID_tx.
  autorewrite with run. rewrite Exec_delete_run. sched. rewrite H0.
  autorewrite with run. rewrite Exec_delete_run. sched. rewrite H1.
  autorewrite with run. rewrite Exec_delete_run. sched. rewrite H2.
  autorewrite with run. eexists. split; [reflexivity|].
  split; [reflexivity|]. split; [reflexivity|].
  intros n. unfold after_emoji_Invalidate. sched.
  rewrite scheduled_set_emojiCache. by sched.
Qed.

Lemma filter_keep_all {R} (f : R -> bool) rows :
  Forall (fun r => f r = true) rows -> List.filter f rows = rows.
Proof.
  induction 1 as [|r rows Hr _ IH]; [done|]. cbn. by rewrite Hr, IH.
Qed.

Lemma Forall_filter_ne {R} (f : R -> string) id rows :
  Forall (fun r => f r <> id)
         (List.filter (fun r => negb (bool_decide (f r = id))) rows).
Proof.
  apply Forall_forall. intros r Hr. apply list_elem_of_In, filter_In in Hr.
  destruct Hr as [_ Hr]. by case_bool_decide.
Qed.

(** X10: a committed delete removes the emoji for every later read.  When
    none of the three statements is scheduled to fail, [DeleteEmojiByID]
    returns nil; afterwards no stored emoji and no junction row carries the
    ID, every row of another ID is still there in its place, and a read of
    the ID (its statement not scheduled to fail) goes to storage and
    returns the not-found error. *)
Theorem DeleteEmojiByID_then_read (id : string) (w : World) :
  scheduled 0 w = None -> scheduled 1 w = None -> scheduled 2 w = None ->
  scheduled 3 w = None ->
  exists w1 w2,
    DeleteEmojiByID id w = Done None w1 /\
    emojis (tables w1)
    = List.filter (fun e => negb (bool_decide (Emoji.ID e = id)))
                  (emojis (tables w)) /\
    status_to_emojis (tables w1)
    = List.filter (fun j => negb (bool_decide (emoji_id j = id)))
                  (status_to_emojis (tables w)) /\
    account_to_emojis (tables w1)
    = List.filter (fun j => negb (bool_decide (emoji_id j = id)))
                  (account_to_emojis (tables w)) /\
    emoji_categories (tables w1) = emoji_categories (tables w) /\
    emoji_not_stored id w1 /\
    GetEmojiByID id w1 = Done (None, Some db_ErrNotFound) w2 /\
    events w2 = events w1 ++ [EvSelect emojis_table].
Proof.
  intros H0 H1 H2 H3.
  destruct (DeleteEmojiByID_commits id w H0 H1 H2) as (w1 & Hdel & HT & Hc & Hs).
  assert (Hgone : emoji_not_stored id w1).
  { unfold emoji_not_stored. rewrite HT. cbn. apply Forall_filter_ne. }
  exists w1. eexists. split; [exact Hdel|].
  rewrite HT. do 4 (split; [reflexivity|]). split; [exact Hgone|].
  rewrite GetEmojiByID_run, Hc, lookup_delete_eq. cbv zeta.
  rewrite (Hs 0%nat). cbn [Nat.add]. rewrite H3.
  unfold stored_emoji. rewrite find_id_None by exact Hgone.
  split; reflexivity.
Qed.

Lemma DeleteEmojiByID_then_read_witness :
  exists w1 w2,
    DeleteEmojiByID "id1" (Dataset.world SQLite []) = Done None w1 /\
    emojis (tables w1)
    = List.filter (fun e => negb (bool_decide (Emoji.ID e = "id1"%string)))
                  (emojis (tables (Dataset.world SQLite []))) /\
    status_to_emojis (tables w1)
    = List.filter (fun j => negb (bool_decide (emoji_id j = "id1"%string)))
                  (status_to_emojis (tables (Dataset.world SQLite []))) /\
    account_to_emojis (tables w1)
    = List.filter (fun j => negb (bool_decide (emoji_id j = "id1"%string)))
                  (account_to_emojis (tables (Dataset.world SQLite []))) /\
    emoji_categories (tables w1)
    = emoji_categories (tables (Dataset.world SQLite [])) /\
    emoji_not_stored "id1" w1 /\
    GetEmojiByID "id1" w1 = Done (None, Some db_ErrNotFound) w2 /\
    events w2 = events w1 ++ [EvSelect emojis_table].
Proof.
  apply (DeleteEmojiByID_then_read "id1" (Dataset.world SQLite []));
    reflexivity.
Defined.

(** X11: deleting an ID that nothing refers to is not an error.  When no
    stored emoji and no junction row carries the ID and no statement is
    scheduled to fail, [DeleteEmojiByID] still sends its three deletes,
    commits and returns nil, and every table is exactly as it was. *)
Theorem DeleteEmojiByID_absent_is_noop (id : string) (w : World) :
  scheduled 0 w = None -> scheduled 1 w = None -> scheduled 2 w = None ->
  emoji_not_stored id w ->
  Forall (fun j => emoji_id j <> id) (status_to_emojis (tables w)) ->
  Forall (fun j => emoji_id j <> id) (account_to_emojis (tables w)) ->
  exists w1,
    DeleteEmojiByID id w = Done None w1 /\ tables w1 = tables w.
Proof.
  intros H0 H1 H2 He Hst Hac.
  destruct (DeleteEmojiByID_commits id w H0 H1 H2) as (w1 & Hdel & HT & _).
  exists w1. split; [exact Hdel|]. rewrite HT.
  assert (E1 : List.filter (fun e => negb (bool_decide (Emoji.ID e = id)))
                           (emojis (tables w)) = emojis (tables w)).
  { apply filter_keep_all. eapply Forall_impl; [exact He|].
    intros e Hne. cbv beta. by rewrite bool_decide_false. }
  assert (E2 : List.filter (fun j => negb (bool_decide (emoji_id j = id)))
                           (status_to_emojis (tables w))
               = status_to_emojis (tables w)).
  { apply filter_keep_all. eapply Forall_impl; [exact Hst|].
    intros e Hne. cbv beta. by rewrite bool_decide_false. }
  assert (E3 : List.filter (fun j => negb (bool_decide (emoji_id j = id)))
                           (account_to_emojis (tables w))
               = account_to_emojis (tables w)).
  { apply filter_keep_all. eapply Forall_impl; [exact Hac|].
    intros e Hne. cbv beta. by rewrite bool_decide_false. }
  unfold cascade_tables, delete_rows. cbn. rewrite E1, E2, E3.
  by destruct (tables w).
Qed.

Lemma DeleteEmojiByID_absent_is_noop_witness :
  exists w1,
    DeleteEmojiByID "nobody" (Dataset.world SQLite []) = Done None w1 /\
    tables w1 = tables (Dataset.world SQLite []).
Proof.
  apply (DeleteEmojiByID_absent_is_noop "nobody" (Dataset.world SQLite []));
    try reflexivity; cbn; repeat constructor; discriminate.
Defined.

(** ** Updating *)

(** What [UpdateEmoji] does, case by case. *)
Lemma UpdateEmoji_run emoji columns w :
  UpdateEmoji emoji columns w =
  let e := Emoji.set_UpdatedAt (clock w) emoji in
  let w1 := after_statement (EvUpdate emojis_table (Emoji.ID emoji) columns)
                            w in
  if forallb is_emoji_field columns then
    match scheduled 0 w with
    | Some raw => Done (e, None, Some (ProcessError raw)) w1
    | None =>
        match set_columns columns with
        | [] => Done (e, None, Some (db_ErrBackend "syntax error")) w1
        | set =>
            if forallb is_emoji_column set then
              Done (e, Some e, None)
                   (after_emoji_Invalidate (Emoji.ID emoji)
                      (set_tables
                         (mkTables
                            (update_rows e (Emoji.ID emoji) set
                                         (emojis (tables w)))
                            (emoji_categories (tables w))
                            (status_to_emojis (tables w))
                            (account_to_emojis (tables w)))
                         w1))
            else Done (e, None, Some (db_ErrBackend "no such column")) w1
        end
    end
  else Done (e, None, Some (db_ErrBackend "does not have column")) w.
Proof.
  unfold UpdateEmoji. rewrite bind_run. unfold time_Now.
  rewrite bind_run, Exec_update_run. cbv zeta.
  destruct (forallb is_emoji_field columns); [|by rewrite ret_run].
  destruct (scheduled 0 w); [by rewrite ret_run|].
  destruct (set_columns columns) as [|c set]; [by rewrite ret_run|].
  destruct (forallb is_emoji_column (c :: set)); [|by rewrite ret_run].
  by rewrite bind_run, emojiCache_Invalidate_run, ret_run.
Qed.

Lemma dataset_rejected_updates :
  UpdateEmoji Dataset.emoji1 ["id"%string] (Dataset.world SQLite [])
  = Done (Emoji.set_UpdatedAt 1000 Dataset.emoji1, None,
          Some (db_ErrBackend "syntax error"))
         (after_statement (EvUpdate emojis_table "id1" ["id"%string])
                          (Dataset.world SQLite [])) /\
  UpdateEmoji Dataset.emoji1 ["category"%string] (Dataset.world SQLite [])
  = Done (Emoji.set_UpdatedAt 1000 Dataset.emoji1, None,
          Some (db_ErrBackend "no such column"))
         (after_statement (EvUpdate emojis_table "id1" ["category"%string])
                          (Dataset.world SQLite [])) /\
  UpdateEmoji Dataset.emoji1 ["colour"%string] (Dataset.world SQLite [])
  = Done (Emoji.set_UpdatedAt 1000 Dataset.emoji1, None,
          Some (db_ErrBackend "does not have column"))
         (Dataset.world SQLite []).
Proof. repeat split; vm_compute; reflexivity. Qed.

(** X12: a failed [UpdateEmoji] changes nothing but the caller's struct.
    When the call returns an error, the returned pointer is nil, no table
    and no cache entry has changed (the cache is not invalidated), and the
    struct passed in has nevertheless had its UpdatedAt set to the current
    time.  The error is the translation of what the update returned, and at
    most the one update statement has been sent: it has been sent exactly
    when every listed name is a field of the model, and if it was scheduled
    to fail the error is that failure.  Examples: listing only the key
    sends a statement that storage rejects, and so does listing the relation
    field "category"; a name that is no field of the model fails before
    anything is sent. *)
Theorem UpdateEmoji_failure (emoji : Emoji.t) (columns : list string)
    (w : World) (emoji' : Emoji.t) (ret : option Emoji.t) (err : error)
    (w' : World) :
  UpdateEmoji emoji columns w = Done (emoji', ret, Some err) w' ->
  let sent := after_statement
                (EvUpdate emojis_table (Emoji.ID emoji) columns) w in
  (ret = None /\
   emoji' = Emoji.set_UpdatedAt (clock w) emoji /\
   tables w' = tables w /\
   emojiCache w' = emojiCache w /\
   categoryCache w' = categoryCache w /\
   (exists raw, err = ProcessError raw) /\
   w' = (if forallb is_emoji_field columns then sent else w) /\
   (forall raw,
       forallb is_emoji_field columns = true -> scheduled 0 w = Some raw ->
       err = ProcessError raw)) /\
  (UpdateEmoji Dataset.emoji1 ["id"%string] (Dataset.world SQLite [])
   = Done (Emoji.set_UpdatedAt 1000 Dataset.emoji1, None,
           Some (db_ErrBackend "syntax error"))
          (after_statement (EvUpdate emojis_table "id1" ["id"%string])
                           (Dataset.world SQLite [])) /\
   UpdateEmoji Dataset.emoji1 ["category"%string] (Dataset.world SQLite [])
   = Done (Emoji.set_UpdatedAt 1000 Dataset.emoji1, None,
           Some (db_ErrBackend "no such column"))
          (after_statement (EvUpdate emojis_table "id1" ["category"%string])
                           (Dataset.world SQLite [])) /\
   UpdateEmoji Dataset.emoji1 ["colour"%string] (Dataset.world SQLite [])
   = Done (Emoji.set_UpdatedAt 1000 Dataset.emoji1, None,
           Some (db_ErrBackend "does not have column"))
          (Dataset.world SQLite [])).
Proof.
  intros Hrun sent. split; [|exact dataset_rejected_updates].
  rewrite UpdateEmoji_run in Hrun. cbv zeta in Hrun.
  destruct (forallb is_emoji_field columns).
  - destruct (scheduled 0 w) as [raw|] eqn:Hs.
    { injection Hrun as <- <- <- <-. repeat split; try done.
      - by exists raw.
      - by intros raw' _ [= <-]. }
    destruct (set_columns columns) as [|c set].
    { injection Hrun as <- <- <- <-. repeat split; try done.
      by exists (backend_failure "syntax error"). }
    destruct (forallb is_emoji_column (c :: set)); [discriminate|].
    injection Hrun as <- <- <- <-. repeat split; try done.
    by exists (backend_failure "no such column").
  - injection Hrun as <- <- <- <-. repeat split; try done.
    by exists (backend_failure "does not have column").
Qed.

Lemma UpdateEmoji_failure_witness :
  tables (after_statement (EvUpdate emojis_table "id1" ["id"%string])
                          (Dataset.world SQLite []))
  = tables (Dataset.world SQLite []) /\
  emojiCache (after_statement (EvUpdate emojis_table "id1" ["id"%string])
                              (Dataset.world SQLite []))
  = emojiCache (Dataset.world SQLite []).
Proof.
  assert (Hrun :
            UpdateEmoji Dataset.emoji1 ["id"%string] (Dataset.world SQLite [])
            = Done (Emoji.set_UpdatedAt 1000 Dataset.emoji1, None,
                    Some (db_ErrBackend "syntax error"))
                   (after_statement
                      (EvUpdate emojis_table "id1" ["id"%string])
                      (Dataset.world SQLite []))) by reflexivity.
  destruct (UpdateEmoji_failure _ _ _ _ _ _ _ Hrun)
    as [(_ & _ & HT & Hc & _) _].
  exact (conj HT Hc).
Defined.

Lemma column_value_set_Category c v e :
  column_value c (Emoji.set_Category v e) = column_value c e.
Proof. reflexivity. Qed.

Lemma write_columns_ID src cols row :
  Emoji.ID src = Emoji.ID row ->
  Emoji.ID (write_columns src cols row) = Emoji.ID row.
Proof.
  intros Hid.
  pose proof (column_value_write_columns src cols row "id") as H.
  rewrite !column_value_id, Hid in H.
  destruct (existsb _ cols); by injection H.
Qed.

Lemma find_update_rows src id cols rows :
  Emoji.ID src = id ->
  List.find (fun r => bool_decide (Emoji.ID r = id))
            (update_rows src id cols rows)
  = write_columns src cols
      <$> List.find (fun r => bool_decide (Emoji.ID r = id)) rows.
Proof.
  intros Hsrc. unfold update_rows.
  induction rows as [|r rows IH]; [done|]. cbn.
  destruct (bool_decide_reflect (Emoji.ID r = id)) as [Hr|Hr].
  - rewrite bool_decide_true; [done|].
    rewrite write_columns_ID; congruence.
  - by rewrite bool_decide_false.
Qed.

(** X13: what a read sees after a successful update.  If the emoji is
    stored, the update succeeds and the statement of the following read is
    not scheduled to fail, then [GetEmojiByID] goes to storage, returns the
    stored row and caches it: the written columns (the listed ones, or all
    data columns when none is listed) carry the values of the struct, every
    other column carries what was stored before.  In particular, unless
    "updated_at" is among the written columns, the emoji read back still
    has the old UpdatedAt, not the refreshed one of the returned struct. *)
Theorem UpdateEmoji_then_read (emoji : Emoji.t) (columns : list string)
    (w : World) (row emoji' : Emoji.t) (ret : option Emoji.t) (w1 : World) :
  UpdateEmoji emoji columns w = Done (emoji', ret, None) w1 ->
  stored_emoji (Emoji.ID emoji) w = Some row ->
  scheduled 1 w = None ->
  let written := update_columns columns in
  exists got w2,
    GetEmojiByID (Emoji.ID emoji) w1 = Done (Some got, None) w2 /\
    emojiCache w2 !! Emoji.ID emoji = Some got /\
    (forall c, In c written -> column_value c got = column_value c emoji') /\
    (forall c, ~ In c written -> column_value c got = column_value c row) /\
    (~ In "updated_at"%string written ->
     Emoji.UpdatedAt got = Emoji.UpdatedAt row).
Proof.
  intros Hrun Hrow Hs.
  apply UpdateEmoji_success_run in Hrun as (-> & -> & _ & ->).
  intros written.
  set (e' := Emoji.set_UpdatedAt (clock w) emoji).
  assert (Hid : Emoji.ID e' = Emoji.ID emoji) by reflexivity.
  rewrite GetEmojiByID_run. cbv zeta.
  match goal with
  | |- context [emojiCache ?w1 !! _] =>
      assert (Hc : emojiCache w1 !! Emoji.ID emoji = None)
        by (cbn; apply lookup_delete_eq);
      assert (Hs1 : scheduled 0 w1 = None)
        by (unfold after_emoji_Invalidate; sched;
            rewrite scheduled_set_emojiCache; sched; exact Hs);
      assert (Hst : stored_emoji (Emoji.ID emoji) w1
                    = Some (write_columns e' written row))
        by (unfold stored_emoji in *; cbn [tables after_emoji_Invalidate
              set_events set_emojiCache set_tables emojis];
            rewrite (find_update_rows e' (Emoji.ID emoji)) by done;
            by rewrite Hrow)
  end.
  rewrite Hc, Hs1, Hst.
  eexists _, _. split; [reflexivity|].
  assert (Hcol : forall c,
             column_value c
               (load_relations (byID_query (Emoji.ID emoji))
                  (tables
                     (after_emoji_Invalidate (Emoji.ID e')
                        (set_tables
                           (mkTables
                              (update_rows e' (Emoji.ID e') written
                                           (emojis (tables w)))
                              (emoji_categories (tables w))
                              (status_to_emojis (tables w))
                              (account_to_emojis (tables w)))
                           (after_statement
                              (EvUpdate emojis_table (Emoji.ID e') columns)
                              w))))
                  (write_columns e' written row))
             = if existsb (String.eqb c) written then column_value c e'
               else column_value c row).
  { intros c. unfold load_relations. case_bool_decide.
    - by rewrite column_value_set_Category, column_value_write_columns.
    - by rewrite column_value_write_columns. }
  split; [|split; [|split]].
  - cbn [emojiCache after_emoji_Put set_events set_emojiCache].
    pose proof (find_id_Some Emoji.ID (Emoji.ID emoji) _ _ Hrow) as [_ Hr].
    rewrite load_relations_ID, write_columns_ID by (by rewrite Hr).
    rewrite Hr. apply lookup_insert_eq.
  - intros c Hin. rewrite Hcol. apply existsb_eqb_In in Hin. by rewrite Hin.
  - intros c Hin. rewrite Hcol.
    destruct (existsb (String.eqb c) written) eqn:He; [|done].
    by apply existsb_eqb_In in He.
  - intros Hin. specialize (Hcol "updated_at"%string).
    destruct (existsb (String.eqb "updated_at") written) eqn:He.
    { by apply existsb_eqb_In in He. }
    cbn in Hcol. by injection Hcol.
Qed.

Lemma UpdateEmoji_then_read_witness :
  exists got w2,
    GetEmojiByID "id1"
      (final_world (UpdateEmoji Dataset.emoji1 ["shortcode"%string]
                                (Dataset.world SQLite []))
                   (Dataset.world SQLite []))
    = Done (Some got, None) w2 /\
    emojiCache w2 !! Emoji.ID Dataset.emoji1 = Some got /\
    (forall c, In c ["shortcode"%string] ->
               column_value c got
               = column_value c (Emoji.set_UpdatedAt 1000 Dataset.emoji1)) /\
    (forall c, ~ In c ["shortcode"%string] ->
               column_value c got = column_value c Dataset.emoji1) /\
    (~ In "updated_at"%string ["shortcode"%string] ->
     Emoji.UpdatedAt got = Emoji.UpdatedAt Dataset.emoji1).
Proof.
  apply (UpdateEmoji_then_read Dataset.emoji1 ["shortcode"%string]
           (Dataset.world SQLite []) Dataset.emoji1
           (Emoji.set_UpdatedAt 1000 Dataset.emoji1)
           (Some (Emoji.set_UpdatedAt 1000 Dataset.emoji1))
           (final_world (UpdateEmoji Dataset.emoji1 ["shortcode"%string]
                                     (Dataset.world SQLite []))
                        (Dataset.world SQLite []))).
  - vm_compute. reflexivity.
  - reflexivity.
  - reflexivity.
Defined.

(** ** Inserting *)

Section PutProperties.
Variable emoji_conflict : Emoji.t -> list Emoji.t -> bool.
Variable category_conflict : EmojiCategory.t -> list EmojiCategory.t -> bool.

Lemma Exec_insert_emoji_run model w :
  Exec_insert_emoji emoji_conflict model w =
  let w1 := set_faults (tail (faults w)) w in
  match scheduled 0 w with
  | Some err => Done (Some err) w1
  | None =>
      if emoji_conflict model (emojis (tables w)) then
        Done (Some (backend_failure "constraint failed")) w1
      else
        Done None
             (set_tables
                (mkTables (emojis (tables w) ++ [Emoji.set_Category None model])
                          (emoji_categories (tables w))
                          (status_to_emojis (tables w))
                          (account_to_emojis (tables w)))
                w1)
  end.
Proof.
  unfold Exec_insert_emoji. rewrite bind_run. unfold next_fault, scheduled.
  destruct w as [d T fs ec cc ck evs].
  destruct fs as [|[err|] fs]; cbn [faults tail lookup list_lookup];
    try reflexivity; rewrite bind_run, get_world_run; cbn [tables set_faults];
    (destruct (emoji_conflict model (emojis T)); [reflexivity|]);
    by rewrite bind_run, modify_run, ret_run.
Qed.

Lemma Exec_insert_category_run model w :
  Exec_insert_category category_conflict model w =
  let w1 := set_faults (tail (faults w)) w in
  match scheduled 0 w with
  | Some err => Done (Some err) w1
  | None =>
      if category_conflict model (emoji_categories (tables w)) then
        Done (Some (backend_failure "constraint failed")) w1
      else
        Done None
             (set_tables
                (mkTables (emojis (tables w))
                          (emoji_categories (tables w) ++ [model])
                          (status_to_emojis (tables w))
                          (account_to_emojis (tables w)))
                w1)
  end.
Proof.
  unfold Exec_insert_category. rewrite bind_run.
  unfold next_fault, scheduled.
  destruct w as [d T fs ec cc ck evs].
  destruct fs as [|[err|] fs]; cbn [faults tail lookup list_lookup];
    try reflexivity; rewrite bind_run, get_world_run; cbn [tables set_faults];
    (destruct (category_conflict model (emoji_categories T)); [reflexivity|]);
    by rewrite bind_run, modify_run, ret_run.
Qed.

(** X14: [PutEmoji] caches exactly what it stored.  If the insert fails,
    because the statement fails or a unique constraint is violated, the
    translated error is returned and neither the table nor the cache
    changes.  If it succeeds, the row is added at the end of the table, the
    emoji is in the cache under its ID, and a read of that ID returns the
    emoji just put without sending any statement (the world is unchanged by
    the read). *)
Theorem PutEmoji_then_read (emoji : Emoji.t) (w : World) :
  exists w',
    match scheduled 0 w with
    | Some raw =>
        PutEmoji emoji_conflict emoji w = Done (Some (ProcessError raw)) w' /\
        tables w' = tables w /\ emojiCache w' = emojiCache w
    | None =>
        if emoji_conflict emoji (emojis (tables w)) then
          PutEmoji emoji_conflict emoji w
          = Done (Some (db_ErrBackend "constraint failed")) w' /\
          tables w' = tables w /\ emojiCache w' = emojiCache w
        else
          PutEmoji emoji_conflict emoji w = Done None w' /\
          emojis (tables w')
          = emojis (tables w) ++ [Emoji.set_Category None emoji] /\
          emoji_categories (tables w') = emoji_categories (tables w) /\
          status_to_emojis (tables w') = status_to_emojis (tables w) /\
          account_to_emojis (tables w') = account_to_emojis (tables w) /\
          emojiCache w' = <[Emoji.ID emoji := emoji]> (emojiCache w) /\
          GetEmojiByID (Emoji.ID emoji) w' = Done (Some emoji, None) w'
    end.
Proof.
  unfold PutEmoji. rewrite bind_run, Exec_insert_emoji_run. cbv zeta.
  destruct (scheduled 0 w) as [raw|].
  { eexists. by rewrite ret_run. }
  destruct (emoji_conflict emoji (emojis (tables w))).
  { eexists. by rewrite ret_run. }
  rewrite bind_run, emojiCache_Put_run, ret_run.
  eexists. split; [reflexivity|]. do 5 (split; [reflexivity|]).
  rewrite GetEmojiByID_run.
  cbn [emojiCache after_emoji_Put set_events set_emojiCache].
  by rewrite lookup_insert_eq.
Qed.

(** X15: [PutEmojiCategory] caches exactly what it stored: a failed insert
    returns the translated error and changes neither table nor cache; a
    successful one adds the row at the end of the table and leaves the
    category in the cache, so that a read of its ID returns it without
    sending any statement. *)
Theorem PutEmojiCategory_then_read (c : EmojiCategory.t) (w : World) :
  exists w',
    match scheduled 0 w with
    | Some raw =>
        PutEmojiCategory category_conflict c w
        = Done (Some (ProcessError raw)) w' /\
        tables w' = tables w /\ categoryCache w' = categoryCache w
    | None =>
        if category_conflict c (emoji_categories (tables w)) then
          PutEmojiCategory category_conflict c w
          = Done (Some (db_ErrBackend "constraint failed")) w' /\
          tables w' = tables w /\ categoryCache w' = categoryCache w
        else
          PutEmojiCategory category_conflict c w = Done None w' /\
          emoji_categories (tables w')
          = emoji_categories (tables w) ++ [c] /\
          emojis (tables w') = emojis (tables w) /\
          categoryCache w'
          = <[EmojiCategory.ID c := c]> (categoryCache w) /\
          GetEmojiCategory (EmojiCategory.ID c) w' = Done (Some c, None) w'
    end.
Proof.
  unfold PutEmojiCategory. rewrite bind_run, Exec_insert_category_run.
  cbv zeta.
  destruct (scheduled 0 w) as [raw|].
  { eexists. by rewrite ret_run. }
  destruct (category_conflict c (emoji_categories (tables w))).
  { eexists. by rewrite ret_run. }
  rewrite bind_run, categoryCache_Put_run, ret_run.
  eexists. split; [reflexivity|]. do 3 (split; [reflexivity|]).
  rewrite GetEmojiCategory_run.
  cbn [categoryCache after_category_Put set_events set_categoryCache].
  by rewrite lookup_insert_eq.
Qed.
Lemma scheduled_tail_faults n w :
  scheduled n (set_faults (tail (faults w)) w) = scheduled (S n) w.
Proof.
  unfold scheduled. cbn [faults set_faults]. by rewrite lookup_tail.
Qed.

Lemma filter_ne_app_fresh (id : string) (rows : list Emoji.t) (e : Emoji.t) :
  Forall (fun r => Emoji.ID r <> id) rows -> Emoji.ID e = id ->
  List.filter (fun r => negb (bool_decide (Emoji.ID r = id))) (rows ++ [e])
  = rows.
Proof.
  intros Hrows He. rewrite List.filter_app. cbn [List.filter].
  rewrite (bool_decide_true (Emoji.ID e = id)) by done. cbn [negb].
  rewrite app_nil_r. apply filter_keep_all.
  eapply Forall_impl; [exact Hrows|]. intros r Hr.
  by rewrite bool_decide_false.
Qed.

(** X20: putting an emoji and deleting it again.  For an emoji whose ID is
    not stored yet and whose insert violates no constraint, with none of
    the four statements scheduled to fail: [PutEmoji] followed by
    [DeleteEmojiByID] of its ID both return nil, the emoji and category
    tables are exactly what they were before the put, the junction tables
    have lost the rows of that ID only, and the ID is no longer in the
    cache, every other cache entry being as before. *)
Theorem PutEmoji_then_DeleteEmojiByID (emoji : Emoji.t) (w : World) :
  scheduled 0 w = None -> scheduled 1 w = None -> scheduled 2 w = None ->
  scheduled 3 w = None ->
  emoji_conflict emoji (emojis (tables w)) = false ->
  emoji_not_stored (Emoji.ID emoji) w ->
  let id := Emoji.ID emoji in
  exists w1 w2,
    PutEmoji emoji_conflict emoji w = Done None w1 /\
    DeleteEmojiByID id w1 = Done None w2 /\
    emojis (tables w2) = emojis (tables w) /\
    emoji_categories (tables w2) = emoji_categories (tables w) /\
    status_to_emojis (tables w2)
    = List.filter (fun j => negb (bool_decide (emoji_id j = id)))
                  (status_to_emojis (tables w)) /\
    account_to_emojis (tables w2)
    = List.filter (fun j => negb (bool_decide (emoji_id j = id)))
                  (account_to_emojis (tables w)) /\
    emojiCache w2 = delete id (emojiCache w).
Proof.
  intros H0 H1 H2 H3 Hfree Hfresh id.
  unfold PutEmoji. rewrite bind_run, Exec_insert_emoji_run. cbv zeta.
  rewrite H0, Hfree, bind_run, emojiCache_Put_run, ret_run.
  eexists.
  edestruct (DeleteEmojiByID_commits id) as (w2 & Hdel & HT & Hc & _);
    [| | |exists w2; split; [reflexivity|]; split; [exact Hdel|]].
  - unfold after_emoji_Put. sched. rewrite scheduled_set_emojiCache. sched.
    by rewrite scheduled_tail_faults.
  - unfold after_emoji_Put. sched. rewrite scheduled_set_emojiCache. sched.
    by rewrite scheduled_tail_faults.
  - unfold after_emoji_Put. sched. rewrite scheduled_set_emojiCache. sched.
    by rewrite scheduled_tail_faults.
  - rewrite HT, Hc. cbn.
    split; [by apply filter_ne_app_fresh|].
    do 3 (split; [reflexivity|]).
    by rewrite delete_insert_eq.
Qed.

End PutProperties.

Lemma PutEmoji_then_DeleteEmojiByID_witness :
  exists w1 w2,
    PutEmoji (fun _ _ => false)
             (Emoji.mk "id4" 0 0 "fox" None "/static/4.png"
                       "https://local/emoji/4" false true "" None)
             (Dataset.world SQLite []) = Done None w1 /\
    DeleteEmojiByID "id4" w1 = Done None w2 /\
    emojis (tables w2) = emojis (tables (Dataset.world SQLite [])) /\
    emoji_categories (tables w2)
    = emoji_categories (tables (Dataset.world SQLite [])) /\
    status_to_emojis (tables w2)
    = List.filter (fun j => negb (bool_decide (emoji_id j = "id4"%string)))
                  (status_to_emojis (tables (Dataset.world SQLite []))) /\
    account_to_emojis (tables w2)
    = List.filter (fun j => negb (bool_decide (emoji_id j = "id4"%string)))
                  (account_to_emojis (tables (Dataset.world SQLite []))) /\
    emojiCache w2 = delete "id4"%string (emojiCache (Dataset.world SQLite [])).
Proof.
  apply (PutEmoji_then_DeleteEmojiByID (fun _ _ => false)
           (Emoji.mk "id4" 0 0 "fox" None "/static/4.png"
                       "https://local/emoji/4" false true "" None)
           (Dataset.world SQLite []));
    try reflexivity.
  repeat constructor; discriminate.
Defined.

(** ** Reading twice, and hydrating from a warm cache *)

(** X16: the cache is read-through by ID, and failures are not cached.
    Whatever a read by ID returns: if it returned an emoji (with a nil
    error), reading the same ID again in the world it left returns the same
    emoji and changes nothing, so no statement is sent; if it returned an
    error, the ID is still absent from the cache, so the next read asks
    storage again.  The same holds for categories. *)
Theorem read_by_ID_is_read_through (id : string) (w : World) :
  match GetEmojiByID id w with
  | Done (Some e, err) w1 =>
      err = None /\ GetEmojiByID id w1 = Done (Some e, None) w1
  | Done (None, err) w1 =>
      err <> None /\ emojiCache w1 !! id = None
  | Panic _ => False
  end /\
  match GetEmojiCategory id w with
  | Done (Some c, err) w1 =>
      err = None /\ GetEmojiCategory id w1 = Done (Some c, None) w1
  | Done (None, err) w1 =>
      err <> None /\ categoryCache w1 !! id = None
  | Panic _ => False
  end.
Proof.
  split.
  - rewrite GetEmojiByID_run. cbv zeta.
    destruct (emojiCache w !! id) as [e|] eqn:Hc.
    { split; [done|]. by rewrite GetEmojiByID_run, Hc. }
    destruct (scheduled 0 w); [by split|].
    destruct (stored_emoji id w) as [row|] eqn:Hrow; [|by split].
    split; [done|]. rewrite GetEmojiByID_run.
    cbn [emojiCache after_emoji_Put set_events set_emojiCache].
    apply (find_id_Some Emoji.ID id) in Hrow as [_ Hid].
    by rewrite load_relations_ID, Hid, lookup_insert_eq.
  - rewrite GetEmojiCategory_run. cbv zeta.
    destruct (categoryCache w !! id) as [c|] eqn:Hc.
    { split; [done|]. by rewrite GetEmojiCategory_run, Hc. }
    destruct (scheduled 0 w); [by split|].
    destruct (stored_category id w) as [row|] eqn:Hrow; [|by split].
    split; [done|]. rewrite GetEmojiCategory_run.
    cbn [categoryCache after_category_Put set_events set_categoryCache].
    apply (find_id_Some EmojiCategory.ID id) in Hrow as [_ Hid].
    by rewrite Hid, lookup_insert_eq.
Qed.

Lemma emojisFromIDs_loop_warm ids : forall acc w,
  Forall (fun id => is_Some (emojiCache w !! id)) ids ->
  emojisFromIDs_loop ids acc w
  = Done (acc ++ ((fun id => emojiCache w !! id) <$> ids)) w.
Proof.
  induction ids as [|id ids IH]; intros acc w Hall.
  - cbn. by rewrite app_nil_r.
  - apply Forall_cons in Hall as [[e He] Hall].
    cbn [emojisFromIDs_loop]. rewrite bind_run, GetEmojiByID_run, He.
    rewrite bind_run, ret_run, (IH _ _ Hall). cbn [fmap list_fmap].
    by rewrite He, <- app_assoc.
Qed.

(** X17: hydrating from a warm cache touches nothing.  When every ID of a
    non-empty list is in the cache, [emojisFromIDs] returns the cached emoji
    in input order (repeated IDs repeated) with a nil error, sends no
    statement and logs nothing: the world is unchanged. *)
Theorem emojisFromIDs_warm (ids : list string) (w : World) :
  ids <> [] ->
  Forall (fun id => is_Some (emojiCache w !! id)) ids ->
  emojisFromIDs ids w
  = Done ((fun id => emojiCache w !! id) <$> ids, None) w.
Proof.
  intros Hne Hall. unfold emojisFromIDs.
  destruct ids as [|id ids]; [done|]. cbn [length Nat.eqb].
  by rewrite bind_run, (emojisFromIDs_loop_warm _ _ _ Hall), ret_run.
Qed.

Lemma emojisFromIDs_warm_witness :
  emojisFromIDs ["id2"; "id1"; "id2"]%string
    (set_emojiCache (<["id1"%string := Dataset.emoji1]>
                       (<["id2"%string := Dataset.emoji2]> ∅))
                    (Dataset.world SQLite []))
  = Done ((fun id =>
             emojiCache
               (set_emojiCache (<["id1"%string := Dataset.emoji1]>
                                  (<["id2"%string := Dataset.emoji2]> ∅))
                               (Dataset.world SQLite [])) !! id)
            <$> ["id2"; "id1"; "id2"]%string, None)
         (set_emojiCache (<["id1"%string := Dataset.emoji1]>
                            (<["id2"%string := Dataset.emoji2]> ∅))
                         (Dataset.world SQLite [])).
Proof.
  apply emojisFromIDs_warm; [discriminate|].
  repeat constructor; by eexists.
Defined.

(** ** Lookups by a secondary key *)

Lemma holds_EQ_uri v e :
  holds (EQ emoji_uri v) e = bool_decide (Emoji.URI e = v).
Proof. unfold holds, EQ, emoji_uri. cbn. by case_bool_decide. Qed.

Lemma holds_EQ_image_static_url v e :
  holds (EQ emoji_image_static_url v) e
  = bool_decide (Emoji.ImageStaticURL e = v).
Proof. unfold holds, EQ, emoji_image_static_url. cbn. by case_bool_decide. Qed.

Lemma holds_EQ_lower_name v c :
  holds (EQ (LOWER_col emoji_category_name) v) c
  = bool_decide (LOWER (EmojiCategory.Name c) = v).
Proof.
  unfold holds, EQ, LOWER_col, emoji_category_name, LOWER. cbn.
  by case_bool_decide.
Qed.

(** A cache-missing emoji read whose query has one condition, no order and
    no limit, with the statement not scheduled to fail: the first stored row
    that passes the condition, its category loaded, put in the cache. *)
Lemma getEmoji_first_match (lookup : World -> option Emoji.t)
    (p : Pred Emoji.t) (f : Emoji.t -> bool) (w : World) :
  (forall e, holds p e = f e) ->
  lookup w = None -> scheduled 0 w = None ->
  getEmoji (w ← get_world; mret (lookup w))
           (fun emoji => Scan_emoji (Where p newEmojiQ) emoji) w
  = match List.find f (emojis (tables w)) with
    | Some row =>
        let e := load_relations newEmojiQ (tables w) row in
        Done (Some e, None)
             (after_emoji_Put e (after_statement (EvSelect emojis_table) w))
    | None =>
        Done (None, Some db_ErrNotFound)
             (after_statement (EvSelect emojis_table) w)
    end.
Proof.
  intros Hp Hmiss Hok.
  pose proof (getEmoji_get_or_load (w ← get_world; mret (lookup w))
                (fun emoji => Scan_emoji (Where p newEmojiQ) emoji) w) as H.
  rewrite bind_run, get_world_run, ret_run, Hmiss in H.
  rewrite Scan_emoji_run, Hok in H.
  rewrite run_select_plain in H by reflexivity.
  rewrite (List.filter_ext _ f) in H
    by (intros e; by rewrite where_ok_Where, Hp).
  rewrite <- filter_head_find. by destruct (List.filter _ _).
Qed.

(** X18: the storage lookups by URI and by static image URL match exactly.
    With no cached emoji carrying the key and the statement not scheduled to
    fail, [GetEmojiByURI] returns the first stored emoji whose URI equals
    the argument, [GetEmojiByStaticURL] the first whose static image URL
    equals it (nothing is lowercased), each with its category relation
    loaded and after putting it in the cache under its ID; when no row
    matches, the error is the not-found error and nothing is cached. *)
Theorem GetEmojiByURI_and_StaticURL_storage_lookup (uri url : string)
    (w : World) :
  scheduled 0 w = None ->
  cache_find (fun e => bool_decide (Emoji.URI e = uri)) (emojiCache w)
  = None ->
  cache_find (fun e => bool_decide (Emoji.ImageStaticURL e = url))
             (emojiCache w) = None ->
  let found (o : option Emoji.t) :=
    match o with
    | Some row =>
        let e := load_relations newEmojiQ (tables w) row in
        Done (Some e, None)
             (after_emoji_Put e (after_statement (EvSelect emojis_table) w))
    | None =>
        Done (None, Some db_ErrNotFound)
             (after_statement (EvSelect emojis_table) w)
    end in
  GetEmojiByURI uri w
  = found (List.find (fun e => bool_decide (Emoji.URI e = uri))
                     (emojis (tables w))) /\
  GetEmojiByStaticURL url w
  = found (List.find (fun e => bool_decide (Emoji.ImageStaticURL e = url))
                     (emojis (tables w))).
Proof.
  intros Hok Huri Hurl found. split.
  - apply (getEmoji_first_match
             (fun w => cache_find (fun e => bool_decide (Emoji.URI e = uri))
                                  (emojiCache w))); [|done..].
    apply holds_EQ_uri.
  - apply (getEmoji_first_match
             (fun w => cache_find
                         (fun e => bool_decide (Emoji.ImageStaticURL e = url))
                         (emojiCache w))); [|done..].
    apply holds_EQ_image_static_url.
Qed.

Lemma GetEmojiByURI_and_StaticURL_storage_lookup_witness :
  GetEmojiByURI "https://local/emoji/2" (Dataset.world PG [])
  = Done (Some Dataset.emoji2, None)
         (after_emoji_Put Dataset.emoji2
            (after_statement (EvSelect emojis_table)
                             (Dataset.world PG []))) /\
  GetEmojiByStaticURL "/STATIC/3.PNG" (Dataset.world PG [])
  = Done (None, Some db_ErrNotFound)
         (after_statement (EvSelect emojis_table)
                          (Dataset.world PG [])).
Proof.
  apply (GetEmojiByURI_and_StaticURL_storage_lookup
           "https://local/emoji/2" "/STATIC/3.PNG"
           (Dataset.world PG [])); vm_compute; reflexivity.
Defined.

(** The lookup uses [strings.ToLower] at the name it is given, and nowhere
    else. *)
Lemma GetEmojiCategoryByName_ext (f g : string -> string) (name : string) :
  f name = g name ->
  GetEmojiCategoryByName f name = GetEmojiCategoryByName g name.
Proof. intros H. unfold GetEmojiCategoryByName. by rewrite H. Qed.

Lemma accented_category_lookups :
  (exists w',
      GetEmojiCategoryByName (fun _ => "école"%string) "ÉCOLE" Accented.world
      = Done (Some Accented.ecole, None) w') /\
  (exists w',
      GetEmojiCategoryByName (fun _ => "été"%string) "ÉTÉ" Accented.world
      = Done (None, Some db_ErrNotFound) w').
Proof. split; eexists; vm_compute; reflexivity. Qed.

(** X19: the storage lookup of a category by name compares the stored
    name, lowercased by SQL's LOWER, with the argument, lowercased by
    [strings.ToLower].  With no cached category of exactly that name and the
    statement not scheduled to fail, [GetEmojiCategoryByName] returns the
    first stored category whose LOWER(name) equals the lowercased argument,
    after putting it in the cache under its ID, or the not-found error when
    there is none.  So, for a [strings.ToLower] that is [lower] on ASCII
    text, an ASCII-only argument finds the first stored category whose name
    equals it up to ASCII case.  Outside ASCII the two lowercasings differ:
    when [strings.ToLower] maps "ÉCOLE" to "école" the category stored as
    "école" is found by "ÉCOLE", and when it maps "ÉTÉ" to "été" the
    category stored as "ÉTÉ" is not found by its own name. *)
Theorem GetEmojiCategoryByName_storage_lookup
    (strings_ToLower : string -> string) (name : string) (w : World) :
  scheduled 0 w = None ->
  cache_find (fun c => bool_decide (EmojiCategory.Name c = name))
             (categoryCache w) = None ->
  let found (o : option EmojiCategory.t) :=
    match o with
    | Some c =>
        Done (Some c, None)
             (after_category_Put c
                (after_statement (EvSelect emoji_categories_table) w))
    | None =>
        Done (None, Some db_ErrNotFound)
             (after_statement (EvSelect emoji_categories_table) w)
    end in
  GetEmojiCategoryByName strings_ToLower name w
  = found (List.find
             (fun c => bool_decide (LOWER (EmojiCategory.Name c)
                                    = strings_ToLower name))
             (emoji_categories (tables w))) /\
  (lowers_ASCII strings_ToLower -> is_ascii name = true ->
   GetEmojiCategoryByName strings_ToLower name w
   = found (List.find
              (fun c => bool_decide (lower (EmojiCategory.Name c)
                                     = lower name))
              (emoji_categories (tables w)))) /\
  (strings_ToLower "ÉCOLE" = "école"%string ->
   exists w',
     GetEmojiCategoryByName strings_ToLower "ÉCOLE" Accented.world
     = Done (Some Accented.ecole, None) w') /\
  (strings_ToLower "ÉTÉ" = "été"%string ->
   exists w',
     GetEmojiCategoryByName strings_ToLower "ÉTÉ" Accented.world
     = Done (None, Some db_ErrNotFound) w').
Proof.
  intros Hok Hmiss found.
  assert (Hrun :
            GetEmojiCategoryByName strings_ToLower name w
            = found (List.find
                       (fun c => bool_decide (LOWER (EmojiCategory.Name c)
                                              = strings_ToLower name))
                       (emoji_categories (tables w)))).
  { pose proof (getEmojiCategory_get_or_load (categoryCache_GetByName name)
                  (fun c => Scan_category
                              (Where (EQ (LOWER_col emoji_category_name)
                                         (strings_ToLower name))
                                     newEmojiCategoryQ) c) w) as H.
    change (getEmojiCategory _ _)
      with (GetEmojiCategoryByName strings_ToLower name) in H.
    unfold categoryCache_GetByName in H.
    rewrite bind_run, get_world_run, ret_run, Hmiss in H.
    rewrite Scan_category_run, Hok in H.
    rewrite run_select_plain in H by reflexivity.
    rewrite (List.filter_ext _
               (fun c => bool_decide (LOWER (EmojiCategory.Name c)
                                      = strings_ToLower name)))
      in H by (intros c; by rewrite where_ok_Where, holds_EQ_lower_name).
    unfold found. rewrite <- filter_head_find. by destruct (List.filter _ _). }
  split; [exact Hrun|]. split; [|split].
  - intros Hascii Hname. rewrite Hrun. unfold LOWER.
    by rewrite (Hascii name Hname).
  - intros Hacc.
    rewrite (GetEmojiCategoryByName_ext strings_ToLower
               (fun _ => "école"%string) "ÉCOLE" Hacc).
    exact (proj1 accented_category_lookups).
  - intros Hacc.
    rewrite (GetEmojiCategoryByName_ext strings_ToLower
               (fun _ => "été"%string) "ÉTÉ" Hacc).
    exact (proj2 accented_category_lookups).
Qed.

Lemma GetEmojiCategoryByName_storage_lookup_witness :
  GetEmojiCategoryByName lower "FOOD" (Categories.world [])
  = Done (Some Categories.Food, None)
         (after_category_Put Categories.Food
            (after_statement (EvSelect emoji_categories_table)
                             (Categories.world []))).
Proof.
  assert (Hok : scheduled 0 (Categories.world []) = None) by reflexivity.
  assert (Hmiss :
            cache_find (fun c => bool_decide (EmojiCategory.Name c
                                              = "FOOD"%string))
                       (categoryCache (Categories.world [])) = None)
    by reflexivity.
  exact (proj1 (GetEmojiCategoryByName_storage_lookup lower "FOOD"
                  (Categories.world []) Hok Hmiss)).
Defined.
